(** * Market-priors reconciliation front end (js/papers.js, js/priors.js)

    A shallow embedding of the bin normalizer, the volume weighter, the
    fallback combiner and the snapshot selection of the market-priors pages.

    Numbers.  A JavaScript number is an IEEE-754 double.  Finite doubles are
    rationals, so a finite number is modelled by an exact rational [Q] and
    the three non-finite doubles are kept as separate constructors.
    Arithmetic on finite numbers is exact: rounding and overflow are not
    modelled, and numeric results are compared with [==] ([Qeq]).
    [Math.log1p] is transcendental; the volume weights it produces are
    modelled over the reals. *)

From Stdlib Require Import QArith Qround Qminmax Qabs.
From Stdlib Require Import Reals Qreals Psatz Lia.
From Stdlib Require Import List Bool ZArith String.
From Stdlib Require Import Sorted Permutation.
Import ListNotations.

Open Scope Q_scope.

(* ================================================================== *)
(** * Part I: the program *)
(* ================================================================== *)

(** ** JavaScript values reaching the numeric helpers *)

Module JS.

(** A double: finite, or one of the three non-finite values. *)
Inductive number : Type :=
| Fin (q : Q)
| PosInfinity
| NegInfinity
| NaN.

(** What a JSON field read with [r?.field] can hold on this data:
    [null], [undefined] (field or object missing) or a number. *)
Inductive value : Type :=
| Null
| Undefined
| Num (n : number).

(** [x < y] on finite numbers, as a boolean. *)
Definition Qlt_bool (x y : Q) : bool := negb (Qle_bool y x).

(** ui_utils.js [toNumber]:
<<
if (value === null || value === undefined) return null;
if (typeof value === "string" && value.trim() === "") return null;
const n = Number(value);
return Number.isFinite(n) ? n : null;
>>
    The result is [null] ([None]) or a finite number.  The string test
    never fires on a [value]. *)
Definition toNumber (v : value) : option Q :=
  match v with
  | Null => None
  | Undefined => None
  | Num (Fin q) => Some q
  | Num _ => None
  end.

(** [Number.isFinite] on a result of [toNumber] (a finite number or
    [null]). *)
Definition isFinite (n : option Q) : bool :=
  match n with
  | Some _ => true
  | None => false
  end.

(** [x ?? d] on a result of [toNumber]. *)
Definition orElse (n : option Q) (d : Q) : Q :=
  match n with
  | Some q => q
  | None => d
  end.

(** [xs.reduce((acc, v) => acc + f(v), 0)]. *)
Definition sumBy {A : Type} (f : A -> Q) (xs : list A) : Q :=
  fold_left (fun acc x => acc + f x) xs 0.

End JS.

Import JS.

(** A bracket as it arrives from a venue feed:
    [{ lower, upper, prob, volume, midpoint }]. *)
Module Raw.
Record range : Type := mk {
  lower : value;
  upper : value;
  prob : value;
  volume : value;
  midpoint : value
}.
End Raw.

(** [{ lower, upper }] after [toNumber]: [None] is an open end. *)
Record bounds : Type := mkBounds {
  lower : option Q;
  upper : option Q
}.

(** The two venues the pages read: [sources.kalshi], [sources.polymarket]. *)
Inductive venue : Type := Kalshi | Polymarket.

(** A value of the [Map] of [combineDistributions] while it is filled:
    [{ lower, upper, kalshi, polymarket }]. *)
Record cell : Type := mkCell {
  cbnd :> bounds;
  kalshi : option Q;
  polymarket : option Q
}.

(** The same object once [combinedRaw] and [combined] are set. *)
Record entry : Type := mkEntry {
  ecell :> cell;
  combinedRaw : option Q;
  combined : Q
}.

(** ** Helpers shared by both pages (defined identically in each file) *)

Module Common.

(** [rangeKey]: [`${range.lower ?? ""}|${range.upper ?? ""}`].  Number to
    string conversion is injective on finite doubles, so two keys are the
    same string exactly when the bounds are the same numbers. *)
Definition sameBound (a b : option Q) : bool :=
  match a, b with
  | None, None => true
  | Some x, Some y => Qeq_bool x y
  | _, _ => false
  end.

Definition sameKey (a b : bounds) : bool :=
  sameBound (lower a) (lower b) && sameBound (upper a) (upper b).

(** A JavaScript [Map] keyed by [rangeKey]: entries in insertion order;
    [set] on a present key replaces the value in place. *)
Fixpoint mapGet {V : Type} (key : bounds) (m : list (bounds * V)) : option V :=
  match m with
  | [] => None
  | (k, v) :: m' => if sameKey k key then Some v else mapGet key m'
  end.

Fixpoint mapSet {V : Type} (key : bounds) (v : V) (m : list (bounds * V))
  : list (bounds * V) :=
  match m with
  | [] => [(key, v)]
  | (k, w) :: m' =>
      if sameKey k key then (k, v) :: m' else (k, w) :: mapSet key v m'
  end.

Definition mapValues {V : Type} (m : list (bounds * V)) : list V := map snd m.

(** Subtraction and inequality of doubles, for the comparators. *)
Definition sub (a b : number) : number :=
  match a, b with
  | NaN, _ | _, NaN => NaN
  | Fin x, Fin y => Fin (x - y)
  | Fin _, PosInfinity => NegInfinity
  | Fin _, NegInfinity => PosInfinity
  | PosInfinity, PosInfinity => NaN
  | PosInfinity, _ => PosInfinity
  | NegInfinity, NegInfinity => NaN
  | NegInfinity, _ => NegInfinity
  end.

Definition strictNeq (a b : number) : bool :=
  match a, b with
  | Fin x, Fin y => negb (Qeq_bool x y)
  | PosInfinity, PosInfinity => false
  | NegInfinity, NegInfinity => false
  | _, _ => true
  end.

(** [Array.prototype.sort(cmp)]: a stable sort; [a] goes after [b] when
    [cmp(a, b) > 0], and a [NaN] result counts as [0]. *)
Definition isPositive (c : number) : bool :=
  match c with
  | Fin q => Qlt_bool 0 q
  | PosInfinity => true
  | _ => false
  end.

Fixpoint insertBy {A : Type} (cmp : A -> A -> number) (x : A) (l : list A) : list A :=
  match l with
  | [] => [x]
  | y :: l' => if isPositive (cmp x y) then y :: insertBy cmp x l' else x :: l
  end.

Fixpoint sortBy {A : Type} (cmp : A -> A -> number) (l : list A) : list A :=
  match l with
  | [] => []
  | x :: l' => insertBy cmp x (sortBy cmp l')
  end.

(** [sortRanges]:
<<
const al = Number.isFinite(a.lower) ? a.lower : -Infinity;
const bl = Number.isFinite(b.lower) ? b.lower : -Infinity;
if (al !== bl) return al - bl;
const au = Number.isFinite(a.upper) ? a.upper : Infinity;
const bu = Number.isFinite(b.upper) ? b.upper : Infinity;
return au - bu;
>> *)
Definition orInfinity (n : option Q) (inf : number) : number :=
  match n with
  | Some q => Fin q
  | None => inf
  end.

Definition sortRanges (a b : bounds) : number :=
  let al := orInfinity (lower a) NegInfinity in
  let bl := orInfinity (lower b) NegInfinity in
  if strictNeq al bl then sub al bl
  else
    let au := orInfinity (upper a) PosInfinity in
    let bu := orInfinity (upper b) PosInfinity in
    sub au bu.

(** [[entry.kalshi, entry.polymarket].filter(Number.isFinite)] and the
    [combinedRaw] of an entry: the mean of the sources present. *)
Definition presentSources (c : cell) : list Q :=
  match kalshi c, polymarket c with
  | Some k, Some p => [k; p]
  | Some k, None => [k]
  | None, Some p => [p]
  | None, None => []
  end.

Definition withCombinedRaw (c : cell) : cell * option Q :=
  let sourcesList := presentSources c in
  (c, match sourcesList with
      | [] => None
      | _ => Some (sumBy (fun v => v) sourcesList / inject_Z (Z.of_nat (List.length sourcesList)))
      end).

(** [entry.combined = combinedTotal > 0 && entry.combinedRaw !== null
      ? entry.combinedRaw / combinedTotal : 0]. *)
Definition withCombined (combinedTotal : Q) (e : cell * option Q) : entry :=
  {| ecell := fst e;
     combinedRaw := snd e;
     combined := match snd e with
                 | Some raw => if Qlt_bool 0 combinedTotal then raw / combinedTotal else 0
                 | None => 0
                 end |}.

(** The tail of [combineDistributions], after the map is filled:
<<
const entries = Array.from(map.values()).map((entry) => { ... combinedRaw ... });
const combinedTotal = entries.reduce((acc, entry) => acc + (entry.combinedRaw ?? 0), 0);
entries.forEach((entry) => { entry.combined = ... });
return entries.sort(sortRanges);
>> *)
Definition finishCombine (m : list (bounds * cell)) : list entry :=
  let entries := map withCombinedRaw (mapValues m) in
  let combinedTotal := sumBy (fun e => orElse (snd e) 0) entries in
  sortBy (fun a b : entry => sortRanges a b) (map (withCombined combinedTotal) entries).

(** [existing[sourceKey] = p]. *)
Definition setVenue (sourceKey : venue) (p : option Q) (c : cell) : cell :=
  match sourceKey with
  | Kalshi => {| cbnd := cbnd c; kalshi := p; polymarket := polymarket c |}
  | Polymarket => {| cbnd := cbnd c; kalshi := kalshi c; polymarket := p |}
  end.

(** One turn of the loop of [ingest]:
<<
const key = rangeKey({ lower, upper });
const existing = map.get(key) || { lower, upper, kalshi: null, polymarket: null };
existing[sourceKey] = toNumber(range?.prob);
map.set(key, existing);
>> *)
Definition ingestOne (sourceKey : venue) (m : list (bounds * cell)) (b : bounds) (p : option Q)
  : list (bounds * cell) :=
  let existing :=
    match mapGet b m with
    | Some c => c
    | None => {| cbnd := b; kalshi := None; polymarket := None |}
    end in
  mapSet b (setVenue sourceKey p existing) m.

End Common.

Import Common.

(** ** js/papers.js (the posterior page) *)

Module Papers.

(** An element of [normalizeDistribution]'s result. *)
Record range : Type := mkRange {
  bnd :> bounds;
  prob : option Q
}.

(** [normalizeProb]:
<<
const n = toNumber(value);
if (!Number.isFinite(n)) return null;
return n > 1.5 ? n / 100 : n;
>> *)
Definition normalizeProb (v : value) : option Q :=
  let n := toNumber v in
  match n with
  | None => None
  | Some n => Some (if Qlt_bool (15 # 10) n then n / 100 else n)
  end.

(** [clamp]: [Math.min(Math.max(value, min), max)]. *)
Definition clamp (v lo hi : R) : R := Rmin (Rmax v lo) hi.

(** [normalizeDistribution]:
<<
const cleaned = safeArray(ranges)
  .map((r) => ({ lower: toNumber(r?.lower), upper: toNumber(r?.upper),
                 prob: normalizeProb(r?.prob) }))
  .filter((r) => r.prob !== null);
const total = cleaned.reduce((acc, r) => acc + (r.prob ?? 0), 0);
if (total > 0) { cleaned.forEach((r) => { r.prob = (r.prob ?? 0) / total; }); }
return cleaned;
>> *)
Definition cleanRange (r : Raw.range) : range :=
  {| bnd := {| lower := toNumber (Raw.lower r); upper := toNumber (Raw.upper r) |};
     prob := normalizeProb (Raw.prob r) |}.

Definition hasProb (r : range) : bool := isFinite (prob r).

(** [r.prob ?? 0]. *)
Definition probOf (r : range) : Q := orElse (prob r) 0.

Definition rescale (total : Q) (r : range) : range :=
  {| bnd := bnd r; prob := Some (probOf r / total) |}.

Definition normalizeDistribution (ranges : list Raw.range) : list range :=
  let cleaned := filter hasProb (map cleanRange ranges) in
  let total := sumBy probOf cleaned in
  if Qlt_bool 0 total then map (rescale total) cleaned else cleaned.

(** [snapshot.sources]: a JSON object from venue id to bracket list, in
    property order. *)
Definition venueMap : Type := list (string * list Raw.range).

(** [sources?.kalshi || []] and [sources?.polymarket || []]. *)
Fixpoint venueRanges (key : string) (s : venueMap) : list Raw.range :=
  match s with
  | [] => []
  | (k, ranges) :: s' => if String.eqb k key then ranges else venueRanges key s'
  end.

(** [getBinsFromSources]:
<<
const map = new Map();
Object.values(sources || {}).forEach((ranges) => {
  normalizeDistribution(ranges).forEach((range) => {
    const key = rangeKey(range);
    map.set(key, { lower: range.lower ?? null, upper: range.upper ?? null });
  });
});
return Array.from(map.values()).sort(sortRanges);
>> *)
Definition getBinsFromSources (s : venueMap) : list bounds :=
  let m :=
    fold_left
      (fun m ranges =>
         fold_left
           (fun m (range : range) =>
              mapSet (bnd range) {| lower := lower range; upper := upper range |} m)
           (normalizeDistribution ranges) m)
      (map snd s) [] in
  sortBy sortRanges (mapValues m).

(** [meta]: only [format] matters to the numeric code. *)
Record meta : Type := mkMeta { format : string }.

(** [stepForMeta]. *)
Definition stepForMeta (m : meta) : Q :=
  if String.eqb (format m) "jobs" then 25000
  else if String.eqb (format m) "percent" then 1 # 10
  else 1.

(** [Math.min(...xs)] and [Math.max(...xs)] on a non-empty array. *)
Definition minOf (x : Q) (xs : list Q) : Q := fold_left Qmin xs x.
Definition maxOf (x : Q) (xs : list Q) : Q := fold_left Qmax xs x.

(** [bins.map((b) => toNumber(b.lower)).filter(Number.isFinite)]. *)
Fixpoint finiteOnes (xs : list (option Q)) : list Q :=
  match xs with
  | [] => []
  | Some q :: xs' => q :: finiteOnes xs'
  | None :: xs' => finiteOnes xs'
  end.

(** The loop of [buildStandardBins]:
    [for (let v = start; v < end; v += step) out.push({ lower: v, upper: v + step })].
    [fuel] bounds the number of turns; [buildStandardBins] passes the
    number of steps between [start] and [end], which is enough.  The
    additions are exact here; with the percent step 0.1 the doubles of
    the code drift, so nothing below speaks of the bounds of a percent
    grid. *)
Fixpoint gridLoop (fuel : nat) (v end_ step : Q) : list bounds :=
  match fuel with
  | O => []
  | S fuel' =>
      if Qlt_bool v end_
      then {| lower := Some v; upper := Some (v + step) |} :: gridLoop fuel' (v + step) end_ step
      else []
  end.

(** [buildStandardBins]:
<<
const step = stepForMeta(meta);
const lowers = bins.map((b) => toNumber(b.lower)).filter(Number.isFinite);
const uppers = bins.map((b) => toNumber(b.upper)).filter(Number.isFinite);
if (!lowers.length && !uppers.length) return [];
const minVal = lowers.length ? Math.min(...lowers) : Math.min(...uppers) - step;
const maxVal = uppers.length ? Math.max(...uppers) : Math.max(...lowers) + step;
const start = Math.floor(minVal / step) * step;
const end = Math.ceil(maxVal / step) * step;
out.push({ lower: null, upper: start });
for (...) ...
out.push({ lower: end, upper: null });
>> *)
Definition buildStandardBins (bins : list bounds) (m : meta) : list bounds :=
  let step := stepForMeta m in
  let lowers := finiteOnes (map lower bins) in
  let uppers := finiteOnes (map upper bins) in
  match lowers, uppers with
  | [], [] => []
  | _, _ =>
      let minVal :=
        match lowers, uppers with
        | l :: ls, _ => minOf l ls
        | [], u :: us => minOf u us - step
        | [], [] => 0
        end in
      let maxVal :=
        match uppers, lowers with
        | u :: us, _ => maxOf u us
        | [], l :: ls => maxOf l ls + step
        | [], [] => 0
        end in
      let startSteps := Qfloor (minVal / step) in
      let endSteps := Qceiling (maxVal / step) in
      let start := inject_Z startSteps * step in
      let end_ := inject_Z endSteps * step in
      {| lower := None; upper := Some start |}
        :: gridLoop (Z.to_nat (endSteps - startSteps)) start end_ step
        ++ [{| lower := Some end_; upper := None |}]
  end.

(** [expandRange]:
<<
const lower = Number.isFinite(toNumber(range.lower)) ? toNumber(range.lower) : minBound - step;
const upper = Number.isFinite(toNumber(range.upper)) ? toNumber(range.upper) : maxBound + step;
return { lower, upper };
>>
    Both ends of the result are finite. *)
Definition expandRange (r : bounds) (minBound maxBound step : Q) : Q * Q :=
  (orElse (lower r) (minBound - step), orElse (upper r) (maxBound + step)).

(** [Math.max(0, Math.min(src.upper, dst.upper) - Math.max(src.lower, dst.lower))]. *)
Definition overlapOf (src dst : Q * Q) : Q :=
  Qmax 0 (Qmin (snd src) (snd dst) - Qmax (fst src) (fst dst)).

(** [standardBins.find((b) => Number.isFinite(toNumber(b.lower)))?.lower ?? 0]. *)
Definition findMinBound (standardBins : list bounds) : Q :=
  match find (fun b => isFinite (lower b)) standardBins with
  | Some b => orElse (lower b) 0
  | None => 0
  end.

(** [standardBins.slice().reverse().find(... b.upper ...)?.upper ?? minBound + step]. *)
Definition findMaxBound (standardBins : list bounds) (minBound step : Q) : Q :=
  match find (fun b => isFinite (upper b)) (rev standardBins) with
  | Some b => orElse (upper b) (minBound + step)
  | None => minBound + step
  end.

(** The [standardBins.forEach((bin, idx) => ...)] of one source range:
<<
const dst = expandRange(bin, minBound, maxBound, step);
const overlap = Math.max(0, Math.min(src.upper, dst.upper) - Math.max(src.lower, dst.lower));
if (overlap > 0) totals[idx] += prob * (overlap / width);
>>
    [totals] has one slot per standard bin. *)
Fixpoint spread (p width : Q) (src : Q * Q) (minBound maxBound step : Q)
         (standardBins : list bounds) (totals : list Q) : list Q :=
  match standardBins, totals with
  | bin :: bins', t :: totals' =>
      let dst := expandRange bin minBound maxBound step in
      let overlap := overlapOf src dst in
      (if Qlt_bool 0 overlap then t + p * (overlap / width) else t)
        :: spread p width src minBound maxBound step bins' totals'
  | _, _ => totals
  end.

(** One turn of [for (const range of clean)]:
<<
const prob = toNumber(range.prob);
if (!Number.isFinite(prob) || prob <= 0) continue;
const src = expandRange(range, minBound, maxBound, step);
const width = src.upper - src.lower;
if (!(width > 0)) continue;
standardBins.forEach(...);
>> *)
Definition addRange (minBound maxBound step : Q) (standardBins : list bounds)
           (totals : list Q) (r : range) : list Q :=
  match prob r with
  | None => totals
  | Some p =>
      if Qle_bool p 0 then totals
      else
        let src := expandRange r minBound maxBound step in
        let width := snd src - fst src in
        if negb (Qlt_bool 0 width) then totals
        else spread p width src minBound maxBound step standardBins totals
  end.

(** What one turn of that loop adds to the slot of one standard bin. *)
Definition contribution (minBound maxBound step : Q) (r : range) (bin : bounds) : Q :=
  match prob r with
  | None => 0
  | Some p =>
      if Qle_bool p 0 then 0
      else
        let src := expandRange r minBound maxBound step in
        let width := snd src - fst src in
        if negb (Qlt_bool 0 width) then 0
        else
          let overlap := overlapOf src (expandRange bin minBound maxBound step) in
          if Qlt_bool 0 overlap then p * (overlap / width) else 0
  end.

(** The length of the intersection of two intervals [(lo, hi)]: the
    overlap the redistribution rule speaks of. *)
Definition overlapLength (a b : Q * Q) : Q :=
  let lo := Qmax (fst a) (fst b) in
  let hi := Qmin (snd a) (snd b) in
  if Qle_bool lo hi then hi - lo else 0.

(** [aggregateRangesToStandard]:
<<
const step = stepForMeta(meta);
const clean = normalizeDistribution(ranges);
if (!standardBins.length || !clean.length) return [];
const minBound = ...; const maxBound = ...;
const totals = standardBins.map(() => 0);
for (const range of clean) { ... }
const totalProb = totals.reduce((acc, v) => acc + v, 0);
if (totalProb > 0) { return totals.map((value) => value / totalProb); }
return totals;
>> *)
Definition aggregateRangesToStandard (ranges : list Raw.range)
           (standardBins : list bounds) (m : meta) : list Q :=
  let step := stepForMeta m in
  let clean := normalizeDistribution ranges in
  match standardBins, clean with
  | [], _ => []
  | _, [] => []
  | _, _ =>
      let minBound := findMinBound standardBins in
      let maxBound := findMaxBound standardBins minBound step in
      let totals :=
        fold_left (addRange minBound maxBound step standardBins) clean
                  (map (fun _ => 0) standardBins) in
      let totalProb := sumBy (fun v => v) totals in
      if Qlt_bool 0 totalProb then map (fun value => value / totalProb) totals
      else totals
  end.

(** [estimateBinWidth]:
<<
const widths = bins
  .map((b) => (Number.isFinite(b.lower) && Number.isFinite(b.upper) ? b.upper - b.lower : null))
  .filter((v) => Number.isFinite(v) && v > 0);
if (!widths.length) return 50000;
widths.sort((a, b) => a - b);
const mid = Math.floor(widths.length / 2);
return widths.length % 2 ? widths[mid] : (widths[mid - 1] + widths[mid]) / 2;
>> *)
Definition closedWidth (b : bounds) : option Q :=
  match lower b, upper b with
  | Some l, Some u => Some (u - l)
  | _, _ => None
  end.

Definition binWidths (bins : list bounds) : list Q :=
  filter (fun v => Qlt_bool 0 v) (finiteOnes (map closedWidth bins)).

Definition estimateBinWidth (bins : list bounds) : Q :=
  let widths := binWidths bins in
  match widths with
  | [] => 50000
  | _ =>
      let sorted := sortBy (fun a b => Fin (a - b)) widths in
      let mid := Nat.div (List.length sorted) 2 in
      if Nat.eqb (Nat.modulo (List.length sorted) 2) 0
      then (nth (mid - 1) sorted 0 + nth mid sorted 0) / 2
      else nth mid sorted 0
  end.

(** [midpointForBin]:
<<
const lower = toNumber(bin?.lower);
const upper = toNumber(bin?.upper);
if (Number.isFinite(lower) && Number.isFinite(upper)) return (lower + upper) / 2;
if (!Number.isFinite(lower) && Number.isFinite(upper)) return upper - fallbackWidth / 2;
if (Number.isFinite(lower) && !Number.isFinite(upper)) return lower + fallbackWidth / 2;
return 0;
>> *)
Definition midpointForBin (bin : bounds) (fallbackWidth : Q) : Q :=
  match lower bin, upper bin with
  | Some l, Some u => (l + u) / 2
  | None, Some u => u - fallbackWidth / 2
  | Some l, None => l + fallbackWidth / 2
  | None, None => 0
  end.

(** [combineDistributions]:
<<
const map = new Map();
const ingest = (sourceKey, ranges) => {
  for (const range of normalizeDistribution(ranges)) { ... }
};
ingest("kalshi", sources?.kalshi || []);
ingest("polymarket", sources?.polymarket || []);
...
>> *)
Definition ingest (sourceKey : venue) (ranges : list Raw.range) (m : list (bounds * cell))
  : list (bounds * cell) :=
  fold_left
    (fun m (range : range) =>
       ingestOne sourceKey m {| lower := lower range; upper := upper range |} (prob range))
    (normalizeDistribution ranges) m.

Definition combineDistributions (s : venueMap) : list entry :=
  let m := ingest Kalshi (venueRanges "kalshi" s) [] in
  let m := ingest Polymarket (venueRanges "polymarket" s) m in
  finishCombine m.

(** The [posterior] block of a snapshot, as read from JSON. *)
Module BinJson.
Record t : Type := mk {
  lower : value; upper : value; midpoint : value;
  mean : value; p10 : value; p90 : value
}.
End BinJson.

Module ExpectedJson.
Record t : Type := mk { mean : value; p10 : value; p90 : value }.
End ExpectedJson.

(** [{ kalshi, polymarket }]: the volume multipliers. *)
Module Weights.
Record t : Type := mk { kalshi : R; polymarket : R }.
End Weights.

Record posteriorJson : Type := mkPosterior {
  bins : list BinJson.t;
  expected : option ExpectedJson.t;
  volume_weights : option Weights.t      (* posterior.model?.volume_weights *)
}.

(** A snapshot.  [kalshi_volume] is [source_meta?.kalshi?.volume], and
    likewise for Polymarket. *)
Record snapshot : Type := mkSnapshot {
  as_of : option string;
  sources : venueMap;
  kalshi_volume : value;
  polymarket_volume : value;
  posterior : option posteriorJson
}.

(** [getPosterior]: [if (posterior?.bins?.length) return posterior; return null]. *)
Definition getPosterior (snap : snapshot) : option posteriorJson :=
  match posterior snap with
  | Some p => match bins p with [] => None | _ => Some p end
  | None => None
  end.

(** An element of [getPosteriorBins]'s result. *)
Module PBin.
Record t : Type := mk {
  lower : value; upper : value; midpoint : option Q;
  mean : option Q; p10 : option Q; p90 : option Q
}.
(** The bounds as [Number.isFinite] and [toNumber] see them. *)
Definition toBounds (b : t) : bounds :=
  mkBounds (toNumber (lower b)) (toNumber (upper b)).
End PBin.

(** [x ?? null] on a raw value, and a finite-or-null bound seen as a value. *)
Definition orNull (v : value) : value :=
  match v with
  | Undefined => Null
  | _ => v
  end.

Definition ofBound (n : option Q) : value :=
  match n with
  | Some q => Num (Fin q)
  | None => Null
  end.

(** [getPosteriorBins]:
<<
const posterior = getPosterior(snapshot);
if (posterior?.bins?.length) { return posterior.bins.map((bin) => ({ ... })); }
const combined = combineDistributions(snapshot?.sources || {});
const fallbackWidth = estimateBinWidth(bins);
return combined.map((entry) => ({
  lower: entry.lower ?? null, upper: entry.upper ?? null,
  midpoint: midpointForBin(entry, fallbackWidth),
  mean: toNumber(entry.combined), p10: null, p90: null }));
>> *)
Definition getPosteriorBins (snap : snapshot) (bins_ : list bounds) : list PBin.t :=
  match getPosterior snap with
  | Some p =>
      map (fun bin =>
             {| PBin.lower := orNull (BinJson.lower bin);
                PBin.upper := orNull (BinJson.upper bin);
                PBin.midpoint := toNumber (BinJson.midpoint bin);
                PBin.mean := toNumber (BinJson.mean bin);
                PBin.p10 := toNumber (BinJson.p10 bin);
                PBin.p90 := toNumber (BinJson.p90 bin) |})
          (bins p)
  | None =>
      let combined_ := combineDistributions (sources snap) in
      let fallbackWidth := estimateBinWidth bins_ in
      map (fun e : entry =>
             {| PBin.lower := ofBound (lower e);
                PBin.upper := ofBound (upper e);
                PBin.midpoint := Some (midpointForBin e fallbackWidth);
                PBin.mean := toNumber (Num (Fin (combined e)));
                PBin.p10 := None;
                PBin.p90 := None |})
          combined_
  end.

(** [expectedFromBins]:
<<
const width = estimateBinWidth(bins);
let total = 0;
bins.forEach((bin) => {
  const prob = toNumber(bin.mean);
  if (!Number.isFinite(prob)) return;
  total += prob * midpointForBin(bin, width);
});
return total;
>> *)
Definition expectedFromBins (pbins : list PBin.t) (m : meta) : Q :=
  let width := estimateBinWidth (map PBin.toBounds pbins) in
  fold_left
    (fun total bin =>
       match PBin.mean bin with
       | None => total
       | Some p => total + p * midpointForBin (PBin.toBounds bin) width
       end)
    pbins 0.

(** [expectedFromRanges]:
<<
const normalized = normalizeDistribution(ranges);
if (!normalized.length) return null;
const width = estimateBinWidth(bins);
let total = 0;
for (const range of normalized) { ... total += prob * midpointForBin(range, width); }
return total;
>> *)
Definition expectedFromRanges (ranges : list Raw.range) (bins_ : list bounds) : option Q :=
  let normalized := normalizeDistribution ranges in
  match normalized with
  | [] => None
  | _ =>
      let width := estimateBinWidth bins_ in
      Some (fold_left
              (fun total (range : range) =>
                 match prob range with
                 | None => total
                 | Some p => total + p * midpointForBin range width
                 end)
              normalized 0)
  end.

(** [Math.log1p] on a finite number, over the reals. *)
Definition log1p (v : Q) : R := ln (1 + Q2R v).

(** [computeVolumeWeights]:
<<
if (!Number.isFinite(kalshiVol) || !Number.isFinite(polymarketVol)) return null;
if (kalshiVol <= 0 || polymarketVol <= 0) return null;
const rawKalshi = Math.log1p(kalshiVol);
const rawPoly = Math.log1p(polymarketVol);
const mean = (rawKalshi + rawPoly) / 2;
if (!(mean > 0)) return null;
return { kalshi: clamp(rawKalshi / mean, 0.5, 3.0),
         polymarket: clamp(rawPoly / mean, 0.5, 3.0) };
>> *)
Definition computeVolumeWeights (kalshiVol polymarketVol : option Q) : option Weights.t :=
  match kalshiVol, polymarketVol with
  | Some k, Some p =>
      if Qle_bool k 0 || Qle_bool p 0 then None
      else
        let rawKalshi := log1p k in
        let rawPoly := log1p p in
        let mean := ((rawKalshi + rawPoly) / 2)%R in
        if Rlt_dec 0 mean
        then Some {| Weights.kalshi := clamp (rawKalshi / mean) (1 / 2) 3;
                     Weights.polymarket := clamp (rawPoly / mean) (1 / 2) 3 |}
        else None
  | _, _ => None
  end.

(** [getBlendWeightData]:
<<
if (!snapshot) return null;
const meta = snapshot?.source_meta || {};
const kalshiVol = toNumber(meta?.kalshi?.volume);
const polyVol = toNumber(meta?.polymarket?.volume);
const weights = snapshot?.posterior?.model?.volume_weights
                || computeVolumeWeights(kalshiVol, polyVol);
if (!weights) return null;
return { weights, kalshiVol, polyVol };
>> *)
Record blendWeightData : Type := mkBlend {
  weights : Weights.t;
  kalshiVol : option Q;
  polyVol : option Q
}.

Definition getBlendWeightData (snap : option snapshot) : option blendWeightData :=
  match snap with
  | None => None
  | Some snap =>
      let kalshiVol_ := toNumber (kalshi_volume snap) in
      let polyVol_ := toNumber (polymarket_volume snap) in
      let stored :=
        match posterior snap with
        | Some p => volume_weights p
        | None => None
        end in
      let weights_ :=
        match stored with
        | Some w => Some w
        | None => computeVolumeWeights kalshiVol_ polyVol_
        end in
      match weights_ with
      | None => None
      | Some w => Some {| weights := w; kalshiVol := kalshiVol_; polyVol := polyVol_ |}
      end
  end.




(** [arr.map(f).filter(x => x !== null)]-style pipelines: keep the
    elements on which [f] yields a value. *)
Fixpoint filterMap {A B : Type} (f : A -> option B) (xs : list A) : list B :=
  match xs with
  | [] => []
  | x :: xs' =>
      match f x with
      | Some y => y :: filterMap f xs'
      | None => filterMap f xs'
      end
  end.

(** A chart series: [{ points, bandLow, bandHigh }] of [{ x, y }] pairs. *)
Record series : Type := mkSeries {
  points : list (Z * Q);
  bandLow : list (Z * Q);
  bandHigh : list (Z * Q)
}.

(** [renderTable], up to the formatting of the cells:
<<
const baseBins = getBinsFromSources(snapshot?.sources || {});
const standardBins = buildStandardBins(baseBins, meta);
if (!standardBins.length) { ... "No data available." ...; return; }
const posteriorBins = getPosteriorBins(snapshot, baseBins);
const posteriorAgg = aggregateRangesToStandard(
  posteriorBins.map((bin) => ({ ...bin, prob: bin.mean })), standardBins, meta);
const kalshiAgg = aggregateRangesToStandard(snapshot?.sources?.kalshi || [], standardBins, meta);
const polyAgg = aggregateRangesToStandard(snapshot?.sources?.polymarket || [], standardBins, meta);
const rows = standardBins.map((bin, idx) => {
  const label = formatRangeLabel(bin, meta);
  const posteriorLabel = Number.isFinite(posteriorAgg[idx]) ? formatPct(posteriorAgg[idx]) : "--";
  const kalshi = Number.isFinite(kalshiAgg[idx]) ? formatPct(kalshiAgg[idx]) : "--";
  const polymarket = Number.isFinite(polyAgg[idx]) ? formatPct(polyAgg[idx]) : "--";
  return `<tr>...</tr>`;
});
const blendData = getBlendWeightData(snapshot);
... rows.push(weightRow);
>>
    A cell is [None] where the page prints ["--"].  The result is [None]
    for "No data available.", and otherwise the bin rows together with
    the data of the blend-weights row. *)
Definition withProb (bin : PBin.t) : Raw.range :=
  {| Raw.lower := PBin.lower bin; Raw.upper := PBin.upper bin;
     Raw.prob := ofBound (PBin.mean bin);
     Raw.volume := Undefined;
     Raw.midpoint := ofBound (PBin.midpoint bin) |}.

Module TableRow.
Record t : Type := mk {
  bin : bounds;
  posterior : option Q;
  kalshi : option Q;
  polymarket : option Q
}.
End TableRow.

Definition indexed {A : Type} (l : list A) : list (nat * A) :=
  combine (seq 0 (List.length l)) l.

Definition renderTable (snap : snapshot) (m : meta)
  : option (list TableRow.t * option blendWeightData) :=
  let baseBins := getBinsFromSources (sources snap) in
  let standardBins := buildStandardBins baseBins m in
  match standardBins with
  | [] => None
  | _ =>
      let posteriorBins := getPosteriorBins snap baseBins in
      let posteriorAgg :=
        aggregateRangesToStandard (map withProb posteriorBins) standardBins m in
      let kalshiAgg :=
        aggregateRangesToStandard (venueRanges "kalshi" (sources snap)) standardBins m in
      let polyAgg :=
        aggregateRangesToStandard (venueRanges "polymarket" (sources snap)) standardBins m in
      let rows :=
        map (fun item : nat * bounds =>
               let '(idx, bin) := item in
               {| TableRow.bin := bin;
                  TableRow.posterior := nth_error posteriorAgg idx;
                  TableRow.kalshi := nth_error kalshiAgg idx;
                  TableRow.polymarket := nth_error polyAgg idx |})
            (indexed standardBins) in
      Some (rows, getBlendWeightData (Some snap))
  end.

(** [getEventList]:
<<
const dataEvents = safeArray(state.data?.events);
const map = new Map(dataEvents.map((event) => [event.id, event]));
return DEFAULT_EVENTS.map((event) => map.get(event.id)
  || { id: event.id, name: event.label, format: event.format,
       decimals: event.decimals, snapshots: [] });
>>
    with the [Map] keyed by id as an association list. *)
Module Event.
Record t : Type := mk {
  id : string;
  name : option string;
  format : option string;
  decimals : value;
  snapshots : list snapshot
}.
End Event.

Module DefaultEvent.
Record t : Type := mk { id : string; label : string; format : string; decimals : Q }.
End DefaultEvent.

Definition DEFAULT_EVENTS : list DefaultEvent.t :=
  [ DefaultEvent.mk "nfp" "Nonfarm Payrolls (NFP)" "jobs" 0;
    DefaultEvent.mk "unemployment" "Unemployment Rate" "percent" 1;
    DefaultEvent.mk "cpi" "CPI Inflation" "percent" 1;
    DefaultEvent.mk "fed" "Fed Rate Decision" "percent" 2 ].

Fixpoint eventGet (key : string) (m : list (string * Event.t)) : option Event.t :=
  match m with
  | [] => None
  | (k, v) :: m' => if String.eqb k key then Some v else eventGet key m'
  end.

Fixpoint eventSet (key : string) (v : Event.t) (m : list (string * Event.t))
  : list (string * Event.t) :=
  match m with
  | [] => [(key, v)]
  | (k, v') :: m' =>
      if String.eqb k key then (k, v) :: m' else (k, v') :: eventSet key v m'
  end.

Definition placeholder (event : DefaultEvent.t) : Event.t :=
  {| Event.id := DefaultEvent.id event;
     Event.name := Some (DefaultEvent.label event);
     Event.format := Some (DefaultEvent.format event);
     Event.decimals := Num (Fin (DefaultEvent.decimals event));
     Event.snapshots := [] |}.

Definition getEventList (dataEvents : list Event.t) : list Event.t :=
  let map_ := fold_left (fun m event => eventSet (Event.id event) event m) dataEvents [] in
  map (fun event =>
         match eventGet (DefaultEvent.id event) map_ with
         | Some found => found
         | None => placeholder event
         end)
      DEFAULT_EVENTS.

(** The "top range" of [renderMetrics]:
<<
let topLabel = "--";
let topProb = null;
if (posteriorAgg.length) {
  let bestIdx = 0;
  let bestProb = -Infinity;
  posteriorAgg.forEach((prob, idx) => {
    if (Number.isFinite(prob) && prob > bestProb) { bestProb = prob; bestIdx = idx; }
  });
  if (standardBins[bestIdx] && Number.isFinite(bestProb)) {
    topLabel = formatRangeLabel(standardBins[bestIdx], meta);
    topProb = bestProb;
  }
}
>>
    The loop state is [(bestIdx, bestProb)]; the result is the bin that
    is labelled together with [topProb], or [None] for ["--"]. *)
Definition greaterThan (a : Q) (b : number) : bool :=
  match b with
  | Fin q => Qlt_bool q a
  | NegInfinity => true
  | PosInfinity => false
  | NaN => false
  end.

Fixpoint bestLoop (idx : nat) (posteriorAgg : list Q) (acc : nat * number) : nat * number :=
  match posteriorAgg with
  | [] => acc
  | prob_ :: rest =>
      bestLoop (S idx) rest
               (if greaterThan prob_ (snd acc) then (idx, Fin prob_) else acc)
  end.

Definition topRange (posteriorAgg : list Q) (standardBins : list bounds)
  : option (bounds * Q) :=
  match posteriorAgg with
  | [] => None
  | _ =>
      let '(bestIdx, bestProb) := bestLoop 0 posteriorAgg (0%nat, NegInfinity) in
      match nth_error standardBins bestIdx, bestProb with
      | Some bin, Fin p => Some (bin, p)
      | _, _ => None
      end
  end.

Section Timeline.

(** [new Date(value).getTime()] on a non-empty string: the epoch
    milliseconds, or [None] for an invalid date ([NaN]). *)
Variable Date_getTime : string -> option Z.

(** [parseDate(snap?.as_of)?.getTime()], with
<<
const parseDate = (value) => {
if (!value) return null;
const parsed = new Date(value);
return Number.isNaN(parsed.getTime()) ? null : parsed;
};
>> *)
Definition timestamp (snap : snapshot) : option Z :=
  match as_of snap with
  | None => None
  | Some s => if String.eqb s "" then None else Date_getTime s
  end.

(** [snapshots.map((snap) => ({ snap, ts: ... ?? -Infinity }))
              .filter((item) => Number.isFinite(item.ts))]:
    the snapshots with a timestamp, each paired with it. *)
Definition stamped (snapshots : list snapshot) : list (snapshot * Z) :=
  filterMap (fun snap =>
               match timestamp snap with
               | Some ts => Some (snap, ts)
               | None => None
               end) snapshots.

(** [pickLatestSnapshot]:
<<
const sorted = snapshots
.map(...).filter(...)
.sort((a, b) => b.ts - a.ts)
.map((item) => item.snap);
return sorted[0] || null;
>> *)
Definition pickLatestSnapshot (snapshots : list snapshot) : option snapshot :=
  let sorted :=
    map fst (sortBy (fun a b : snapshot * Z => Fin (inject_Z (snd b - snd a)))
                    (stamped snapshots)) in
  match sorted with
  | snap :: _ => Some snap
  | [] => None
  end.

(** The value, and the band ends, that [buildExpectationSeries] reads
    off one snapshot:
<<
const bins = getBinsFromSources(snap?.sources || {});
let value = null; let lo = null; let hi = null;
if (provider === "posterior") {
const posterior = getPosterior(snap);
if (posterior?.expected) {
  value = toNumber(posterior.expected.mean);
  lo = toNumber(posterior.expected.p10);
  hi = toNumber(posterior.expected.p90);
} else {
  const pbins = getPosteriorBins(snap, bins);
  value = expectedFromBins(pbins, meta);
}
} else if (provider === "kalshi") {
value = expectedFromRanges(snap?.sources?.kalshi || [], bins);
} else if (provider === "polymarket") {
value = expectedFromRanges(snap?.sources?.polymarket || [], bins);
}
>> *)
Definition readExpectation (snap : snapshot) (m : meta) (provider : string)
  : option Q * option Q * option Q :=
  let bins_ := getBinsFromSources (sources snap) in
  if String.eqb provider "posterior" then
    match getPosterior snap with
    | Some {| expected := Some e |} =>
        (toNumber (ExpectedJson.mean e),
         toNumber (ExpectedJson.p10 e),
         toNumber (ExpectedJson.p90 e))
    | _ =>
        let pbins := getPosteriorBins snap bins_ in
        (Some (expectedFromBins pbins m), None, None)
    end
  else if String.eqb provider "kalshi" then
    (expectedFromRanges (venueRanges "kalshi" (sources snap)) bins_, None, None)
  else if String.eqb provider "polymarket" then
    (expectedFromRanges (venueRanges "polymarket" (sources snap)) bins_, None, None)
  else (None, None, None).

(** [buildExpectationSeries]:
<<
const sorted = snapshots.map(...).filter(...).sort((a, b) => a.ts - b.ts);
if (!sorted.length) return { points: [], bandLow: [], bandHigh: [] };
const latest = sorted[sorted.length - 1].ts;
const cutoff = latest - lookbackDays * 24 * 60 * 60 * 1000;
sorted.forEach(({ snap, ts }) => {
if (ts < cutoff) return;
...
if (!Number.isFinite(value)) return;
points.push({ x: ts, y: value });
if (Number.isFinite(lo) && Number.isFinite(hi)) {
  bandLow.push({ x: ts, y: lo });
  bandHigh.push({ x: ts, y: hi });
}
});
return { points, bandLow, bandHigh };
>>
    Each snapshot that passes yields its point and, when both band ends
    are finite, its band. *)
Definition seriesRow (m : meta) (provider : string) (cutoff : Q) (item : snapshot * Z)
  : option (Z * Q * option (Q * Q)) :=
  let '(snap, ts) := item in
  if Qlt_bool (inject_Z ts) cutoff then None
  else
    match readExpectation snap m provider with
    | (Some value, Some lo, Some hi) => Some (ts, value, Some (lo, hi))
    | (Some value, _, _) => Some (ts, value, None)
    | (None, _, _) => None
    end.

Definition bandOf (pick : Q * Q -> Q) (row : Z * Q * option (Q * Q)) : option (Z * Q) :=
  match row with
  | (ts, _, Some band) => Some (ts, pick band)
  | (_, _, None) => None
  end.

Definition buildExpectationSeries (snapshots : list snapshot) (m : meta)
           (provider : string) (lookbackDays : Q) : series :=
  let sorted :=
    sortBy (fun a b : snapshot * Z => Fin (inject_Z (snd a - snd b)))
           (stamped snapshots) in
  match sorted with
  | [] => {| points := []; bandLow := []; bandHigh := [] |}
  | first :: _ =>
      let latest := snd (last sorted first) in
      let cutoff := inject_Z latest - lookbackDays * 24 * 60 * 60 * 1000 in
      let rows := filterMap (seriesRow m provider cutoff) sorted in
      {| points := map fst rows;
         bandLow := filterMap (bandOf fst) rows;
         bandHigh := filterMap (bandOf snd) rows |}
  end.

(** [buildUncertaintySeries]:
<<
if (!band || band.low !== 0.1 || band.high !== 0.9) return [];
const sorted = snapshots.map(...).filter(...).sort((a, b) => a.ts - b.ts);
if (!sorted.length) return [];
const latest = sorted[sorted.length - 1].ts;
const cutoff = latest - lookbackDays * 24 * 60 * 60 * 1000;
const points = [];
sorted.forEach(({ snap, ts }) => {
  if (ts < cutoff) return;
  const expected = snap?.posterior?.expected;
  const p10 = toNumber(expected?.p10);
  const p90 = toNumber(expected?.p90);
  if (!Number.isFinite(p10) || !Number.isFinite(p90)) return;
  const width = p90 - p10;
  if (!Number.isFinite(width)) return;
  points.push({ x: ts, y: width });
});
return points;
>>
    [band] is [{ low, high }] or absent. *)
Definition uncertaintyRow (cutoff : Q) (item : snapshot * Z) : option (Z * Q) :=
  let '(snap, ts) := item in
  if Qlt_bool (inject_Z ts) cutoff then None
  else
    match posterior snap with
    | Some {| expected := Some e |} =>
        match toNumber (ExpectedJson.p10 e), toNumber (ExpectedJson.p90 e) with
        | Some p10_, Some p90_ => Some (ts, p90_ - p10_)
        | _, _ => None
        end
    | _ => None
    end.

Definition buildUncertaintySeries (snapshots : list snapshot) (lookbackDays : Q)
           (band : option (Q * Q)) : list (Z * Q) :=
  match band with
  | None => []
  | Some (low, high) =>
      if negb (Qeq_bool low 0.1) || negb (Qeq_bool high 0.9) then []
      else
        let sorted :=
          sortBy (fun a b : snapshot * Z => Fin (inject_Z (snd a - snd b)))
                 (stamped snapshots) in
        match sorted with
        | [] => []
        | first :: _ =>
            let latest := snd (last sorted first) in
            let cutoff := inject_Z latest - lookbackDays * 24 * 60 * 60 * 1000 in
            filterMap (uncertaintyRow cutoff) sorted
        end
  end.

End Timeline.

End Papers.

(** ** js/papers.js (the source pills of the paper feed) *)

Module Feed.

(** [state.activeSources] is a [Set] of source ids: a duplicate-free list
    in insertion order, with [has], [delete], [add] and [size]. *)
Definition has (id : string) (s : list string) : bool := existsb (String.eqb id) s.

Definition delete (id : string) (s : list string) : list string :=
  filter (fun x => negb (String.eqb id x)) s.

Definition add (id : string) (s : list string) : list string :=
  if has id s then s else s ++ [id].

Definition size (s : list string) : nat := List.length s.

(** The click handler that [renderSourceFilters] installs on the pill of
    [source.id]:
<<
if (state.activeSources.has(source.id) && state.activeSources.size === 1) { return; }
if (state.activeSources.has(source.id)) {
  state.activeSources.delete(source.id);
} else {
  state.activeSources.add(source.id);
}
>> *)
Definition click (id : string) (activeSources : list string) : list string :=
  if has id activeSources && Nat.eqb (size activeSources) 1 then activeSources
  else if has id activeSources then delete id activeSources
  else add id activeSources.

Definition clicks (ids : list string) (activeSources : list string) : list string :=
  fold_left (fun s id => click id s) ids activeSources.

End Feed.

(** ** js/priors.js (the combined-distribution page) *)

Module Priors.

(** An element of this page's [normalizeDistribution] result. *)
Record range : Type := mkRange {
  bnd :> bounds;
  prob : option Q;
  volume : option Q;
  midpoint : option Q
}.

(** [normalizeProb], as in js/papers.js. *)
Definition normalizeProb (v : value) : option Q :=
  let n := toNumber v in
  match n with
  | None => None
  | Some n => Some (if Qlt_bool (15 # 10) n then n / 100 else n)
  end.

(** [normalizeDistribution]:
<<
const cleaned = safeArray(ranges)
  .map((r) => ({ lower: toNumber(r?.lower), upper: toNumber(r?.upper),
                 prob: normalizeProb(r?.prob), volume: toNumber(r?.volume),
                 midpoint: toNumber(r?.midpoint) }))
  .filter((r) => r.prob !== null);
const total = cleaned.reduce((acc, r) => acc + (r.prob ?? 0), 0);
if (total > 0) { cleaned.forEach((r) => { r.prob = (r.prob ?? 0) / total; }); }
return cleaned;
>> *)
Definition cleanRange (r : Raw.range) : range :=
  {| bnd := {| lower := toNumber (Raw.lower r); upper := toNumber (Raw.upper r) |};
     prob := normalizeProb (Raw.prob r);
     volume := toNumber (Raw.volume r);
     midpoint := toNumber (Raw.midpoint r) |}.

Definition hasProb (r : range) : bool := isFinite (prob r).

Definition rescale (total : Q) (r : range) : range :=
  {| bnd := bnd r; prob := Some (orElse (prob r) 0 / total);
     volume := volume r; midpoint := midpoint r |}.

Definition normalizeDistribution (ranges : list Raw.range) : list range :=
  let cleaned := filter hasProb (map cleanRange ranges) in
  let total := sumBy (fun r => orElse (prob r) 0) cleaned in
  if Qlt_bool 0 total then map (rescale total) cleaned else cleaned.

(** [combineDistributions(kalshi, polymarket)]: as in js/papers.js, but
    [ingest] walks the already normalized lists. *)
Definition ingest (source : venue) (ranges : list range) (m : list (bounds * cell))
  : list (bounds * cell) :=
  fold_left
    (fun m (range : range) =>
       ingestOne source m {| lower := lower range; upper := upper range |} (prob range))
    ranges m.

Definition combineDistributions (kalshi_ polymarket_ : list range) : list entry :=
  let m := ingest Kalshi kalshi_ [] in
  let m := ingest Polymarket polymarket_ m in
  finishCombine m.

(** [buildCombinedSnapshot]:
<<
const sources = snapshot?.sources || snapshot || {};
const kalshi = normalizeDistribution(sources?.kalshi);
const polymarket = normalizeDistribution(sources?.polymarket);
const combined = combineDistributions(kalshi, polymarket);
return { kalshi, polymarket, combined };
>> *)
Record combinedSnapshot : Type := mkCombined {
  cs_kalshi : list range;
  cs_polymarket : list range;
  cs_combined : list entry
}.

Definition buildCombinedSnapshot (snap : Papers.snapshot) : combinedSnapshot :=
  let sources_ := Papers.sources snap in
  let kalshi_ := normalizeDistribution (Papers.venueRanges "kalshi" sources_) in
  let polymarket_ := normalizeDistribution (Papers.venueRanges "polymarket" sources_) in
  {| cs_kalshi := kalshi_;
     cs_polymarket := polymarket_;
     cs_combined := combineDistributions kalshi_ polymarket_ |}.

(** [HISTORY_PRESETS] (the colours left out). *)
Module Preset.
Record t : Type := mk { key : string; label : string; days : Z }.
End Preset.

Definition HISTORY_PRESETS : list Preset.t :=
  [ Preset.mk "4w" "4 weeks ago" 28;
    Preset.mk "2w" "2 weeks ago" 14;
    Preset.mk "1w" "1 week ago" 7;
    Preset.mk "current" "Current" 0 ].

(** What [renderEvent] puts on the page. *)
Inductive view : Type :=
| NoSnapshots
    (* setStatus(`No snapshots available for ...`, true); renderMetrics(null, meta);
       renderTable([], meta); renderBarChart([], []); renderEvolutionChart([], []) *)
| NoBracketMarkets
    (* setStatus(`No bracket markets available for ...`, true); the same empty renders *)
| Showing (currentRanges : list entry).
    (* renderMetrics(computeStats(currentRanges), meta); renderTable(currentRanges, meta);
       renderCharts(currentRanges, history, meta); setStatus(..., false) *)

Section Timeline.

Variable Date_getTime : string -> option Z.

(** [pickLatestSnapshot]:
<<
const sorted = snapshots
.map((snap) => ({ snap, ts: parseDate(snap?.as_of)?.getTime() ?? -Infinity }))
.filter((item) => Number.isFinite(item.ts))
.sort((a, b) => a.ts - b.ts);
return sorted.length ? sorted[sorted.length - 1].snap : null;
>> *)
Definition pickLatestSnapshot (snapshots : list Papers.snapshot) : option Papers.snapshot :=
  let sorted :=
    sortBy (fun a b : Papers.snapshot * Z => Fin (inject_Z (snd a - snd b)))
           (Papers.stamped Date_getTime snapshots) in
  match sorted with
  | [] => None
  | first :: _ => Some (fst (last sorted first))
  end.

(** [renderEvent], up to what is handed to the renderers:
<<
const currentSnapshot = pickLatestSnapshot(snapshots);
if (!currentSnapshot) { setStatus(..., true); ...; return; }
const combined = buildCombinedSnapshot(currentSnapshot);
if (!combined.kalshi.length && !combined.polymarket.length) {
setStatus(`No bracket markets available for ${meta.label}.`, true); ...; return;
}
const currentRanges = combined.combined;
...
>> *)
Definition renderEvent (snapshots : list Papers.snapshot) : view :=
  match pickLatestSnapshot snapshots with
  | None => NoSnapshots
  | Some currentSnapshot =>
      let combined_ := buildCombinedSnapshot currentSnapshot in
      match cs_kalshi combined_, cs_polymarket combined_ with
      | [], [] => NoBracketMarkets
      | _, _ => Showing (cs_combined combined_)
      end
  end.

(** [pickClosestSnapshot]:
<<
let best = null;
let bestDiff = Infinity;
for (const snap of snapshots) {
  const ts = parseDate(snap?.as_of)?.getTime();
  if (!Number.isFinite(ts)) continue;
  const diff = Math.abs(ts - targetTs);
  if (diff < bestDiff) { best = snap; bestDiff = diff; }
}
return best;
>>
    The loop state is [(best, bestDiff)]. *)
Definition lessThan (a : Q) (b : number) : bool :=
  match b with
  | Fin q => Qlt_bool a q
  | PosInfinity => true
  | NegInfinity => false
  | NaN => false
  end.

Definition closestStep (targetTs : Q) (acc : option Papers.snapshot * number)
           (snap : Papers.snapshot) : option Papers.snapshot * number :=
  match Papers.timestamp Date_getTime snap with
  | None => acc
  | Some ts =>
      let diff := Qabs (inject_Z ts - targetTs) in
      if lessThan diff (snd acc) then (Some snap, Fin diff) else acc
  end.

Definition pickClosestSnapshot (snapshots : list Papers.snapshot) (targetTs : Q)
  : option Papers.snapshot :=
  fst (fold_left (closestStep targetTs) snapshots (None, PosInfinity)).

(** The [history] that [renderEvent] hands to [renderCharts]:
<<
const currentDate = parseDate(currentSnapshot?.as_of);
const history = [];
if (currentDate) {
  for (const preset of HISTORY_PRESETS) {
    const targetTs = currentDate.getTime() - preset.days * 24 * 60 * 60 * 1000;
    const snap = preset.key === "current" ? currentSnapshot
                                          : pickClosestSnapshot(snapshots, targetTs);
    if (!snap) continue;
    const snapshotCombined = buildCombinedSnapshot(snap).combined;
    history.push({ ...preset, ranges: snapshotCombined });
  }
}
>> *)
Definition historyRow (snapshots : list Papers.snapshot) (currentSnapshot : Papers.snapshot)
           (now : Z) (p : Preset.t) : option (Preset.t * list entry) :=
  let targetTs := inject_Z now - inject_Z (Preset.days p) * 24 * 60 * 60 * 1000 in
  let snap := if String.eqb (Preset.key p) "current" then Some currentSnapshot
              else pickClosestSnapshot snapshots targetTs in
  match snap with
  | None => None
  | Some s => Some (p, cs_combined (buildCombinedSnapshot s))
  end.

Definition history (snapshots : list Papers.snapshot) (currentSnapshot : Papers.snapshot)
  : list (Preset.t * list entry) :=
  match Papers.timestamp Date_getTime currentSnapshot with
  | None => []
  | Some now => Papers.filterMap (historyRow snapshots currentSnapshot now) HISTORY_PRESETS
  end.

(** [renderEvent] as far as the charts: the arguments of its call
    [renderCharts(currentRanges, history, meta)], and [None] when it
    returns before that call (the two error exits above, which draw empty
    charts). *)
Definition renderedCharts (snapshots : list Papers.snapshot)
  : option (list entry * list (Preset.t * list entry)) :=
  match pickLatestSnapshot snapshots with
  | None => None
  | Some currentSnapshot =>
      let combined_ := buildCombinedSnapshot currentSnapshot in
      match cs_kalshi combined_, cs_polymarket combined_ with
      | [], [] => None
      | _, _ => Some (cs_combined combined_, history snapshots currentSnapshot)
      end
  end.

End Timeline.

(** [computeDefaultWidth]:
<<
const widths = ranges
  .map((r) => {
    const lower = toNumber(r.lower);
    const upper = toNumber(r.upper);
    if (!Number.isFinite(lower) || !Number.isFinite(upper)) return null;
    const w = upper - lower;
    return Number.isFinite(w) && w > 0 ? w : null;
  })
  .filter((v) => Number.isFinite(v))
  .sort((a, b) => a - b);
if (!widths.length) return 1;
return widths[Math.floor(widths.length / 2)];
>> *)
Definition positiveWidth (r : bounds) : option Q :=
  match lower r, upper r with
  | Some l, Some u => let w := u - l in if Qlt_bool 0 w then Some w else None
  | _, _ => None
  end.

Definition computeDefaultWidth (ranges : list entry) : Q :=
  let widths :=
    sortBy (fun a b => Fin (a - b))
           (Papers.finiteOnes (map (fun r : entry => positiveWidth r) ranges)) in
  match widths with
  | [] => 1
  | _ => nth (Nat.div (List.length widths) 2) widths 0
  end.

(** [midpointForRange]:
<<
const lower = toNumber(range.lower);
const upper = toNumber(range.upper);
if (Number.isFinite(lower) && Number.isFinite(upper)) return (lower + upper) / 2;
if (Number.isFinite(range.midpoint)) return range.midpoint;
if (Number.isFinite(lower) && Number.isFinite(defaultWidth)) return lower + defaultWidth / 2;
if (Number.isFinite(upper) && Number.isFinite(defaultWidth)) return upper - defaultWidth / 2;
return null;
>>
    [midpoint_] is [range.midpoint] when it is a finite number. *)
Definition midpointForRange (r : bounds) (midpoint_ : option Q) (defaultWidth : Q)
  : option Q :=
  match lower r, upper r with
  | Some l, Some u => Some ((l + u) / 2)
  | _, _ =>
      match midpoint_ with
      | Some m => Some m
      | None =>
          match lower r, upper r with
          | Some l, _ => Some (l + defaultWidth / 2)
          | None, Some u => Some (u - defaultWidth / 2)
          | None, None => None
          end
      end
  end.

(** [computeStats], on the entries of [combineDistributions]: each has a
    finite [combined] and no [midpoint] field, so [cleaned] is [ranges].
<<
const cleaned = safeArray(ranges).filter((r) => Number.isFinite(r.combined));
const total = cleaned.reduce((acc, r) => acc + (r.combined ?? 0), 0);
if (!cleaned.length || total <= 0) return null;
const width = computeDefaultWidth(cleaned);
const withMid = cleaned
  .map((r) => ({ ...r, midpoint: midpointForRange(r, width) }))
  .filter((r) => Number.isFinite(r.midpoint));
if (!withMid.length) return null;
const mean = withMid.reduce((acc, r) => acc + r.midpoint * r.combined, 0);
const variance = withMid.reduce((acc, r) => acc + ((r.midpoint - mean) ** 2) * r.combined, 0);
const std = Math.sqrt(Math.max(variance, 0));
let cumulative = 0;
let median = null;
for (const r of cleaned) {
  cumulative += r.combined ?? 0;
  if (cumulative >= 0.5) { median = r; break; }
}
const mode = cleaned.slice().sort((a, b) => (b.combined ?? 0) - (a.combined ?? 0))[0] || null;
return { mean, std, median, mode };
>> *)
Record stats : Type := mkStats {
  mean : Q;
  std : R;
  median : option entry;
  mode : option entry
}.

Fixpoint medianLoop (cumulative : Q) (cleaned : list entry) : option entry :=
  match cleaned with
  | [] => None
  | r :: rest =>
      let cumulative' := cumulative + combined r in
      if Qle_bool 0.5 cumulative' then Some r else medianLoop cumulative' rest
  end.

Definition withMidpoint (width : Q) (r : entry) : option (entry * Q) :=
  match midpointForRange r None width with
  | Some m => Some (r, m)
  | None => None
  end.

Definition computeStats (ranges : list entry) : option stats :=
  let cleaned := ranges in
  let total := sumBy combined cleaned in
  match cleaned with
  | [] => None
  | _ =>
      if Qle_bool total 0 then None
      else
        let width := computeDefaultWidth cleaned in
        let withMid := Papers.filterMap (withMidpoint width) cleaned in
        match withMid with
        | [] => None
        | _ =>
            let mean_ := sumBy (fun rm => snd rm * combined (fst rm)) withMid in
            let variance :=
              sumBy (fun rm => (snd rm - mean_) ^ 2 * combined (fst rm)) withMid in
            Some {| mean := mean_;
                    std := sqrt (Rmax (Q2R variance) 0);
                    median := medianLoop 0 cleaned;
                    mode := hd_error (sortBy (fun a b : entry =>
                                                Fin (combined b - combined a)) cleaned) |}
        end
  end.

End Priors.

(** ** Vocabulary of the statements *)

(** The number of elements of [ws] that satisfy [f]. *)
Definition countIf (f : Q -> bool) (ws : list Q) : nat := List.length (filter f ws).

(** [m] is a median of [ws]: at least half of the elements are at most [m]
    and at least half are at least [m]. *)
Definition isMedian (m : Q) (ws : list Q) : Prop :=
  (List.length ws <= 2 * countIf (fun w => Qle_bool w m) ws)%nat
  /\ (List.length ws <= 2 * countIf (fun w => Qle_bool m w) ws)%nat.

(** [x] stands at position [k] (counted from 0) once [ws] is put in
    ascending order: at most [k] elements are below [x], and more than [k]
    are at most [x]. *)
Definition atRank (k : nat) (x : Q) (ws : list Q) : Prop :=
  (countIf (fun w => Qlt_bool w x) ws <= k)%nat
  /\ (k < countIf (fun w => Qle_bool w x) ws)%nat.

(** [m] is the median of [ws]: the middle element of the ascending order
    when the count is odd, the mean of the two middle elements when it is
    even. *)
Definition isTheMedian (m : Q) (ws : list Q) : Prop :=
  (exists k x, List.length ws = (2 * k + 1)%nat
               /\ In x ws /\ atRank k x ws /\ m == x)
  \/ (exists k x y, List.length ws = (2 * k + 2)%nat
                    /\ In x ws /\ In y ws
                    /\ atRank k x ws /\ atRank (k + 1) y ws
                    /\ m == (x + y) / 2).

(** The widths of the bins that are closed on both sides. *)
Definition closedWidths (bins : list bounds) : list Q :=
  flat_map (fun b : bounds =>
              match lower b, upper b with
              | Some l, Some u => [u - l]
              | _, _ => []
              end) bins.

(** The same, for the closed bins with [lower < upper] only. *)
Definition positiveClosedWidths (bins : list bounds) : list Q :=
  flat_map (fun b : bounds =>
              match lower b, upper b with
              | Some l, Some u => if Qlt_bool l u then [u - l] else []
              | _, _ => []
              end) bins.


(** The stretch of the number line a bracket covers, an open end reaching
    to [below] or [above]. *)
Definition extent (below above : Q) (b : bounds) : Q * Q :=
  (match lower b with Some l => l | None => below end,
   match upper b with Some u => u | None => above end).

(** The mass a range of probability [p], spread evenly over [src], puts
    on [dst]: [p] times the length of the overlap over the length of
    [src].  A range without positive probability or positive length puts
    nothing anywhere. *)
Definition uniformShare (p : option Q) (src dst : Q * Q) : Q :=
  match p with
  | Some p =>
      if Qlt_bool 0 p && Qlt_bool 0 (snd src - fst src)
      then p * (Papers.overlapLength src dst / (snd src - fst src))
      else 0
  | None => 0
  end.

(** Intervals [(lo, hi)] listed in ascending order, each of positive
    length, no two overlapping: what the expanded bins of a grid form. *)
Definition isPartition (intervals : list (Q * Q)) : Prop :=
  Forall (fun i => fst i < snd i) intervals
  /\ StronglySorted (fun a b => snd a <= fst b) intervals.

(** A venue bracket that sits exactly on the bin [b], with probability [p]. *)
Definition alignedRange (item : bounds * Q) : Raw.range :=
  {| Raw.lower := Papers.ofBound (lower (fst item));
     Raw.upper := Papers.ofBound (upper (fst item));
     Raw.prob := Num (Fin (snd item));
     Raw.volume := Undefined;
     Raw.midpoint := Undefined |}.

(** The intervals [(lo, hi)] of a list lie end to end from [from] up to
    [upto]: each starts where the one before stops. *)
Fixpoint isChain (from : Q) (intervals : list (Q * Q)) (upto : Q) : Prop :=
  match intervals with
  | [] => from == upto
  | i :: rest => fst i == from /\ fst i <= snd i /\ isChain (snd i) rest upto
  end.

(** Order of lower bounds, an open lower end coming first. *)
Definition lowerLe (a b : option Q) : Prop :=
  match a, b with
  | None, _ => True
  | Some _, None => False
  | Some x, Some y => x <= y
  end.

(** No two brackets of the list have the same key. *)
Definition distinctKeys (ks : list bounds) : Prop :=
  ForallOrdPairs (fun a b => sameKey a b = false) ks.

(** A combined distribution is normalized: its [combined] values sum to 1
    when the [combinedRaw] values have a positive total, and are all 0
    otherwise. *)
Definition combinedNormalized (out : list entry) : Prop :=
  (0 < sumBy (fun e => orElse (combinedRaw e) 0) out -> sumBy combined out == 1)
  /\ (sumBy (fun e => orElse (combinedRaw e) 0) out <= 0 ->
      forall e, In e out -> combined e = 0).

(** The distance of a snapshot's timestamp from [targetTs], when it has a
    timestamp. *)
Definition distanceTo (getTime : string -> option Z) (targetTs : Q) (s : Papers.snapshot)
  : option Q :=
  match Papers.timestamp getTime s with
  | Some ts => Some (Qabs (inject_Z ts - targetTs))
  | None => None
  end.

(** [best] is the first snapshot of the list at the least distance from
    [targetTs]: the dated snapshots before it are strictly farther, the
    ones after it at least as far. *)
Definition isClosest (getTime : string -> option Z) (targetTs : Q)
           (snapshots : list Papers.snapshot) (best : Papers.snapshot) : Prop :=
  exists before after d,
    snapshots = before ++ best :: after
    /\ distanceTo getTime targetTs best = Some d
    /\ (forall s e, In s before -> distanceTo getTime targetTs s = Some e -> d < e)
    /\ (forall s e, In s after -> distanceTo getTime targetTs s = Some e -> d <= e).

(** A column of the table is blank in every row when the ranges behind it
    have no finite probability, and holds a non-negative share in every
    row otherwise. *)
Definition blankOrFilled (cells : list (option Q)) (ranges : list Raw.range) : Prop :=
  (Papers.normalizeDistribution ranges = [] /\ forall c, In c cells -> c = None)
  \/ (Papers.normalizeDistribution ranges <> []
      /\ forall c, In c cells -> exists p, c = Some p /\ 0 <= p).

(** What a venue quotes for the bracket [k]: the probability of the last
    of its cleaned ranges with that bracket, or null when it has none. *)
Definition quoteFor (k : bounds) (ranges : list Papers.range) : option Q :=
  fold_left (fun acc (r : Papers.range) => if sameKey (Papers.bnd r) k then Papers.prob r else acc)
            ranges None.

(** The field of a cell that belongs to a venue. *)
Definition quoteOf (v : venue) (c : cell) : option Q :=
  match v with
  | Kalshi => kalshi c
  | Polymarket => polymarket c
  end.

(** ** Sample data *)

Module Sample.
Import Papers.

Definition closed (l u : Q) : bounds := {| lower := Some l; upper := Some u |}.
Definition above (l : Q) : bounds := {| lower := Some l; upper := None |}.

Definition bracket (l u p : value) : Raw.range :=
  {| Raw.lower := l; Raw.upper := u; Raw.prob := p;
     Raw.volume := Undefined; Raw.midpoint := Undefined |}.

Definition num (q : Q) : value := Num (Fin q).

Definition jobs : meta := {| format := "jobs" |}.

(** One venue quoting [0, 50000) at 0.3 and [50000, oo) at 0.7. *)
Definition quotes : list Raw.range :=
  [bracket (num 0) (num 50000) (num (3 # 10)); bracket (num 50000) Null (num (7 # 10))].

(** The grid built from those brackets with the 25000 step:
    (-oo, 0], [0, 25000], [25000, 50000], [50000, +oo). *)
Definition grid : list bounds :=
  buildStandardBins [closed 0 50000; above 50000] jobs.

(** Bins with closed widths 10000, 20000, 30000 and an open top. *)
Definition unevenBins : list bounds :=
  [closed 0 10000; closed 10000 30000; closed 30000 60000; above 60000].

(** A single venue reporting 0.4 and 0.6 on two bins, no posterior. *)
Definition loneVenue : snapshot :=
  {| as_of := Some "2026-01-09T13:30:00Z"%string;
     sources := [("kalshi"%string,
                  [bracket (num 0) (num 50000) (num (4 # 10));
                   bracket (num 50000) Null (num (6 # 10))])];
     kalshi_volume := Undefined;
     polymarket_volume := Undefined;
     posterior := None |}.

(** A probability vector sitting on [grid]. *)
Definition onGrid : list (bounds * Q) :=
  combine grid [1 # 10; 2 # 10; 3 # 10; 4 # 10].

(** What [new Date(s).getTime()] gives on the strings used below. *)
Definition clock (s : string) : option Z :=
  if String.eqb s "2026-01-08T13:30:00Z" then Some 1767879000000%Z
  else if String.eqb s "2026-01-09T13:30:00Z" then Some 1767965400000%Z
  else None.

(** A snapshot in which no bracket has a finite probability. *)
Definition emptyHanded : snapshot :=
  {| as_of := Some "2026-01-09T13:30:00Z"%string;
     sources := [("kalshi"%string, [bracket (num 0) (num 50000) Null]);
                 ("polymarket"%string, [bracket (num 0) Null (Num NaN)])];
     kalshi_volume := Undefined;
     polymarket_volume := Undefined;
     posterior := None |}.

Definition earlier : snapshot :=
  {| as_of := Some "2026-01-08T13:30:00Z"%string;
     sources := [("kalshi"%string, quotes)];
     kalshi_volume := Undefined;
     polymarket_volume := Undefined;
     posterior := None |}.

Definition undated : snapshot :=
  {| as_of := Some "soon"%string;
     sources := [("kalshi"%string, quotes)];
     kalshi_volume := Undefined;
     polymarket_volume := Undefined;
     posterior := None |}.


Definition below (u : Q) : bounds := {| lower := None; upper := Some u |}.

(** Closed bins of widths 10, 0 and 30. *)
Definition degenerateBins : list bounds :=
  [closed 0 10; closed 5 5; closed 20 50].

(** A venue quoting only the two tails, below 0 and above 100000; the
    grid built from them; and a probability vector sitting on that grid. *)
Definition twoTails : list bounds := [below 0; above 100000].

Definition tailGrid : list bounds := buildStandardBins twoTails jobs.

Definition onTails : list (bounds * Q) := combine tailGrid [1 # 5; 4 # 5].

(** A lone venue quoting the same bracket twice, no posterior. *)
Definition twiceQuoted : snapshot :=
  {| as_of := Some "2026-01-09T13:30:00Z"%string;
     sources := [("kalshi"%string,
                  [bracket (num 0) (num 50000) (num (3 # 10));
                   bracket (num 0) (num 50000) (num (7 # 10))])];
     kalshi_volume := Undefined;
     polymarket_volume := Undefined;
     posterior := None |}.

(** A dated snapshot in which no venue quotes anything. *)
Definition noQuotes : snapshot :=
  {| as_of := Some "2026-01-09T13:30:00Z"%string;
     sources := [];
     kalshi_volume := Undefined;
     polymarket_volume := Undefined;
     posterior := None |}.

End Sample.

(* ================================================================== *)
(** * Part II: properties *)
(* ================================================================== *)

Lemma Qlt_bool_iff (x y : Q) : Qlt_bool x y = true <-> x < y.
Proof.
  unfold Qlt_bool. rewrite negb_true_iff.
  split; intro H.
  - apply Qnot_le_lt. intro Hle. apply Qle_bool_iff in Hle. congruence.
  - destruct (Qle_bool y x) eqn:E; [|reflexivity].
    apply Qle_bool_iff in E. exfalso. lra.
Qed.

Lemma Qlt_bool_false_iff (x y : Q) : Qlt_bool x y = false <-> y <= x.
Proof.
  unfold Qlt_bool. rewrite negb_false_iff. apply Qle_bool_iff.
Qed.

(** ** Sums *)

Lemma fold_left_over_map {A B C : Type} (f : C -> B -> C) (g : A -> B) (xs : list A) (c : C) :
  fold_left f (map g xs) c = fold_left (fun acc x => f acc (g x)) xs c.
Proof.
  revert c. induction xs as [|x xs IH]; intro c; simpl; [reflexivity | apply IH].
Qed.

Lemma fold_add_shift {A : Type} (f : A -> Q) (xs : list A) (a : Q) :
  fold_left (fun acc x => acc + f x) xs a == a + sumBy f xs.
Proof.
  unfold sumBy. revert a.
  induction xs as [|x xs IH]; intro a; simpl.
  - lra.
  - rewrite (IH (a + f x)), (IH (0 + f x)). lra.
Qed.

Lemma sumBy_nil {A : Type} (f : A -> Q) : sumBy f [] == 0.
Proof. reflexivity. Qed.

Lemma sumBy_cons {A : Type} (f : A -> Q) (x : A) (xs : list A) :
  sumBy f (x :: xs) == f x + sumBy f xs.
Proof.
  unfold sumBy at 1. simpl. rewrite fold_add_shift. lra.
Qed.

Lemma sumBy_app {A : Type} (f : A -> Q) (xs ys : list A) :
  sumBy f (xs ++ ys) == sumBy f xs + sumBy f ys.
Proof.
  induction xs as [|x xs IH]; simpl.
  - rewrite sumBy_nil. lra.
  - rewrite !sumBy_cons, IH. lra.
Qed.

Lemma sumBy_map {A B : Type} (g : A -> B) (f : B -> Q) (xs : list A) :
  sumBy f (map g xs) == sumBy (fun x => f (g x)) xs.
Proof.
  induction xs as [|x xs IH]; simpl.
  - reflexivity.
  - rewrite !sumBy_cons, IH. reflexivity.
Qed.

Lemma sumBy_ext {A : Type} (f g : A -> Q) (xs : list A) :
  (forall x, In x xs -> f x == g x) -> sumBy f xs == sumBy g xs.
Proof.
  induction xs as [|x xs IH]; intro H.
  - reflexivity.
  - rewrite !sumBy_cons.
    assert (f x == g x) by (apply H; simpl; auto).
    assert (sumBy f xs == sumBy g xs) by (apply IH; intros; apply H; simpl; auto).
    lra.
Qed.

Lemma sumBy_div {A : Type} (f : A -> Q) (d : Q) (xs : list A) :
  sumBy (fun x => f x / d) xs == sumBy f xs / d.
Proof.
  induction xs as [|x xs IH].
  - rewrite !sumBy_nil. unfold Qdiv. lra.
  - rewrite !sumBy_cons, IH. unfold Qdiv. lra.
Qed.

Lemma sumBy_nonneg {A : Type} (f : A -> Q) (xs : list A) :
  (forall x, In x xs -> 0 <= f x) -> 0 <= sumBy f xs.
Proof.
  induction xs as [|x xs IH]; intro H.
  - rewrite sumBy_nil. lra.
  - rewrite sumBy_cons.
    assert (0 <= f x) by (apply H; simpl; auto).
    assert (0 <= sumBy f xs) by (apply IH; intros; apply H; simpl; auto).
    lra.
Qed.

Lemma sumBy_pos {A : Type} (f : A -> Q) (xs : list A) (x : A) :
  (forall y, In y xs -> 0 <= f y) -> In x xs -> 0 < f x -> 0 < sumBy f xs.
Proof.
  induction xs as [|y xs IH]; intros Hnn Hin Hpos.
  - destruct Hin.
  - rewrite sumBy_cons.
    assert (0 <= f y) by (apply Hnn; simpl; auto).
    assert (0 <= sumBy f xs) by (apply sumBy_nonneg; intros; apply Hnn; simpl; auto).
    destruct Hin as [->|Hin].
    + lra.
    + assert (0 < sumBy f xs) by (apply IH; auto; intros; apply Hnn; simpl; auto).
      lra.
Qed.

Lemma sumBy_zero {A : Type} (f : A -> Q) (xs : list A) :
  (forall x, In x xs -> f x == 0) -> sumBy f xs == 0.
Proof.
  induction xs as [|x xs IH]; intro H.
  - reflexivity.
  - rewrite sumBy_cons.
    assert (f x == 0) by (apply H; simpl; auto).
    assert (sumBy f xs == 0) by (apply IH; intros; apply H; simpl; auto).
    lra.
Qed.

(** ** The stable sort *)

Lemma insertBy_perm {A : Type} (cmp : A -> A -> number) (x : A) (l : list A) :
  Permutation (insertBy cmp x l) (x :: l).
Proof.
  induction l as [|y l IH]; simpl.
  - apply Permutation_refl.
  - destruct (isPositive (cmp x y)).
    + apply perm_trans with (y :: x :: l).
      * apply perm_skip, IH.
      * apply perm_swap.
    + apply Permutation_refl.
Qed.

Lemma sortBy_perm {A : Type} (cmp : A -> A -> number) (l : list A) :
  Permutation (sortBy cmp l) l.
Proof.
  induction l as [|x l IH]; simpl.
  - apply perm_nil.
  - apply perm_trans with (x :: sortBy cmp l).
    + apply insertBy_perm.
    + apply perm_skip, IH.
Qed.

Lemma sortBy_length {A : Type} (cmp : A -> A -> number) (l : list A) :
  List.length (sortBy cmp l) = List.length l.
Proof. apply Permutation_length, sortBy_perm. Qed.

Section SortedBy.

Context {A : Type} (cmp : A -> A -> number) (R : A -> A -> Prop).

(** The comparator decides the order [R]. *)
Hypothesis cmp_before : forall x y, isPositive (cmp x y) = false -> R x y.
Hypothesis cmp_after : forall x y, isPositive (cmp x y) = true -> R y x.

Lemma insertBy_hd (x y : A) (l : list A) :
  R y x -> HdRel R y l -> HdRel R y (insertBy cmp x l).
Proof.
  intros Hyx Hhd. destruct l as [|z l]; simpl.
  - constructor. exact Hyx.
  - destruct (isPositive (cmp x z)).
    + constructor. inversion Hhd; assumption.
    + constructor. exact Hyx.
Qed.

Lemma insertBy_sorted (x : A) (l : list A) :
  Sorted R l -> Sorted R (insertBy cmp x l).
Proof.
  induction l as [|y l IH]; intro Hs; simpl.
  - repeat constructor.
  - destruct (isPositive (cmp x y)) eqn:E.
    + inversion Hs as [|? ? Hs' Hhd]; subst.
      constructor; [apply IH, Hs'|].
      apply insertBy_hd; [apply cmp_after, E | exact Hhd].
    + constructor; [exact Hs|]. constructor. apply cmp_before, E.
Qed.

Lemma sortBy_sorted (l : list A) : Sorted R (sortBy cmp l).
Proof.
  induction l as [|x l IH]; simpl.
  - constructor.
  - apply insertBy_sorted, IH.
Qed.

End SortedBy.

(** Sorting an already sorted list changes nothing. *)
Lemma sortBy_fixpoint {A : Type} (cmp : A -> A -> number) (l : list A) :
  Sorted (fun x y => isPositive (cmp x y) = false) l -> sortBy cmp l = l.
Proof.
  induction l as [|x l IH]; intro Hs; simpl.
  - reflexivity.
  - inversion Hs as [|? ? Hs' Hhd]; subst.
    rewrite IH by assumption.
    destruct l as [|y l]; simpl; [reflexivity|].
    inversion Hhd as [|? ? Hxy]; subst. rewrite Hxy. reflexivity.
Qed.

Lemma ascending_Q_before (x y : Q) : isPositive (Fin (x - y)) = false -> x <= y.
Proof. simpl. intro H. apply Qlt_bool_false_iff in H. lra. Qed.

Lemma ascending_Q_after (x y : Q) : isPositive (Fin (x - y)) = true -> y <= x.
Proof. simpl. intro H. apply Qlt_bool_iff in H. lra. Qed.

Lemma Qle_transitive : Relations_1.Transitive Qle.
Proof. intros x y z. apply Qle_trans. Qed.

Lemma sortBy_ascending_Q (ws : list Q) :
  StronglySorted Qle (sortBy (fun a b => Fin (a - b)) ws).
Proof.
  apply Sorted_StronglySorted; [exact Qle_transitive|].
  apply sortBy_sorted; [exact ascending_Q_before | exact ascending_Q_after].
Qed.

Lemma sortBy_map {A B : Type} (cmpA : A -> A -> number) (cmpB : B -> B -> number)
      (h : A -> B) (l : list A) :
  (forall x y, cmpB (h x) (h y) = cmpA x y) ->
  sortBy cmpB (map h l) = map h (sortBy cmpA l).
Proof.
  intro Hc.
  assert (Hins : forall x l', insertBy cmpB (h x) (map h l') = map h (insertBy cmpA x l')).
  { intros x l'. induction l' as [|y l' IH]; simpl; [reflexivity|].
    rewrite Hc. destruct (isPositive (cmpA x y)); simpl; [rewrite IH|]; reflexivity. }
  induction l as [|x l IH]; simpl; [reflexivity|].
  rewrite IH. apply Hins.
Qed.

Lemma Forall2_map_self {A B : Type} (f : A -> B) (R : B -> A -> Prop) (l : list A) :
  (forall x, In x l -> R (f x) x) -> Forall2 R (map f l) l.
Proof.
  induction l as [|x l IH]; intro H; simpl; constructor.
  - apply H. simpl. auto.
  - apply IH. intros y Hy. apply H. simpl. auto.
Qed.

(** ** The [Map] keyed by [rangeKey] *)

Lemma mapSet_fresh {V : Type} (b : bounds) (v : V) (m : list (bounds * V)) :
  mapGet b m = None -> mapSet b v m = m ++ [(b, v)].
Proof.
  induction m as [|[k w] m IH]; simpl; intro H.
  - reflexivity.
  - destruct (sameKey k b); [discriminate|]. rewrite IH by assumption. reflexivity.
Qed.

Lemma mapGet_app_fresh {V : Type} (b k : bounds) (v : V) (m : list (bounds * V)) :
  mapGet b m = None -> sameKey k b = false -> mapGet b (m ++ [(k, v)]) = None.
Proof.
  induction m as [|[k' w] m IH]; simpl; intros H Hk.
  - rewrite Hk. reflexivity.
  - destruct (sameKey k' b); [discriminate|]. apply IH; assumption.
Qed.

Lemma ingest_fresh (v : venue) (steps : list (bounds * option Q)) (m : list (bounds * cell)) :
  ForallOrdPairs (fun a b => sameKey (fst a) (fst b) = false) steps ->
  (forall st, In st steps -> mapGet (fst st) m = None) ->
  fold_left (fun m st => ingestOne v m (fst st) (snd st)) steps m
  = m ++ map (fun st => (fst st,
                         setVenue v (snd st)
                                  {| cbnd := fst st; kalshi := None; polymarket := None |}))
             steps.
Proof.
  revert m. induction steps as [|st steps IH]; intros m Hd Hm; simpl.
  - rewrite app_nil_r. reflexivity.
  - inversion Hd as [|? ? Hfirst Hrest]; subst.
    unfold ingestOne at 2. rewrite (Hm st) by (simpl; auto).
    rewrite mapSet_fresh by (apply Hm; simpl; auto).
    rewrite IH.
    + rewrite <- app_assoc. reflexivity.
    + exact Hrest.
    + intros st' Hin. apply mapGet_app_fresh.
      * apply Hm. simpl. auto.
      * rewrite Forall_forall in Hfirst. apply Hfirst, Hin.
Qed.

(** ** Medians *)

Lemma countIf_perm (f : Q -> bool) (l l' : list Q) :
  Permutation l l' -> countIf f l = countIf f l'.
Proof.
  unfold countIf. induction 1 as [|x l l' _ IH|x y l|l l' l'' _ IH1 _ IH2]; simpl.
  - reflexivity.
  - destruct (f x); simpl; congruence.
  - destruct (f x), (f y); reflexivity.
  - congruence.
Qed.

Lemma count_up_to (s : list Q) (k : nat) (m : Q) :
  StronglySorted Qle s -> (k < List.length s)%nat -> nth k s 0 <= m ->
  (k + 1 <= countIf (fun w => Qle_bool w m) s)%nat.
Proof.
  unfold countIf. revert k. induction s as [|x s IH]; intros k Hs Hk Hm; simpl in *.
  - lia.
  - inversion Hs as [|? ? Hs' Hall]; subst.
    assert (Hx : x <= m).
    { destruct k as [|k]; [exact Hm|].
      apply Qle_trans with (nth k s 0); [|exact Hm].
      rewrite Forall_forall in Hall. apply Hall, nth_In. lia. }
    apply Qle_bool_iff in Hx. rewrite Hx. simpl.
    destruct k as [|k]; [lia|].
    specialize (IH k Hs' ltac:(lia) Hm). lia.
Qed.

Lemma count_all_from (s : list Q) (m : Q) :
  Forall (fun w => m <= w) s -> countIf (fun w => Qle_bool m w) s = List.length s.
Proof.
  unfold countIf. induction 1 as [|x s Hx _ IH]; simpl.
  - reflexivity.
  - apply Qle_bool_iff in Hx. rewrite Hx. simpl. congruence.
Qed.

Lemma count_from (s : list Q) (k : nat) (m : Q) :
  StronglySorted Qle s -> (k < List.length s)%nat -> m <= nth k s 0 ->
  (List.length s - k <= countIf (fun w => Qle_bool m w) s)%nat.
Proof.
  revert k. induction s as [|x s IH]; intros k Hs Hk Hm.
  - simpl in *. lia.
  - inversion Hs as [|? ? Hs' Hall]; subst.
    destruct k as [|k].
    + rewrite count_all_from; [lia|].
      simpl in Hm. constructor; [exact Hm|].
      eapply Forall_impl; [|exact Hall]. intros w Hw. simpl in Hw. lra.
    + simpl in Hk, Hm. specialize (IH k Hs' ltac:(lia) Hm).
      unfold countIf in *. simpl. destruct (Qle_bool m x); simpl; lia.
Qed.

Lemma nth_sorted_le (s : list Q) (i j : nat) :
  StronglySorted Qle s -> (i <= j)%nat -> (j < List.length s)%nat ->
  nth i s 0 <= nth j s 0.
Proof.
  revert i j. induction s as [|x s IH]; intros i j Hs Hij Hj; simpl in Hj.
  - lia.
  - inversion Hs as [|? ? Hs' Hall]; subst.
    destruct i as [|i], j as [|j]; simpl; try lia.
    + lra.
    + rewrite Forall_forall in Hall. apply Hall, nth_In. lia.
    + apply IH; auto; lia.
Qed.

(** ** The percent rule and the cleaning pass (js/papers.js) *)

Module PapersFacts.
Import Papers.

Lemma filter_clean (ranges : list Raw.range) :
  filter hasProb (map cleanRange ranges)
  = map cleanRange (filter (fun r => isFinite (toNumber (Raw.prob r))) ranges).
Proof.
  induction ranges as [|r ranges IH]; simpl.
  - reflexivity.
  - unfold hasProb at 1. simpl. unfold normalizeProb.
    destruct (toNumber (Raw.prob r)); simpl; rewrite IH; reflexivity.
Qed.

Lemma normalizeProb_finite (q : Q) :
  (15 # 10 < q /\ normalizeProb (Num (Fin q)) = Some (q / 100))
  \/ (q <= 15 # 10 /\ normalizeProb (Num (Fin q)) = Some q).
Proof.
  unfold normalizeProb. simpl.
  destruct (Qlt_bool (15 # 10) q) eqn:E.
  - left. split; [apply Qlt_bool_iff; exact E | reflexivity].
  - right. split; [apply Qlt_bool_false_iff; exact E | reflexivity].
Qed.

Lemma normalizeProb_none (v : value) :
  toNumber v = None -> normalizeProb v = None.
Proof. unfold normalizeProb. intros ->. reflexivity. Qed.

Lemma normalizeDistribution_shape (ranges : list Raw.range) :
  let kept := filter (fun r => isFinite (toNumber (Raw.prob r))) ranges in
  let scaled := fun r => orElse (normalizeProb (Raw.prob r)) 0 in
  let total := sumBy scaled kept in
  normalizeDistribution ranges
  = map (fun r =>
           {| bnd := {| lower := toNumber (Raw.lower r); upper := toNumber (Raw.upper r) |};
              prob := Some (if Qlt_bool 0 total then scaled r / total else scaled r) |})
        kept.
Proof.
  intros kept scaled total.
  unfold normalizeDistribution. rewrite filter_clean. fold kept.
  assert (Htotal : sumBy probOf (map cleanRange kept) = total).
  { unfold total, sumBy. rewrite fold_left_over_map. reflexivity. }
  rewrite Htotal.
  destruct (Qlt_bool 0 total).
  - rewrite map_map. reflexivity.
  - apply map_ext_in. intros r Hr.
    unfold kept in Hr. apply filter_In in Hr. destruct Hr as [_ Hfin].
    unfold cleanRange, scaled, normalizeProb.
    destruct (toNumber (Raw.prob r)); [reflexivity | discriminate].
Qed.

(** C10.  A finite probability above 1.5 is read as a percentage and
    divided by 100, a finite probability at or below 1.5 is taken as it
    is, a probability that is not a finite number ([null], missing, [NaN],
    an infinity) yields [null]; [normalizeDistribution] keeps, in order,
    exactly the entries whose probability is a finite number, and divides
    the converted value by the total of the converted values when that
    total is positive.  The [normalizeProb] of js/priors.js is the same
    function. *)
Theorem C10_percent_rule_and_drop (ranges : list Raw.range) :
  (forall q : Q,
      (15 # 10 < q /\ normalizeProb (Num (Fin q)) = Some (q / 100))
      \/ (q <= 15 # 10 /\ normalizeProb (Num (Fin q)) = Some q))
  /\ (normalizeProb Null = None /\ normalizeProb Undefined = None
      /\ normalizeProb (Num NaN) = None /\ normalizeProb (Num PosInfinity) = None
      /\ normalizeProb (Num NegInfinity) = None)
  /\ (let kept := filter (fun r => isFinite (toNumber (Raw.prob r))) ranges in
      let scaled := fun r => orElse (normalizeProb (Raw.prob r)) 0 in
      let total := sumBy scaled kept in
      normalizeDistribution ranges
      = map (fun r =>
               {| bnd := {| lower := toNumber (Raw.lower r);
                            upper := toNumber (Raw.upper r) |};
                  prob := Some (if Qlt_bool 0 total then scaled r / total else scaled r) |})
            kept)
  /\ (forall v, Priors.normalizeProb v = normalizeProb v).
Proof.
  split; [exact normalizeProb_finite|].
  split; [repeat split|].
  split; [apply normalizeDistribution_shape|].
  intro v. reflexivity.
Qed.

(** *** Redistribution onto the standard bins *)

Lemma spread_length p w src minB maxB step bins totals :
  List.length (spread p w src minB maxB step bins totals) = List.length totals.
Proof.
  revert totals. induction bins as [|b bins IH]; intros [|t totals]; simpl; auto.
Qed.

Lemma addRange_length minB maxB step bins totals r :
  List.length (addRange minB maxB step bins totals r) = List.length totals.
Proof.
  unfold addRange.
  destruct (prob r); [|reflexivity].
  destruct (Qle_bool q 0); [reflexivity|].
  destruct (negb _); [reflexivity|].
  apply spread_length.
Qed.

Lemma totals_length minB maxB step bins clean totals :
  List.length (fold_left (addRange minB maxB step bins) clean totals) = List.length totals.
Proof.
  revert totals. induction clean as [|r clean IH]; intro totals; simpl.
  - reflexivity.
  - rewrite IH. apply addRange_length.
Qed.

Lemma overlapOf_length (src dst : Q * Q) :
  overlapOf src dst == overlapLength src dst.
Proof.
  unfold overlapOf, overlapLength. cbv zeta.
  destruct (Qle_bool _ _) eqn:E.
  - apply Qle_bool_iff in E. apply Q.max_r. lra.
  - assert (~ Qmax (fst src) (fst dst) <= Qmin (snd src) (snd dst)) as H.
    { intro H. apply Qle_bool_iff in H. congruence. }
    apply Q.max_l. lra.
Qed.

Lemma overlapOf_nonneg (src dst : Q * Q) : 0 <= overlapOf src dst.
Proof. unfold overlapOf. apply Q.le_max_l. Qed.

Lemma spread_nth p w src minB maxB step (b0 : bounds) bins totals i :
  List.length totals = List.length bins -> (i < List.length bins)%nat ->
  nth i (spread p w src minB maxB step bins totals) 0
  == nth i totals 0
     + p * (overlapOf src (expandRange (nth i bins b0) minB maxB step) / w).
Proof.
  revert totals i. induction bins as [|b bins IH]; intros [|t totals] i Hlen Hi;
    simpl in *; try lia.
  destruct i as [|i].
  - destruct (Qlt_bool 0 _) eqn:E; [lra|].
    apply Qlt_bool_false_iff in E.
    pose proof (overlapOf_nonneg src (expandRange b minB maxB step)) as Hnn.
    assert (H0 : overlapOf src (expandRange b minB maxB step) == 0) by lra.
    rewrite H0. unfold Qdiv. lra.
  - apply IH; lia.
Qed.

Lemma contribution_nonneg minB maxB step r bin : 0 <= contribution minB maxB step r bin.
Proof.
  unfold contribution.
  destruct (prob r) as [p|]; [|lra].
  destruct (Qle_bool p 0) eqn:Ep; [lra|].
  destruct (negb _) eqn:Ew; [lra|].
  destruct (Qlt_bool 0 (overlapOf _ _)) eqn:Eo; [|lra].
  apply negb_false_iff, Qlt_bool_iff in Ew.
  apply Qlt_bool_iff in Eo.
  assert (0 < p).
  { apply Qnot_le_lt. intro H. apply Qle_bool_iff in H. congruence. }
  apply Qmult_le_0_compat; [lra|].
  apply Qlt_le_weak, Qlt_shift_div_l; lra.
Qed.

Lemma addRange_nth minB maxB step (b0 : bounds) bins totals r i :
  List.length totals = List.length bins -> (i < List.length bins)%nat ->
  nth i (addRange minB maxB step bins totals r) 0
  == nth i totals 0 + contribution minB maxB step r (nth i bins b0).
Proof.
  intros Hlen Hi. unfold addRange, contribution.
  destruct (prob r) as [p|]; [|lra].
  destruct (Qle_bool p 0); [lra|].
  destruct (negb _); [lra|].
  rewrite (spread_nth _ _ _ _ _ _ b0) by assumption.
  destruct (Qlt_bool 0 (overlapOf _ _)) eqn:E; [lra|].
  apply Qlt_bool_false_iff in E.
  pose proof (overlapOf_nonneg (expandRange r minB maxB step)
                               (expandRange (nth i bins b0) minB maxB step)) as Hnn.
  match goal with |- context [overlapOf ?a ?b] =>
    assert (H0 : overlapOf a b == 0) by lra end.
  rewrite H0. unfold Qdiv. lra.
Qed.

Lemma totals_nth minB maxB step (b0 : bounds) bins clean totals i :
  List.length totals = List.length bins -> (i < List.length bins)%nat ->
  nth i (fold_left (addRange minB maxB step bins) clean totals) 0
  == nth i totals 0 + sumBy (fun r => contribution minB maxB step r (nth i bins b0)) clean.
Proof.
  revert totals. induction clean as [|r clean IH]; intros totals Hlen Hi; simpl.
  - rewrite sumBy_nil. lra.
  - rewrite IH by (rewrite ?addRange_length; assumption).
    rewrite (addRange_nth _ _ _ b0) by assumption.
    rewrite sumBy_cons. lra.
Qed.

Lemma nth_zeros {A : Type} (xs : list A) i : nth i (map (fun _ => 0) xs) 0 = 0.
Proof.
  revert i. induction xs as [|x xs IH]; intros [|i]; simpl; auto.
Qed.

(** The slots of [totals] once every cleaned range has been spread. *)
Lemma aggregate_unfold ranges bins m :
  bins <> [] -> normalizeDistribution ranges <> [] ->
  aggregateRangesToStandard ranges bins m
  = let step := stepForMeta m in
    let minBound := findMinBound bins in
    let maxBound := findMaxBound bins minBound step in
    let totals :=
      fold_left (addRange minBound maxBound step bins) (normalizeDistribution ranges)
                (map (fun _ => 0) bins) in
    let totalProb := sumBy (fun v => v) totals in
    if Qlt_bool 0 totalProb then map (fun value => value / totalProb) totals else totals.
Proof.
  intros Hb Hc. unfold aggregateRangesToStandard.
  destruct bins as [|b bins]; [congruence|].
  destruct (normalizeDistribution ranges) as [|r clean]; [congruence|].
  reflexivity.
Qed.

Lemma aggregate_empty ranges bins m :
  bins = [] \/ normalizeDistribution ranges = [] ->
  aggregateRangesToStandard ranges bins m = [].
Proof.
  unfold aggregateRangesToStandard. intros [-> | ->]; [reflexivity|].
  destruct bins; reflexivity.
Qed.

Lemma contribution_pos minB maxB step (r : range) bin p :
  prob r = Some p -> 0 < p ->
  0 < overlapOf (expandRange r minB maxB step) (expandRange bin minB maxB step) ->
  0 < contribution minB maxB step r bin.
Proof.
  intros Hp Hpos Hov. unfold contribution. rewrite Hp.
  destruct (Qle_bool p 0) eqn:Ep.
  { apply Qle_bool_iff in Ep. lra. }
  assert (Hw : 0 < snd (expandRange r minB maxB step) - fst (expandRange r minB maxB step)).
  { unfold overlapOf in Hov.
    set (src := expandRange r minB maxB step) in *.
    set (dst := expandRange bin minB maxB step) in *.
    pose proof (Q.le_min_l (snd src) (snd dst)).
    pose proof (Q.le_max_l (fst src) (fst dst)).
    destruct (Q.max_spec 0 (Qmin (snd src) (snd dst) - Qmax (fst src) (fst dst)))
      as [[_ E]|[_ E]]; rewrite E in Hov; lra. }
  apply Qlt_bool_iff in Hw. rewrite Hw. simpl.
  apply Qlt_bool_iff in Hov. rewrite Hov.
  apply Qlt_bool_iff in Hw, Hov.
  apply Qmult_lt_0_compat; [exact Hpos|].
  apply Qlt_shift_div_l; [exact Hw|]. rewrite Qmult_0_l. exact Hov.
Qed.

Lemma contribution_zero minB maxB step (r : range) bin :
  overlapOf (expandRange r minB maxB step) (expandRange bin minB maxB step) <= 0 ->
  contribution minB maxB step r bin == 0.
Proof.
  intro Hov. unfold contribution.
  destruct (prob r) as [p|]; [|reflexivity].
  destruct (Qle_bool p 0); [reflexivity|].
  destruct (negb _); [reflexivity|].
  destruct (Qlt_bool 0 _) eqn:E; [|reflexivity].
  apply Qlt_bool_iff in E. lra.
Qed.

Lemma sum_of_quotients (xs : list Q) (d : Q) :
  ~ d == 0 -> sumBy (fun v => v) xs == d ->
  sumBy (fun v => v) (map (fun value => value / d) xs) == 1.
Proof.
  intros Hd Hs.
  rewrite sumBy_map, sumBy_div, Hs. field. exact Hd.
Qed.

Lemma nth_quotient (xs : list Q) (d : Q) i :
  nth i (map (fun value => value / d) xs) 0 == nth i xs 0 / d.
Proof.
  revert i. induction xs as [|x xs IH]; intros [|i]; simpl;
    try (unfold Qdiv; lra); try reflexivity.
  apply IH.
Qed.

(** C1.  When some cleaned range of the venue has positive probability
    and overlaps a standard bin, [aggregateRangesToStandard] returns one
    probability per standard bin, none negative, zero for a bin that no
    range of the venue overlaps, and the probabilities sum to 1. *)
Theorem C1_every_bin_filled_sum_one
    (ranges : list Raw.range) (bins : list bounds) (m : meta) (b0 : bounds) :
  let step := stepForMeta m in
  let minBound := findMinBound bins in
  let maxBound := findMaxBound bins minBound step in
  let expand := fun b : bounds => expandRange b minBound maxBound step in
  let clean := normalizeDistribution ranges in
  (exists (r : range) (b : bounds) (p : Q),
      In r clean /\ In b bins /\ prob r = Some p /\ 0 < p
      /\ 0 < overlapOf (expand r) (expand b)) ->
  let out := aggregateRangesToStandard ranges bins m in
  List.length out = List.length bins
  /\ sumBy (fun v => v) out == 1
  /\ (forall i, 0 <= nth i out 0)
  /\ (forall i, (i < List.length bins)%nat ->
                (forall r : range, In r clean ->
                                   overlapOf (expand r) (expand (nth i bins b0)) <= 0) ->
                nth i out 0 == 0).
Proof.
  intros step minBound maxBound expand clean (r & b & p & Hr & Hb & Hp & Hpos & Hov) out.
  assert (Hbins : bins <> []) by (intros ->; destruct Hb).
  assert (Hclean : normalizeDistribution ranges <> []).
  { fold clean. intros E. rewrite E in Hr. destruct Hr. }
  unfold out. rewrite aggregate_unfold by assumption.
  cbv zeta. fold step minBound maxBound clean.
  set (totals := fold_left (addRange minBound maxBound step bins) clean
                           (map (fun _ => 0) bins)).
  assert (Hlen : List.length totals = List.length bins).
  { unfold totals. rewrite totals_length. apply length_map. }
  assert (Hslot : forall i, (i < List.length bins)%nat ->
            nth i totals 0
            == sumBy (fun r => contribution minBound maxBound step r (nth i bins b0)) clean).
  { intros i Hi. unfold totals.
    rewrite (totals_nth _ _ _ b0) by (rewrite ?length_map; auto).
    rewrite nth_zeros. lra. }
  assert (Hnn : forall i, 0 <= nth i totals 0).
  { intro i. destruct (Nat.lt_ge_cases i (List.length bins)) as [Hi|Hi].
    - rewrite Hslot by assumption.
      apply sumBy_nonneg. intros; apply contribution_nonneg.
    - rewrite nth_overflow by lia. lra. }
  assert (Htot : 0 < sumBy (fun v => v) totals).
  { destruct (In_nth bins b b0 Hb) as (j & Hj & Ej).
    apply sumBy_pos with (x := nth j totals 0).
    - intros y Hy. destruct (In_nth totals y 0 Hy) as (k & _ & <-). apply Hnn.
    - apply nth_In. lia.
    - rewrite Hslot by assumption.
      apply sumBy_pos with (x := r).
      + intros; apply contribution_nonneg.
      + exact Hr.
      + rewrite Ej. apply contribution_pos with (p := p); assumption. }
  pose proof Htot as Hb1. apply Qlt_bool_iff in Hb1. rewrite Hb1.
  split; [rewrite length_map; exact Hlen|].
  split; [apply sum_of_quotients; [lra | reflexivity]|].
  split.
  - intro i. rewrite nth_quotient.
    apply Qle_shift_div_l; [exact Htot|]. specialize (Hnn i). lra.
  - intros i Hi Hnone. rewrite nth_quotient, Hslot by assumption.
    rewrite sumBy_zero.
    + unfold Qdiv. lra.
    + intros x Hx. apply contribution_zero. apply Hnone. exact Hx.
Qed.

(** *** The synthetic width of open-ended bins *)

Lemma isMedian_perm (m : Q) (l l' : list Q) :
  Permutation l l' -> isMedian m l -> isMedian m l'.
Proof.
  intros Hp [H1 H2]. unfold isMedian.
  rewrite <- (Permutation_length Hp), <- !(countIf_perm _ _ _ Hp). auto.
Qed.

Lemma filter_all {A : Type} (f : A -> bool) (l : list A) :
  Forall (fun x => f x = true) l -> filter f l = l.
Proof.
  induction 1 as [|x l Hx _ IH]; simpl; [reflexivity|].
  rewrite Hx, IH. reflexivity.
Qed.

Lemma count_split (f : Q -> bool) (ws : list Q) :
  (countIf f ws + countIf (fun w => negb (f w)) ws = List.length ws)%nat.
Proof.
  unfold countIf. induction ws as [|w ws IH]; simpl; [reflexivity|].
  destruct (f w); simpl; lia.
Qed.

(** In an ascending list the element at position [k] has rank [k]. *)
Lemma sorted_nth_atRank (s : list Q) (k : nat) :
  StronglySorted Qle s -> (k < List.length s)%nat -> atRank k (nth k s 0) s.
Proof.
  intros Hs Hk. split.
  - pose proof (count_from s k (nth k s 0) Hs Hk ltac:(lra)) as H.
    pose proof (count_split (fun w => Qle_bool (nth k s 0) w) s) as Hsplit.
    change (countIf (fun w => Qlt_bool w (nth k s 0)) s)
      with (countIf (fun w => negb (Qle_bool (nth k s 0) w)) s).
    lia.
  - pose proof (count_up_to s k (nth k s 0) Hs Hk ltac:(lra)). lia.
Qed.

Lemma atRank_perm (k : nat) (x : Q) (l l' : list Q) :
  Permutation l l' -> atRank k x l -> atRank k x l'.
Proof.
  intros Hp [H1 H2]. unfold atRank.
  rewrite <- !(countIf_perm _ _ _ Hp). auto.
Qed.

(** The middle of an ascending arrangement is the median. *)
Lemma middle_is_the_median (ws s : list Q) :
  Permutation s ws -> StronglySorted Qle s -> ws <> [] ->
  let mid := Nat.div (List.length s) 2 in
  isTheMedian (if Nat.eqb (Nat.modulo (List.length s) 2) 0
               then (nth (mid - 1) s 0 + nth mid s 0) / 2
               else nth mid s 0) ws.
Proof.
  intros Hp Hs Hne mid.
  assert (Hlen : List.length s = List.length ws) by apply (Permutation_length Hp).
  assert (Hn : (0 < List.length s)%nat).
  { rewrite Hlen. destruct ws; [congruence | simpl; lia]. }
  pose proof (Nat.div_mod_eq (List.length s) 2) as Hdm. fold mid in Hdm.
  pose proof (Nat.mod_upper_bound (List.length s) 2 ltac:(lia)) as Hmod.
  assert (Hin : forall i, (i < List.length s)%nat -> In (nth i s 0) ws).
  { intros i Hi. apply (Permutation_in _ Hp). apply nth_In. exact Hi. }
  assert (Hrank : forall i, (i < List.length s)%nat -> atRank i (nth i s 0) ws).
  { intros i Hi. apply (atRank_perm _ _ s); [exact Hp|].
    apply sorted_nth_atRank; assumption. }
  destruct (Nat.eqb_spec (Nat.modulo (List.length s) 2) 0) as [E|E].
  - right. exists (mid - 1)%nat, (nth (mid - 1) s 0), (nth mid s 0).
    split; [lia|]. split; [apply Hin; lia|]. split; [apply Hin; lia|].
    split; [apply Hrank; lia|].
    split; [|reflexivity].
    replace (mid - 1 + 1)%nat with mid by lia. apply Hrank. lia.
  - left. exists mid, (nth mid s 0).
    split; [lia|]. split; [apply Hin; lia|]. split; [apply Hrank; lia | reflexivity].
Qed.

(** The widths [estimateBinWidth] keeps are those of the closed bins with
    [lower < upper]. *)
Lemma binWidths_positive (bins_ : list bounds) :
  binWidths bins_ = positiveClosedWidths bins_.
Proof.
  unfold binWidths, positiveClosedWidths.
  induction bins_ as [|b bins_ IH]; simpl; [reflexivity|].
  unfold closedWidth at 1.
  destruct (lower b) as [l|]; [|exact IH].
  destruct (upper b) as [u|]; [|exact IH].
  simpl.
  assert (E : Qlt_bool 0 (u - l) = Qlt_bool l u).
  { destruct (Qlt_bool l u) eqn:E1.
    - apply Qlt_bool_iff in E1. apply Qlt_bool_iff. lra.
    - apply Qlt_bool_false_iff in E1. apply Qlt_bool_false_iff. lra. }
  rewrite E. destruct (Qlt_bool l u); simpl; rewrite IH; reflexivity.
Qed.

Lemma positive_when_well_formed (bins_ : list bounds) :
  (forall b l u, In b bins_ -> lower b = Some l -> upper b = Some u -> l < u) ->
  positiveClosedWidths bins_ = closedWidths bins_.
Proof.
  unfold positiveClosedWidths, closedWidths.
  induction bins_ as [|b bins_ IH]; intro H; simpl; [reflexivity|].
  rewrite IH by (intros b' l u Hin; apply H; simpl; auto).
  destruct (lower b) as [l|] eqn:El; [|reflexivity].
  destruct (upper b) as [u|] eqn:Eu; [|reflexivity].
  assert (Hlu : Qlt_bool l u = true)
    by (apply Qlt_bool_iff; apply (H b l u); simpl; auto).
  rewrite Hlu. reflexivity.
Qed.

(** C3 fails as stated.  With closed bins of widths 10, 0 and 30 the
    width that [estimateBinWidth] returns is 20, which is not the median
    10 of the closed-bin widths: a width that is not positive is left
    out.  And where the normalizer redistributes mass, [expandRange]
    closes an open-ended range one grid step beyond the grid, whatever
    the median is: on bins of widths 10000, 20000, 30000 the range above
    60000 is taken to be 40000 wide. *)
Lemma C3_open_bin_width_is_median_counterexample :
  (closedWidths Sample.degenerateBins = [10 - 0; 5 - 5; 50 - 20]
   /\ estimateBinWidth Sample.degenerateBins == 20
   /\ ~ isTheMedian (estimateBinWidth Sample.degenerateBins)
                    (closedWidths Sample.degenerateBins))
  /\ (estimateBinWidth Sample.unevenBins == 20000
      /\ snd (expandRange (Sample.above 60000)
                          (findMinBound (buildStandardBins Sample.unevenBins Sample.jobs))
                          (findMaxBound (buildStandardBins Sample.unevenBins Sample.jobs)
                                        (findMinBound
                                           (buildStandardBins Sample.unevenBins Sample.jobs))
                                        (stepForMeta Sample.jobs))
                          (stepForMeta Sample.jobs))
         - 60000 == 40000).
Proof.
  split; [|split; vm_compute; reflexivity].
  split; [reflexivity|]. split; [vm_compute; reflexivity|].
  intros [(k & x & Hlen & Hin & [H1 H2] & Hm) | (k & x & y & Hlen & _)];
    simpl in Hlen; [|lia].
  assert (k = 1%nat) by lia. subst k.
  simpl in Hin. destruct Hin as [<-|[<-|[<-|[]]]];
    vm_compute in H1, H2, Hm; try lia; discriminate Hm.
Qed.

(** C3, amended.  The width that [estimateBinWidth] yields for the
    open-ended bins is the median of the widths of the closed bins with
    [lower < upper] (the middle one, or the mean of the two middle ones),
    and the literal 50000 when there is none; these are all the closed
    bins when each has [lower < upper]; widths 10000, 20000, 30000 give
    20000; and [midpointForBin] puts the midpoint of an open-ended bin
    half that width beyond its finite end. *)
Theorem C3_open_bin_width_is_median (bins_ : list bounds) :
  let widths := positiveClosedWidths bins_ in
  let w := estimateBinWidth bins_ in
  (widths = [] -> w = 50000)
  /\ (widths <> [] -> isTheMedian w widths)
  /\ (widths = [10000; 20000; 30000] -> w = 20000)
  /\ ((forall b l u, In b bins_ -> lower b = Some l -> upper b = Some u -> l < u) ->
      widths = closedWidths bins_)
  /\ (forall u, midpointForBin {| lower := None; upper := Some u |} w == u - w / 2)
  /\ (forall l, midpointForBin {| lower := Some l; upper := None |} w == l + w / 2).
Proof.
  intros widths w.
  assert (Hbw : binWidths bins_ = widths) by apply binWidths_positive.
  split; [|split; [|split; [|split; [|split]]]].
  - intro E. unfold w, estimateBinWidth. rewrite Hbw, E. reflexivity.
  - intro Hne. unfold w, estimateBinWidth. rewrite Hbw.
    destruct widths as [|x ws] eqn:E; [congruence|]. rewrite <- E.
    apply middle_is_the_median.
    + apply sortBy_perm.
    + apply sortBy_ascending_Q.
    + rewrite E. discriminate.
  - intro E. unfold w, estimateBinWidth. rewrite Hbw, E. reflexivity.
  - apply positive_when_well_formed.
  - intro u. reflexivity.
  - intro l. reflexivity.
Qed.

(** *** Volume weights *)

Lemma log1p_pos (v : Q) : 0 < v -> (0 < log1p v)%R.
Proof.
  intro Hv. unfold log1p.
  apply Qlt_Rlt in Hv. rewrite RMicromega.Q2R_0 in Hv.
  rewrite <- ln_1. apply ln_increasing; lra.
Qed.

Lemma clamp_bounds (v lo hi : R) : (lo <= hi)%R -> (lo <= clamp v lo hi <= hi)%R.
Proof.
  intro H. unfold clamp. split.
  - apply Rmin_glb; [apply Rmax_r | exact H].
  - apply Rmin_r.
Qed.




(** C5.  When both venues report a positive volume, each multiplier is
    [log1p] of the venue's volume divided by the mean of the two [log1p]
    values, clamped to [0.5, 3.0], and so lies between 0.5 and 3.0. *)
Theorem C5_volume_weights_clamped (k p : Q) :
  0 < k -> 0 < p ->
  let mean := ((log1p k + log1p p) / 2)%R in
  exists w : Weights.t,
    computeVolumeWeights (Some k) (Some p) = Some w
    /\ Weights.kalshi w = clamp (log1p k / mean) (1 / 2) 3
    /\ Weights.polymarket w = clamp (log1p p / mean) (1 / 2) 3
    /\ (1 / 2 <= Weights.kalshi w <= 3)%R
    /\ (1 / 2 <= Weights.polymarket w <= 3)%R.
Proof.
  intros Hk Hp mean.
  pose proof (log1p_pos k Hk) as Lk. pose proof (log1p_pos p Hp) as Lp.
  unfold computeVolumeWeights.
  assert (Ek : Qle_bool k 0 = false).
  { destruct (Qle_bool k 0) eqn:E; [|reflexivity].
    apply Qle_bool_iff in E. exfalso. apply (Qlt_not_le _ _ Hk E). }
  assert (Ep : Qle_bool p 0 = false).
  { destruct (Qle_bool p 0) eqn:E; [|reflexivity].
    apply Qle_bool_iff in E. exfalso. apply (Qlt_not_le _ _ Hp E). }
  rewrite Ek, Ep. simpl. fold mean.
  destruct (Rlt_dec 0 mean) as [Hm|Hm]; [|exfalso; apply Hm; unfold mean; lra].
  eexists. split; [reflexivity|]. simpl.
  repeat split; try reflexivity; apply clamp_bounds; lra.
Qed.

Lemma C5_volume_weights_clamped_witness :
  exists w : Weights.t,
    computeVolumeWeights (Some 10000000) (Some 10000) = Some w
    /\ (1 / 2 <= Weights.kalshi w <= 3)%R
    /\ (1 / 2 <= Weights.polymarket w <= 3)%R.
Proof.
  destruct (C5_volume_weights_clamped 10000000 10000 eq_refl eq_refl)
    as (w & H & _ & _ & Hk & Hp).
  exists w. split; [exact H | split; assumption].
Defined.

(** *** The single-venue fallback *)

Lemma normalized_has_prob (ranges : list Raw.range) (r : range) :
  In r (normalizeDistribution ranges) -> exists p, prob r = Some p.
Proof.
  rewrite normalizeDistribution_shape. cbv zeta.
  intro H. apply in_map_iff in H. destruct H as (x & <- & _).
  eexists. reflexivity.
Qed.

(** The cleaned probabilities sum to 1, unless the raw total was not
    positive and nothing was rescaled. *)
Lemma normalized_sum_cases (ranges : list Raw.range) :
  sumBy probOf (normalizeDistribution ranges) == 1
  \/ sumBy probOf (normalizeDistribution ranges) <= 0.
Proof.
  rewrite normalizeDistribution_shape. cbv zeta.
  set (kept := filter _ ranges).
  set (scaled := fun r => orElse (normalizeProb (Raw.prob r)) 0).
  set (total := sumBy scaled kept).
  rewrite sumBy_map. unfold probOf. simpl.
  destruct (Qlt_bool 0 total) eqn:E.
  - left. apply Qlt_bool_iff in E.
    rewrite sumBy_div. fold scaled. fold total. clearbody total. field. lra.
  - right. apply Qlt_bool_false_iff in E. exact E.
Qed.

Lemma nonneg_sum_zero {A : Type} (f : A -> Q) (xs : list A) (x : A) :
  (forall y, In y xs -> 0 <= f y) -> sumBy f xs <= 0 -> In x xs -> f x == 0.
Proof.
  intros Hnn Hs Hin.
  assert (0 <= f x) by auto.
  destruct (Qlt_le_dec 0 (f x)) as [Hpos|Hle]; [|lra].
  pose proof (sumBy_pos f xs x Hnn Hin Hpos). lra.
Qed.

Lemma normalizeDistribution_nil : normalizeDistribution [] = [].
Proof. reflexivity. Qed.

(** With pairwise distinct brackets, [ingest] into an empty map stores one
    cell per cleaned range, in order. *)
Lemma ingest_distinct (v : venue) (ranges : list Raw.range) :
  ForallOrdPairs (fun a b : range => sameKey a b = false) (normalizeDistribution ranges) ->
  mapValues (ingest v ranges [])
  = map (fun r : range =>
           setVenue v (prob r)
                    {| cbnd := {| lower := lower r; upper := upper r |};
                       kalshi := None; polymarket := None |})
        (normalizeDistribution ranges).
Proof.
  intro Hd. unfold ingest.
  set (clean := normalizeDistribution ranges) in *.
  set (stepOf := fun r : range => ({| lower := lower r; upper := upper r |}, prob r)).
  change (fold_left _ clean [])
    with (fold_left (fun m (r : range) => ingestOne v m (fst (stepOf r)) (snd (stepOf r)))
                    clean []).
  rewrite <- (fold_left_over_map (fun m st => ingestOne v m (fst st) (snd st)) stepOf).
  rewrite ingest_fresh.
  - simpl. unfold mapValues. rewrite !map_map. reflexivity.
  - clear -Hd. induction Hd as [|r l Hr _ IH]; simpl; constructor.
    + rewrite Forall_map. exact Hr.
    + exact IH.
  - reflexivity.
Qed.

(** What [finishCombine] makes of the cell of a lone venue. *)
Lemma lone_cell_combined (v : venue) (r : range) (p total : Q) :
  prob r = Some p ->
  let c := setVenue v (prob r)
                    {| cbnd := {| lower := lower r; upper := upper r |};
                       kalshi := None; polymarket := None |} in
  orElse (snd (withCombinedRaw c)) 0 == p
  /\ combined (withCombined total (withCombinedRaw c))
     == (if Qlt_bool 0 total then p / total else 0).
Proof.
  intros Hp c. unfold c. rewrite Hp.
  assert (Hone : (0 + p) / inject_Z 1 == p) by field.
  destruct v; simpl; unfold sumBy; simpl;
    (split; [exact Hone | destruct (Qlt_bool 0 total); [|reflexivity]]);
    rewrite Hone; reflexivity.
Qed.

(** C6 fails as stated.  A lone venue that quotes the bracket 0-50000
    twice, at 0.3 and at 0.7, has the two normalized probabilities 0.3
    and 0.7, but the fallback keeps one bin per bracket: the posterior
    has a single bin, of mean 1. *)
Lemma C6_single_venue_fallback_counterexample :
  getPosterior Sample.twiceQuoted = None
  /\ venueRanges "polymarket" (sources Sample.twiceQuoted) = []
  /\ List.length (normalizeDistribution
                    (venueRanges "kalshi" (sources Sample.twiceQuoted))) = 2%nat
  /\ (exists out mu, getPosteriorBins Sample.twiceQuoted [] = [out]
                     /\ PBin.mean out = Some mu /\ mu == 1)
  /\ ~ Forall2 (fun (out : PBin.t) (r : range) =>
                  exists mu p, PBin.mean out = Some mu /\ prob r = Some p /\ mu == p)
               (getPosteriorBins Sample.twiceQuoted [])
               (sortBy (fun a b : range => sortRanges a b)
                       (normalizeDistribution
                          (venueRanges "kalshi" (sources Sample.twiceQuoted)))).
Proof.
  split; [reflexivity|]. split; [reflexivity|]. split; [reflexivity|].
  split.
  - eexists. eexists. split; [vm_compute; reflexivity|].
    split; [reflexivity | vm_compute; reflexivity].
  - intro H. apply Forall2_length in H. vm_compute in H. discriminate H.
Qed.

(** C6, amended.  With no stored posterior and a single venue reporting
    pairwise distinct brackets, [getPosteriorBins] returns the venue's
    brackets in [sortRanges] order with [p10] and [p90] null, and the
    mean of each is the venue's normalized probability divided once more
    by the sum [t] of the venue's normalized probabilities (0 when that
    sum is not positive). *)
Theorem C6_single_venue_fallback
    (snap : snapshot) (bins_ : list bounds) (v : venue) (ranges : list Raw.range) :
  getPosterior snap = None ->
  match v with
  | Kalshi => venueRanges "kalshi" (sources snap) = ranges
              /\ venueRanges "polymarket" (sources snap) = []
  | Polymarket => venueRanges "kalshi" (sources snap) = []
                  /\ venueRanges "polymarket" (sources snap) = ranges
  end ->
  let own := normalizeDistribution ranges in
  let t := sumBy probOf own in
  ForallOrdPairs (fun a b : range => sameKey a b = false) own ->
  Forall2 (fun (out : PBin.t) (r : range) =>
             PBin.lower out = ofBound (lower r)
             /\ PBin.upper out = ofBound (upper r)
             /\ (exists mu p, PBin.mean out = Some mu /\ prob r = Some p
                              /\ mu == if Qlt_bool 0 t then p / t else 0)
             /\ PBin.p10 out = None /\ PBin.p90 out = None)
          (getPosteriorBins snap bins_)
          (sortBy (fun a b : range => sortRanges a b) own).
Proof.
  intros Hpost Hv own t Hd.
  set (cellOf := fun r : range =>
         setVenue v (prob r)
                  {| cbnd := {| lower := lower r; upper := upper r |};
                     kalshi := None; polymarket := None |}).
  assert (Hm : mapValues (ingest Polymarket (venueRanges "polymarket" (sources snap))
                            (ingest Kalshi (venueRanges "kalshi" (sources snap)) []))
               = map cellOf own).
  { destruct v; destruct Hv as [Hk Hp]; rewrite Hk, Hp.
    - change (ingest Polymarket [] ?m) with m. apply ingest_distinct, Hd.
    - change (ingest Kalshi [] []) with (@nil (bounds * cell)).
      apply ingest_distinct, Hd. }
  unfold getPosteriorBins. rewrite Hpost.
  unfold combineDistributions, finishCombine. rewrite Hm.
  set (total := sumBy _ (map withCombinedRaw (map cellOf own))).
  assert (Hraw : forall (r : range) p, prob r = Some p ->
            orElse (snd (withCombinedRaw (cellOf r))) 0 == p
            /\ combined (withCombined total (withCombinedRaw (cellOf r)))
               == (if Qlt_bool 0 total then p / total else 0)).
  { intros r p Hp. apply lone_cell_combined. exact Hp. }
  assert (Htotal : total == t).
  { unfold total, t. rewrite !sumBy_map. apply sumBy_ext.
    intros r Hr. destruct (normalized_has_prob ranges r Hr) as [p Hp].
    unfold probOf. rewrite Hp. simpl. apply Hraw. exact Hp. }
  rewrite !map_map.
  rewrite (sortBy_map (fun a b : range => sortRanges a b)
                      (fun a b : entry => sortRanges a b)
                      (fun r => withCombined total (withCombinedRaw (cellOf r))))
    by (intros x y; unfold cellOf; destruct v; reflexivity).
  rewrite map_map. apply Forall2_map_self.
  intros r Hsorted.
  assert (Hr : In r own).
  { eapply Permutation_in; [apply sortBy_perm | exact Hsorted]. }
  destruct (normalized_has_prob ranges r Hr) as [p Hp].
  destruct (Hraw r p Hp) as [_ Hcomb].
  simpl.
  split; [unfold cellOf; destruct v; reflexivity|].
  split; [unfold cellOf; destruct v; reflexivity|].
  split; [|split; reflexivity].
  eexists. exists p. split; [reflexivity|]. split; [exact Hp|].
  rewrite Hcomb.
  destruct (Qlt_bool 0 total) eqn:E1; destruct (Qlt_bool 0 t) eqn:E2.
  - rewrite Htotal. reflexivity.
  - apply Qlt_bool_iff in E1. apply Qlt_bool_false_iff in E2. lra.
  - apply Qlt_bool_false_iff in E1. apply Qlt_bool_iff in E2. lra.
  - reflexivity.
Qed.

(** *** Re-running the normalizer on aligned bins *)

Lemma toNumber_ofBound (n : option Q) : toNumber (ofBound n) = n.
Proof. destruct n; reflexivity. Qed.

Lemma overlap_apart (a b : Q * Q) :
  snd a <= fst b -> overlapOf a b <= 0 /\ overlapOf b a <= 0.
Proof.
  intro H. unfold overlapOf.
  pose proof (Q.le_min_l (snd a) (snd b)). pose proof (Q.le_min_r (snd b) (snd a)).
  pose proof (Q.le_max_r (fst a) (fst b)). pose proof (Q.le_max_l (fst b) (fst a)).
  split; apply Q.max_lub; lra.
Qed.

Lemma overlap_self (a : Q * Q) : fst a < snd a -> overlapOf a a == snd a - fst a.
Proof.
  intro H. unfold overlapOf.
  rewrite Q.min_id, Q.max_id. apply Q.max_r. lra.
Qed.

Section Aligned.

Variables (minB maxB step : Q) (q : bounds * Q -> Q).

Let expand (b : bounds) : Q * Q := expandRange b minB maxB step.

(** The cleaned range of an aligned item: the bounds of its bin, and a
    probability [q item]. *)
Let cleaned (item : bounds * Q) : range :=
  {| bnd := {| lower := lower (fst item); upper := upper (fst item) |};
     prob := Some (q item) |}.

Lemma aligned_self (item : bounds * Q) :
  0 <= q item -> fst (expand (fst item)) < snd (expand (fst item)) ->
  contribution minB maxB step (cleaned item) (fst item) == q item.
Proof.
  intros Hq Hw. unfold contribution.
  change (prob (cleaned item)) with (Some (q item)).
  change (expandRange (cleaned item) minB maxB step) with (expand (fst item)).
  change (expandRange (fst item) minB maxB step) with (expand (fst item)).
  cbv beta iota zeta.
  destruct (Qle_bool (q item) 0) eqn:E.
  { apply Qle_bool_iff in E. lra. }
  assert (Hw' : Qlt_bool 0 (snd (expand (fst item)) - fst (expand (fst item))) = true)
    by (apply Qlt_bool_iff; lra).
  rewrite Hw'. cbn [negb].
  assert (Ho : Qlt_bool 0 (overlapOf (expand (fst item)) (expand (fst item))) = true)
    by (apply Qlt_bool_iff; rewrite overlap_self; lra).
  rewrite Ho, overlap_self by assumption. field. lra.
Qed.

Lemma aligned_other (item : bounds * Q) (b : bounds) :
  snd (expand (fst item)) <= fst (expand b) \/ snd (expand b) <= fst (expand (fst item)) ->
  contribution minB maxB step (cleaned item) b == 0.
Proof.
  intro H. apply contribution_zero.
  change (overlapOf (expand (fst item)) (expand b) <= 0).
  destruct H as [H|H]; apply overlap_apart in H; tauto.
Qed.

(** Of all aligned items, only the one sitting on a bin adds to it. *)
Lemma aligned_diagonal (b0 : bounds) (items : list (bounds * Q)) (i : nat) :
  isPartition (map expand (map fst items)) ->
  (forall item, In item items -> 0 <= q item) ->
  (i < List.length items)%nat ->
  sumBy (fun r => contribution minB maxB step r (nth i (map fst items) b0))
        (map cleaned items)
  == q (nth i items (b0, 0)).
Proof.
  revert i. induction items as [|item items IH]; intros i [Hw Hs] Hq Hi; simpl in Hi.
  - lia.
  - simpl in Hw, Hs. inversion Hw as [|? ? Hw1 Hw']; subst.
    inversion Hs as [|? ? Hs' Hall]; subst.
    rewrite Forall_forall in Hall.
    cbn [map]. rewrite sumBy_cons.
    destruct i as [|i]; cbn [nth].
    + rewrite aligned_self by (auto; apply Hq; simpl; auto).
      rewrite sumBy_map, sumBy_zero; [lra|].
      intros x Hx. apply aligned_other. right.
      apply Hall. apply in_map, in_map, Hx.
    + rewrite aligned_other.
      * rewrite IH; [lra | split; assumption | | lia].
        intros x Hx. apply Hq. simpl. auto.
      * left. apply Hall. apply in_map. apply nth_In. rewrite length_map. lia.
Qed.

End Aligned.

Lemma nth_map_any {A B : Type} (f : A -> B) (l : list A) (i : nat) (d : B) (d' : A) :
  (i < List.length l)%nat -> nth i (map f l) d = f (nth i l d').
Proof.
  revert i. induction l as [|x l IH]; intros [|i] Hi; simpl in *; try lia.
  - reflexivity.
  - apply IH. lia.
Qed.

Lemma Forall2_from_nth {A B : Type} (R : A -> B -> Prop) (da : A) (db : B)
      (xs : list A) (ys : list B) :
  List.length xs = List.length ys ->
  (forall i, (i < List.length xs)%nat -> R (nth i xs da) (nth i ys db)) ->
  Forall2 R xs ys.
Proof.
  revert ys. induction xs as [|x xs IH]; intros [|y ys] Hlen H; simpl in Hlen;
    try discriminate; constructor.
  - apply (H 0%nat). simpl. lia.
  - apply IH; [lia|]. intros i Hi. apply (H (S i)). simpl. lia.
Qed.

Lemma sum_from_nth {B : Type} (f : B -> Q) (db : B) (xs : list Q) (ys : list B) :
  List.length xs = List.length ys ->
  (forall i, (i < List.length xs)%nat -> nth i xs 0 == f (nth i ys db)) ->
  sumBy (fun v => v) xs == sumBy f ys.
Proof.
  revert ys. induction xs as [|x xs IH]; intros [|y ys] Hlen H; simpl in Hlen;
    try discriminate.
  - reflexivity.
  - rewrite !sumBy_cons.
    assert (x == f y) by (apply (H 0%nat); simpl; lia).
    assert (sumBy (fun v => v) xs == sumBy f ys).
    { apply IH; [lia|]. intros i Hi. apply (H (S i)). simpl. lia. }
    lra.
Qed.

Lemma normalizeProb_nonneg (p : Q) :
  0 <= p -> 0 <= orElse (normalizeProb (Num (Fin p))) 0.
Proof.
  intro Hp. destruct (normalizeProb_finite p) as [[H ->]|[H ->]]; simpl.
  - apply Qle_shift_div_l; lra.
  - exact Hp.
Qed.

(** The cleaned form of a list of aligned brackets. *)
Lemma normalizeDistribution_aligned (items : list (bounds * Q)) :
  exists q : bounds * Q -> Q,
    normalizeDistribution (map alignedRange items)
    = map (fun item => {| bnd := {| lower := lower (fst item); upper := upper (fst item) |};
                          prob := Some (q item) |}) items
    /\ ((forall item, In item items -> 0 <= snd item) ->
        forall item, In item items -> 0 <= q item).
Proof.
  set (scaled := fun r => orElse (normalizeProb (Raw.prob r)) 0).
  set (total := sumBy scaled (map alignedRange items)).
  exists (fun item => if Qlt_bool 0 total
                      then scaled (alignedRange item) / total
                      else scaled (alignedRange item)).
  split.
  - rewrite normalizeDistribution_shape. cbv zeta.
    rewrite filter_all by (rewrite Forall_map, Forall_forall; reflexivity).
    fold scaled. fold total. rewrite map_map.
    apply map_ext. intro item. simpl. rewrite !toNumber_ofBound. reflexivity.
  - intros Hnn item Hin.
    assert (0 <= scaled (alignedRange item))
      by (apply normalizeProb_nonneg, Hnn, Hin).
    destruct (Qlt_bool 0 total) eqn:E; [|assumption].
    apply Qlt_bool_iff in E. apply Qle_shift_div_l; lra.
Qed.

(** *** The mass a range puts on a bin *)

Lemma contribution_is_share (minB maxB step : Q) (r : range) (bin : bounds) :
  contribution minB maxB step r bin
  == uniformShare (prob r) (extent (minB - step) (maxB + step) r)
                  (extent (minB - step) (maxB + step) bin).
Proof.
  unfold contribution, uniformShare.
  change (expandRange r minB maxB step) with (extent (minB - step) (maxB + step) r).
  change (expandRange bin minB maxB step) with (extent (minB - step) (maxB + step) bin).
  set (src := extent (minB - step) (maxB + step) r).
  set (dst := extent (minB - step) (maxB + step) bin).
  destruct (prob r) as [p|]; [|reflexivity].
  cbv zeta. change (Qlt_bool 0 p) with (negb (Qle_bool p 0)).
  destruct (Qle_bool p 0); cbn [negb andb]; [reflexivity|].
  destruct (Qlt_bool 0 (snd src - fst src)); cbn [negb]; [|reflexivity].
  destruct (Qlt_bool 0 (overlapOf src dst)) eqn:E.
  - rewrite overlapOf_length. reflexivity.
  - apply Qlt_bool_false_iff in E.
    pose proof (overlapOf_nonneg src dst) as Hnn.
    assert (H0 : overlapLength src dst == 0) by (rewrite <- overlapOf_length; lra).
    rewrite H0. unfold Qdiv. lra.
Qed.

(** C2.  Before its final division, [aggregateRangesToStandard] holds in
    the slot of each standard bin the sum, over the venue's cleaned
    ranges, of the range's probability times the length of its overlap
    with the bin over the length of the range (open ends reaching one
    step beyond the grid's first finite lower and last finite upper
    bound); ranges without positive probability or positive length add
    nothing.  The result is that mass divided by the total over all bins
    when the total is positive, and the mass itself otherwise; a venue
    without a finite probability gets the empty array. *)
Theorem C2_mass_is_proportional_overlap
    (ranges : list Raw.range) (bins : list bounds) (m : meta) :
  let step := stepForMeta m in
  let below := findMinBound bins - step in
  let above := findMaxBound bins (findMinBound bins) step + step in
  let clean := normalizeDistribution ranges in
  let mass := fun bin : bounds =>
                sumBy (fun r : range =>
                         uniformShare (prob r) (extent below above r)
                                      (extent below above bin))
                      clean in
  let total := sumBy mass bins in
  (clean = [] -> aggregateRangesToStandard ranges bins m = [])
  /\ (clean <> [] ->
      Forall2 Qeq
              (aggregateRangesToStandard ranges bins m)
              (map (fun bin => if Qlt_bool 0 total then mass bin / total else mass bin)
                   bins)).
Proof.
  intros step below above clean mass total.
  split; [intro Hc; apply aggregate_empty; right; exact Hc|].
  intro Hc.
  assert (Hcases : bins = [] \/ bins <> [])
    by (destruct bins; [left; reflexivity | right; discriminate]).
  destruct Hcases as [Hb|Hb].
  { rewrite aggregate_empty by (left; exact Hb). rewrite Hb. constructor. }
  rewrite aggregate_unfold by assumption. cbv zeta.
  fold step clean.
  set (minB := findMinBound bins) in *.
  set (maxB := findMaxBound bins minB step) in *.
  set (totals := fold_left _ _ _).
  pose (b0 := mkBounds None None).
  assert (Hlen : List.length totals = List.length bins).
  { unfold totals. rewrite totals_length. apply length_map. }
  assert (Hslot : forall i, (i < List.length totals)%nat ->
                            nth i totals 0 == mass (nth i bins b0)).
  { intros i Hi. unfold totals.
    rewrite (totals_nth _ _ _ b0) by (rewrite ?length_map; lia).
    rewrite nth_zeros, Qplus_0_l. unfold mass.
    apply sumBy_ext. intros r _. apply contribution_is_share. }
  assert (Hsum : sumBy (fun v => v) totals == total).
  { unfold total. apply (sum_from_nth mass b0); assumption. }
  apply (Forall2_from_nth _ 0 0).
  { destruct (Qlt_bool 0 (sumBy (fun v => v) totals)); rewrite ?length_map; lia. }
  intros i Hi.
  assert (Hi' : (i < List.length bins)%nat).
  { destruct (Qlt_bool 0 (sumBy (fun v => v) totals)); rewrite ?length_map in Hi; lia. }
  rewrite (nth_map_any _ _ _ _ b0) by exact Hi'.
  destruct (Qlt_bool 0 (sumBy (fun v => v) totals)) eqn:E1;
    destruct (Qlt_bool 0 total) eqn:E2.
  - rewrite nth_quotient, Hslot, Hsum by lia. reflexivity.
  - apply Qlt_bool_iff in E1. apply Qlt_bool_false_iff in E2. lra.
  - apply Qlt_bool_false_iff in E1. apply Qlt_bool_iff in E2. lra.
  - apply Hslot. lia.
Qed.

(** C7 fails as stated.  A venue quoting only the tails below 0 and above
    100000 gets the grid of the two open bins (-oo, 100000] and [0, +oo),
    which overlap once their open ends are filled in.  The vector 1/5,
    4/5 sitting on that grid comes back from the normalizer as 7/15,
    8/15. *)
Lemma C7_normalizer_idempotent_counterexample :
  Sample.tailGrid = [Sample.below 100000; Sample.above 0]
  /\ map fst Sample.onTails = Sample.tailGrid
  /\ map snd Sample.onTails = [1 # 5; 4 # 5]
  /\ Forall2 Qeq
             (aggregateRangesToStandard (map alignedRange Sample.onTails)
                                        Sample.tailGrid Sample.jobs)
             [7 # 15; 8 # 15]
  /\ Forall2 Qeq
             (map probOf (normalizeDistribution (map alignedRange Sample.onTails)))
             [1 # 5; 4 # 5]
  /\ ~ Forall2 (fun out (r : range) => out == probOf r)
               (aggregateRangesToStandard (map alignedRange Sample.onTails)
                                          Sample.tailGrid Sample.jobs)
               (normalizeDistribution (map alignedRange Sample.onTails)).
Proof.
  split; [reflexivity|]. split; [reflexivity|]. split; [reflexivity|].
  split; [vm_compute; repeat constructor|].
  split; [vm_compute; repeat constructor|].
  intro H. vm_compute in H. inversion H as [|? ? ? ? Hhd _]; subst.
  vm_compute in Hhd. discriminate Hhd.
Qed.

(** C7, amended.  Feeding [aggregateRangesToStandard] one bracket per bin
    of a grid whose bins, open ends filled in, do not overlap, with
    non-negative probabilities, gives back the probabilities of the
    cleaned (renormalized) input. *)
Theorem C7_normalizer_idempotent (items : list (bounds * Q)) (m : meta) :
  let grid := map fst items in
  let step := stepForMeta m in
  let minBound := findMinBound grid in
  let maxBound := findMaxBound grid minBound step in
  isPartition (map (fun b : bounds => expandRange b minBound maxBound step) grid) ->
  (forall item, In item items -> 0 <= snd item) ->
  let ranges := map alignedRange items in
  Forall2 (fun out (r : range) => out == probOf r)
          (aggregateRangesToStandard ranges grid m)
          (normalizeDistribution ranges).
Proof.
  destruct items as [|item0 rest]; [intros; constructor|].
  assert (Hlen0 : (0 < List.length (item0 :: rest))%nat) by (simpl; lia).
  generalize dependent (item0 :: rest). clear item0 rest.
  intros items Hlen0 grid step minBound maxBound Hpart Hnn ranges.
  destruct (normalizeDistribution_aligned items) as (q & Hclean & Hq).
  specialize (Hq Hnn). fold ranges in Hclean.
  pose (b0 := mkBounds None None).
  assert (Hgrid : grid <> []).
  { unfold grid. destruct items; simpl in *; [lia | discriminate]. }
  assert (Hne : normalizeDistribution ranges <> []).
  { rewrite Hclean. destruct items; simpl in *; [lia | discriminate]. }
  rewrite aggregate_unfold by assumption.
  cbv zeta. fold step minBound maxBound.
  set (totals := fold_left _ _ _).
  assert (Hlen : List.length totals = List.length items).
  { unfold totals. rewrite totals_length, length_map. unfold grid. apply length_map. }
  assert (Hslot : forall i, (i < List.length totals)%nat ->
                            nth i totals 0 == q (nth i items (b0, 0))).
  { intros i Hi. unfold totals.
    rewrite (totals_nth _ _ _ b0)
      by (rewrite ?length_map; unfold grid; rewrite ?length_map; lia).
    rewrite nth_zeros, Hclean, Qplus_0_l.
    apply (aligned_diagonal minBound maxBound step q b0 items i); auto. lia. }
  assert (Hsum : sumBy (fun v => v) totals == sumBy probOf (normalizeDistribution ranges)).
  { rewrite Hclean, sumBy_map. unfold probOf. simpl.
    apply (sum_from_nth q (b0, 0)); [exact Hlen | exact Hslot]. }
  assert (Hprob : forall i, (i < List.length items)%nat ->
            probOf (nth i (normalizeDistribution ranges) (mkRange b0 None))
            == q (nth i items (b0, 0))).
  { intros i Hi. rewrite Hclean.
    rewrite (nth_map_any _ _ _ _ (b0, 0)) by exact Hi. reflexivity. }
  destruct (normalized_sum_cases ranges) as [Hone|Hzero].
  - assert (Ht : Qlt_bool 0 (sumBy (fun v => v) totals) = true)
      by (apply Qlt_bool_iff; lra).
    rewrite Ht.
    apply (Forall2_from_nth _ 0 (mkRange b0 None)).
    + rewrite length_map, Hlen, Hclean, length_map. reflexivity.
    + intros i Hi. rewrite length_map in Hi.
      rewrite nth_quotient, Hslot, Hprob, Hsum, Hone by lia.
      field.
  - assert (Ht : Qlt_bool 0 (sumBy (fun v => v) totals) = false)
      by (apply Qlt_bool_false_iff; lra).
    rewrite Ht.
    apply (Forall2_from_nth _ 0 (mkRange b0 None)).
    + rewrite Hlen, Hclean, length_map. reflexivity.
    + intros i Hi. rewrite Hslot, Hprob by lia. reflexivity.
Qed.

(** *** Latest snapshot and time series *)

Lemma filterMap_In {A B : Type} (f : A -> option B) (xs : list A) (y : B) :
  In y (filterMap f xs) <-> exists x, In x xs /\ f x = Some y.
Proof.
  induction xs as [|x xs IH]; simpl.
  - split; [tauto | intros (x & [] & _)].
  - destruct (f x) as [z|] eqn:E; simpl; rewrite IH; split.
    + intros [<-|(x' & Hin & Hf)]; [exists x; auto | exists x'; auto].
    + intros (x' & [<-|Hin] & Hf); [left; congruence | right; exists x'; auto].
    + intros (x' & Hin & Hf). exists x'. auto.
    + intros (x' & [<-|Hin] & Hf); [congruence | exists x'; auto].
Qed.

Lemma filterMap_sorted {A B : Type} (f : A -> option B)
      (RA : A -> A -> Prop) (RB : B -> B -> Prop) (xs : list A) :
  (forall a a' b b', RA a a' -> f a = Some b -> f a' = Some b' -> RB b b') ->
  StronglySorted RA xs -> StronglySorted RB (filterMap f xs).
Proof.
  intros Hf Hs. induction Hs as [|x xs Hs IH Hall]; simpl.
  - constructor.
  - destruct (f x) as [y|] eqn:E; [|exact IH].
    constructor; [exact IH|].
    rewrite Forall_forall in *. intros y' Hy'.
    apply filterMap_In in Hy'. destruct Hy' as (x' & Hin & Hfx').
    apply (Hf x x' y y'); auto.
Qed.

Lemma stamped_In (getTime : string -> option Z) (snapshots : list snapshot) snap ts :
  In (snap, ts) (stamped getTime snapshots)
  <-> In snap snapshots /\ timestamp getTime snap = Some ts.
Proof.
  unfold stamped. rewrite filterMap_In. split.
  - intros (x & Hin & Hf). destruct (timestamp getTime x) eqn:E; [|discriminate].
    inversion Hf; subst. auto.
  - intros [Hin Hts]. exists snap. rewrite Hts. auto.
Qed.

Lemma isPositive_Z (z : Z) : isPositive (Fin (inject_Z z)) = true <-> (0 < z)%Z.
Proof.
  simpl. rewrite Qlt_bool_iff. unfold Qlt, inject_Z. simpl. lia.
Qed.

Lemma isPositive_Z_false (z : Z) : isPositive (Fin (inject_Z z)) = false <-> (z <= 0)%Z.
Proof.
  simpl. rewrite Qlt_bool_false_iff. unfold Qle, inject_Z. simpl. lia.
Qed.

(** [sort((a, b) => a.ts - b.ts)] puts the timestamps in ascending order. *)
Lemma sort_ascending_ts {A : Type} (l : list (A * Z)) :
  StronglySorted (fun a b => (snd a <= snd b)%Z)
                 (sortBy (fun a b : A * Z => Fin (inject_Z (snd a - snd b))) l).
Proof.
  apply Sorted_StronglySorted; [intros x y z; lia|].
  apply sortBy_sorted; intros x y H.
  - apply isPositive_Z_false in H. lia.
  - apply isPositive_Z in H. lia.
Qed.

(** [sort((a, b) => b.ts - a.ts)] puts them in descending order. *)
Lemma sort_descending_ts {A : Type} (l : list (A * Z)) :
  StronglySorted (fun a b => (snd b <= snd a)%Z)
                 (sortBy (fun a b : A * Z => Fin (inject_Z (snd b - snd a))) l).
Proof.
  apply Sorted_StronglySorted; [intros x y z; lia|].
  apply sortBy_sorted; intros x y H.
  - apply isPositive_Z_false in H. lia.
  - apply isPositive_Z in H. lia.
Qed.

Lemma seriesRow_ts (m : meta) provider cutoff (item : snapshot * Z) row :
  seriesRow m provider cutoff item = Some row -> fst (fst row) = snd item.
Proof.
  unfold seriesRow. destruct item as [snap ts].
  destruct (Qlt_bool _ _); [discriminate|].
  destruct (readExpectation snap m provider) as [[[value|] [lo|]] [hi|]];
    intro H; inversion H; reflexivity.
Qed.

(** C9.  When some snapshot has a parseable [as_of], [pickLatestSnapshot]
    returns a snapshot of the list whose timestamp is the largest among
    the parseable ones; the points of [buildExpectationSeries] are in
    ascending timestamp order; and each point carries the timestamp of a
    snapshot that parsed. *)
Theorem C9_latest_is_max_and_series_ascending
    (Date_getTime : string -> option Z) (snapshots : list snapshot)
    (m : meta) (provider : string) (lookbackDays : Q) :
  (exists snap, In snap snapshots /\ timestamp Date_getTime snap <> None) ->
  (exists latest ts,
      pickLatestSnapshot Date_getTime snapshots = Some latest
      /\ In latest snapshots
      /\ timestamp Date_getTime latest = Some ts
      /\ forall snap ts', In snap snapshots -> timestamp Date_getTime snap = Some ts' ->
                          (ts' <= ts)%Z)
  /\ (let pts := points (buildExpectationSeries Date_getTime snapshots m provider lookbackDays) in
      StronglySorted Z.le (map fst pts)
      /\ forall x y, In (x, y) pts ->
                     exists snap, In snap snapshots /\ timestamp Date_getTime snap = Some x).
Proof.
  intros (snap0 & Hin0 & Hts0).
  split.
  - unfold pickLatestSnapshot.
    set (cmp := fun a b : snapshot * Z => Fin (inject_Z (snd b - snd a))).
    pose proof (sort_descending_ts (stamped Date_getTime snapshots)) as Hs.
    pose proof (sortBy_perm cmp (stamped Date_getTime snapshots)) as Hp.
    fold cmp in Hs.
    destruct (sortBy cmp (stamped Date_getTime snapshots)) as [|[latest ts] rest] eqn:E.
    + exfalso. destruct (timestamp Date_getTime snap0) as [t0|] eqn:E0; [|congruence].
      assert (Hin : In (snap0, t0) (stamped Date_getTime snapshots))
        by (apply stamped_In; auto).
      apply (Permutation_in _ (Permutation_sym Hp)) in Hin. destruct Hin.
    + simpl. exists latest, ts.
      assert (Hl : In (latest, ts) (stamped Date_getTime snapshots)).
      { apply (Permutation_in _ Hp). simpl. auto. }
      apply stamped_In in Hl. destruct Hl as [Hl1 Hl2].
      repeat split; auto.
      intros snap ts' Hin Hts.
      assert (Hi : In (snap, ts') ((latest, ts) :: rest)).
      { apply (Permutation_in _ (Permutation_sym Hp)). apply stamped_In. auto. }
      inversion Hs as [|? ? _ Hall]; subst.
      destruct Hi as [Hi|Hi]; [inversion Hi; lia|].
      rewrite Forall_forall in Hall. apply (Hall _ Hi).
  - cbv zeta. unfold buildExpectationSeries.
    set (cmp := fun a b : snapshot * Z => Fin (inject_Z (snd a - snd b))).
    pose proof (sort_ascending_ts (stamped Date_getTime snapshots)) as Hs.
    pose proof (sortBy_perm cmp (stamped Date_getTime snapshots)) as Hp.
    fold cmp in Hs.
    destruct (sortBy cmp (stamped Date_getTime snapshots)) as [|first rest] eqn:E.
    + simpl. split; [constructor | tauto].
    + rewrite <- E in *. cbn [points].
      set (cutoff := inject_Z (snd (last _ first)) - lookbackDays * 24 * 60 * 60 * 1000).
      split.
      * rewrite map_map.
        assert (Hrows : StronglySorted (fun r r' : Z * Q * option (Q * Q) =>
                                          (fst (fst r) <= fst (fst r'))%Z)
                          (filterMap (seriesRow m provider cutoff)
                                     (sortBy cmp (stamped Date_getTime snapshots)))).
        { apply filterMap_sorted with (RA := fun a b : snapshot * Z => (snd a <= snd b)%Z);
            [|exact Hs].
          intros a a' b b' Hle Ha Ha'.
          apply seriesRow_ts in Ha, Ha'. lia. }
        clear -Hrows. induction Hrows as [|r rows _ IH Hall]; simpl; constructor; auto.
        rewrite Forall_map. exact Hall.
      * intros x y Hxy. apply in_map_iff in Hxy.
        destruct Hxy as (row & Hrow & Hin).
        apply filterMap_In in Hin. destruct Hin as ([snap ts] & Hin & Hf).
        apply seriesRow_ts in Hf. rewrite Hrow in Hf. simpl in Hf. subst x.
        apply (Permutation_in _ Hp) in Hin. apply stamped_In in Hin.
        exists snap. exact Hin.
Qed.

(** *** Sorted lists under a map *)

Lemma StronglySorted_map {A B : Type} (f : A -> B) (R : B -> B -> Prop) (l : list A) :
  StronglySorted (fun a b => R (f a) (f b)) l -> StronglySorted R (map f l).
Proof.
  induction 1 as [|a l Hs IH Hall]; simpl; constructor; auto.
  rewrite Forall_map. exact Hall.
Qed.

End PapersFacts.

(** ** The combined-distribution page (js/priors.js) *)

Module PriorsFacts.
Import Priors.

Lemma venueRanges_In (key : string) (s : Papers.venueMap) (r : Raw.range) :
  In r (Papers.venueRanges key s) -> exists ranges, In (key, ranges) s /\ In r ranges.
Proof.
  induction s as [|[k ranges] s IH]; simpl; [tauto|].
  destruct (String.eqb_spec k key) as [->|_].
  - intro H. exists ranges. auto.
  - intro H. destruct (IH H) as (ranges' & Hin & Hr). exists ranges'. auto.
Qed.

(** Without a finite probability the cleaning pass keeps nothing. *)
Lemma normalizeDistribution_no_finite (ranges : list Raw.range) :
  (forall r, In r ranges -> toNumber (Raw.prob r) = None) ->
  normalizeDistribution ranges = [].
Proof.
  intro H. unfold normalizeDistribution.
  assert (E : filter hasProb (map cleanRange ranges) = []).
  { induction ranges as [|r ranges IH]; simpl; [reflexivity|].
    unfold hasProb at 1. simpl. unfold normalizeProb.
    rewrite (H r) by (simpl; auto). simpl.
    apply IH. intros r' Hr'. apply H. simpl. auto. }
  rewrite E. reflexivity.
Qed.

Lemma papers_normalizeDistribution_no_finite (ranges : list Raw.range) :
  (forall r, In r ranges -> toNumber (Raw.prob r) = None) ->
  Papers.normalizeDistribution ranges = [].
Proof.
  intro H. rewrite PapersFacts.normalizeDistribution_shape. cbv zeta.
  assert (E : filter (fun r => isFinite (toNumber (Raw.prob r))) ranges = []).
  { induction ranges as [|r ranges IH]; simpl; [reflexivity|].
    rewrite (H r) by (simpl; auto). simpl.
    apply IH. intros r' Hr'. apply H. simpl. auto. }
  rewrite E. reflexivity.
Qed.

(** When no bracket of any venue of the current snapshot has a finite
    probability, both cleaned lists are empty, no combined distribution
    is built, [renderEvent] of js/priors.js takes the error exit that
    renders nothing, and the normalizer of the posterior page returns no
    probabilities either. *)
Lemma priors_page_rejects_without_finite_probability
    (Date_getTime : string -> option Z)
    (snapshots : list Papers.snapshot) (current : Papers.snapshot) :
  pickLatestSnapshot Date_getTime snapshots = Some current ->
  (forall key ranges r,
      In (key, ranges) (Papers.sources current) -> In r ranges ->
      toNumber (Raw.prob r) = None) ->
  renderEvent Date_getTime snapshots = NoBracketMarkets
  /\ cs_combined (buildCombinedSnapshot current) = []
  /\ Papers.combineDistributions (Papers.sources current) = []
  /\ (forall key grid m,
         Papers.aggregateRangesToStandard
           (Papers.venueRanges key (Papers.sources current)) grid m = []).
Proof.
  intros Hlatest Hnone.
  assert (Hvenue : forall key r, In r (Papers.venueRanges key (Papers.sources current)) ->
                                 toNumber (Raw.prob r) = None).
  { intros key r Hr. apply venueRanges_In in Hr.
    destruct Hr as (ranges & Hin & Hr). apply (Hnone key ranges r Hin Hr). }
  assert (Hk : normalizeDistribution (Papers.venueRanges "kalshi" (Papers.sources current)) = [])
    by (apply normalizeDistribution_no_finite, Hvenue).
  assert (Hp : normalizeDistribution (Papers.venueRanges "polymarket" (Papers.sources current)) = [])
    by (apply normalizeDistribution_no_finite, Hvenue).
  repeat split.
  - unfold renderEvent. rewrite Hlatest.
    unfold buildCombinedSnapshot. simpl. rewrite Hk, Hp. reflexivity.
  - unfold buildCombinedSnapshot. simpl. rewrite Hk, Hp. reflexivity.
  - unfold Papers.combineDistributions, Papers.ingest.
    rewrite !papers_normalizeDistribution_no_finite by (apply Hvenue).
    reflexivity.
  - intros key grid m. apply PapersFacts.aggregate_empty. right.
    apply papers_normalizeDistribution_no_finite, Hvenue.
Qed.

(** C8.  On a dated snapshot in which no venue quotes anything, the page
    of js/priors.js takes its error exit, no combined distribution or
    posterior bin is built, and [expectedFromRanges] has no value, so the
    table shows no data and the venue series stay empty; but the
    posterior series of js/papers.js plots the value 0 at the snapshot's
    timestamp. *)
Theorem C8_snapshot_without_quotes_is_plotted :
  renderEvent Sample.clock [Sample.noQuotes] = NoBracketMarkets
  /\ Papers.combineDistributions (Papers.sources Sample.noQuotes) = []
  /\ Papers.getPosteriorBins Sample.noQuotes
                             (Papers.getBinsFromSources (Papers.sources Sample.noQuotes))
     = []
  /\ Papers.expectedFromRanges
       (Papers.venueRanges "kalshi" (Papers.sources Sample.noQuotes))
       (Papers.getBinsFromSources (Papers.sources Sample.noQuotes))
     = None
  /\ Papers.renderTable Sample.noQuotes Sample.jobs = None
  /\ Papers.points (Papers.buildExpectationSeries Sample.clock [Sample.noQuotes]
                                                  Sample.jobs "kalshi" 7)
     = []
  /\ Papers.points (Papers.buildExpectationSeries Sample.clock [Sample.noQuotes]
                                                  Sample.jobs "posterior" 7)
     = [(1767965400000%Z, 0)].
Proof.
  repeat split; vm_compute; reflexivity.
Qed.

End PriorsFacts.

(** ** The program on the sample data *)

Module Examples.
Import Papers.

Example grid_of_quotes :
  Sample.grid
  = [{| lower := None; upper := Some 0 |};
     Sample.closed 0 25000;
     Sample.closed 25000 50000;
     Sample.above 50000].
Proof. reflexivity. Qed.

(** 0.3 on [0, 50000) splits evenly over the two 25000-wide bins; 0.7 on
    the open top goes to the open top bin. *)
Example quotes_on_grid :
  Forall2 Qeq (aggregateRangesToStandard Sample.quotes Sample.grid Sample.jobs)
          [0; 15 # 100; 15 # 100; 7 # 10].
Proof. vm_compute. repeat constructor. Qed.

Example lone_venue_means :
  Forall2 (fun (out : PBin.t) (q : Q) => exists mu, PBin.mean out = Some mu /\ mu == q)
          (getPosteriorBins Sample.loneVenue []) [4 # 10; 6 # 10].
Proof.
  vm_compute. repeat constructor; eexists; (split; [reflexivity|]); reflexivity.
Qed.

(** An aligned vector comes back unchanged. *)
Example aligned_comes_back :
  Forall2 Qeq
          (aggregateRangesToStandard (map alignedRange Sample.onGrid) Sample.grid Sample.jobs)
          [1 # 10; 2 # 10; 3 # 10; 4 # 10].
Proof. vm_compute. repeat constructor. Qed.

Example series_of_three :
  map fst (points (buildExpectationSeries
                     Sample.clock [Sample.loneVenue; Sample.undated; Sample.earlier]
                     Sample.jobs "posterior" 7))
  = [1767879000000%Z; 1767965400000%Z].
Proof. reflexivity. Qed.

End Examples.

(** ** The theorems at the sample data *)

Module Witnesses.
Import Papers PapersFacts.

Lemma C1_every_bin_filled_sum_one_witness :
  sumBy (fun v => v) (aggregateRangesToStandard Sample.quotes Sample.grid Sample.jobs) == 1
  /\ nth 0 (aggregateRangesToStandard Sample.quotes Sample.grid Sample.jobs) 0 == 0.
Proof.
  destruct (C1_every_bin_filled_sum_one Sample.quotes Sample.grid Sample.jobs
                                        (mkBounds None None))
    as (_ & Hsum & _ & Hzero).
  - exists (nth 0 (normalizeDistribution Sample.quotes) (mkRange (mkBounds None None) None)).
    exists (Sample.closed 0 25000).
    exists (300 # 1000).
    split; [vm_compute; auto|].
    split; [vm_compute; auto|].
    split; [vm_compute; reflexivity|].
    split; vm_compute; reflexivity.
  - split; [exact Hsum|].
    apply Hzero; [vm_compute; lia|].
    intros r [<-|[<-|[]]]; vm_compute; discriminate.
Defined.

Lemma C2_mass_is_proportional_overlap_witness :
  let below := findMinBound Sample.grid - stepForMeta Sample.jobs in
  let above := findMaxBound Sample.grid (findMinBound Sample.grid) (stepForMeta Sample.jobs)
               + stepForMeta Sample.jobs in
  let mass := fun bin : bounds =>
                sumBy (fun r : range =>
                         uniformShare (prob r) (extent below above r)
                                      (extent below above bin))
                      (normalizeDistribution Sample.quotes) in
  let total := sumBy mass Sample.grid in
  Forall2 Qeq
          (aggregateRangesToStandard Sample.quotes Sample.grid Sample.jobs)
          (map (fun bin => if Qlt_bool 0 total then mass bin / total else mass bin)
               Sample.grid)
  /\ mass (Sample.closed 0 25000) == (3 # 10) * (25000 / 50000)
  /\ total == 1.
Proof.
  intros below above mass total. split.
  - apply (proj2 (C2_mass_is_proportional_overlap Sample.quotes Sample.grid Sample.jobs)).
    vm_compute. discriminate.
  - split; vm_compute; reflexivity.
Defined.

Lemma C3_open_bin_width_is_median_witness :
  estimateBinWidth Sample.unevenBins = 20000
  /\ isTheMedian (estimateBinWidth Sample.unevenBins)
                 (positiveClosedWidths Sample.unevenBins)
  /\ midpointForBin (Sample.above 60000) (estimateBinWidth Sample.unevenBins)
     == 60000 + 20000 / 2.
Proof.
  destruct (C3_open_bin_width_is_median Sample.unevenBins)
    as (_ & Hmed & Hlit & _ & _ & Hup).
  split; [apply Hlit; reflexivity|].
  split; [apply Hmed; discriminate|].
  rewrite (Hup 60000). rewrite (Hlit eq_refl). reflexivity.
Defined.

Lemma C6_single_venue_fallback_witness :
  let own := normalizeDistribution (venueRanges "kalshi" (sources Sample.loneVenue)) in
  let t := sumBy probOf own in
  Forall2 (fun (out : PBin.t) (r : range) =>
             PBin.lower out = ofBound (lower r)
             /\ PBin.upper out = ofBound (upper r)
             /\ (exists mu p, PBin.mean out = Some mu /\ prob r = Some p
                              /\ mu == if Qlt_bool 0 t then p / t else 0)
             /\ PBin.p10 out = None /\ PBin.p90 out = None)
          (getPosteriorBins Sample.loneVenue [])
          (sortBy (fun a b : range => sortRanges a b) own)
  /\ t == 1.
Proof.
  intros own t. split.
  - apply (C6_single_venue_fallback Sample.loneVenue [] Kalshi
                                    (venueRanges "kalshi" (sources Sample.loneVenue))).
    + reflexivity.
    + split; reflexivity.
    + vm_compute. repeat constructor.
  - vm_compute. reflexivity.
Defined.

Lemma C7_normalizer_idempotent_witness :
  Forall2 (fun out (r : range) => out == probOf r)
          (aggregateRangesToStandard (map alignedRange Sample.onGrid) Sample.grid Sample.jobs)
          (normalizeDistribution (map alignedRange Sample.onGrid)).
Proof.
  apply (C7_normalizer_idempotent Sample.onGrid Sample.jobs).
  - split.
    + vm_compute. repeat constructor.
    + vm_compute. repeat (constructor; try discriminate).
  - intros item [<-|[<-|[<-|[<-|[]]]]]; vm_compute; discriminate.
Defined.

Lemma C9_latest_is_max_and_series_ascending_witness :
  pickLatestSnapshot Sample.clock [Sample.earlier; Sample.undated; Sample.loneVenue]
  = Some Sample.loneVenue
  /\ StronglySorted Z.le
       (map fst (points (buildExpectationSeries
                           Sample.clock [Sample.loneVenue; Sample.undated; Sample.earlier]
                           Sample.jobs "posterior" 7))).
Proof.
  split.
  - destruct (C9_latest_is_max_and_series_ascending
                Sample.clock [Sample.earlier; Sample.undated; Sample.loneVenue]
                Sample.jobs "posterior" 7) as [(latest & ts & H & _) _].
    + exists Sample.earlier. split; [simpl; auto | discriminate].
    + reflexivity.
  - apply (C9_latest_is_max_and_series_ascending
             Sample.clock [Sample.loneVenue; Sample.undated; Sample.earlier]
             Sample.jobs "posterior" 7).
    exists Sample.earlier. split; [simpl; auto | discriminate].
Defined.

End Witnesses.


(* ================================================================== *)
(** * Part III: further properties of the two pages *)
(* ================================================================== *)

(** ** Shared helpers *)

Lemma sumBy_perm {A : Type} (f : A -> Q) (l l' : list A) :
  Permutation l l' -> sumBy f l == sumBy f l'.
Proof.
  induction 1 as [|x l l' _ IH|x y l|l l' l'' _ IH1 _ IH2].
  - reflexivity.
  - rewrite !sumBy_cons, IH. reflexivity.
  - rewrite !sumBy_cons. lra.
  - rewrite IH1. exact IH2.
Qed.

Lemma weighted_mean_bounds {A : Type} (w v : A -> Q) (xs : list A) (lo hi : Q) :
  (forall x, In x xs -> 0 <= w x) ->
  (forall x, In x xs -> lo <= v x <= hi) ->
  lo * sumBy w xs <= sumBy (fun x => w x * v x) xs <= hi * sumBy w xs.
Proof.
  induction xs as [|x xs IH]; intros Hw Hv.
  - rewrite !sumBy_nil. lra.
  - rewrite !sumBy_cons.
    assert (0 <= w x) by (apply Hw; simpl; auto).
    assert (lo <= v x <= hi) as [H1 H2] by (apply Hv; simpl; auto).
    destruct IH as [IH1 IH2];
      [intros; apply Hw; simpl; auto | intros; apply Hv; simpl; auto |].
    assert (0 <= w x * (v x - lo)) by (apply Qmult_le_0_compat; lra).
    assert (0 <= w x * (hi - v x)) by (apply Qmult_le_0_compat; lra).
    split; lra.
Qed.

(** ** The bin normalizer, beyond its main case *)

Module NormalizerFacts.
Import Papers PapersFacts.

Lemma totals_slots minB maxB step (b0 : bounds) bins clean i :
  (i < List.length bins)%nat ->
  nth i (fold_left (addRange minB maxB step bins) clean (map (fun _ => 0) bins)) 0
  == sumBy (fun r => contribution minB maxB step r (nth i bins b0)) clean.
Proof.
  intro Hi.
  rewrite (totals_nth _ _ _ b0) by (rewrite ?length_map; auto).
  rewrite nth_zeros. lra.
Qed.

Lemma totals_nonneg minB maxB step bins clean i :
  0 <= nth i (fold_left (addRange minB maxB step bins) clean (map (fun _ => 0) bins)) 0.
Proof.
  destruct (Nat.lt_ge_cases i (List.length bins)) as [Hi|Hi].
  - rewrite (totals_slots _ _ _ (mkBounds None None)) by assumption.
    apply sumBy_nonneg. intros; apply contribution_nonneg.
  - rewrite nth_overflow; [lra|]. rewrite totals_length, length_map. exact Hi.
Qed.

(** X1.  [aggregateRangesToStandard] returns the empty array exactly when
    there is no standard bin or no range with a finite probability;
    otherwise it returns one number per standard bin.  No entry is ever
    negative, and the entries either sum to 1 or are all zero. *)
Theorem X1_aggregate_is_empty_or_complete
    (ranges : list Raw.range) (bins : list bounds) (m : meta) :
  let out := aggregateRangesToStandard ranges bins m in
  (out = [] <-> bins = [] \/ normalizeDistribution ranges = [])
  /\ (out <> [] -> List.length out = List.length bins)
  /\ (forall i, 0 <= nth i out 0)
  /\ (sumBy (fun v => v) out == 1 \/ forall i, nth i out 0 == 0).
Proof.
  cbv zeta.
  assert (Hcases : (bins = [] \/ normalizeDistribution ranges = [])
                   \/ (bins <> [] /\ normalizeDistribution ranges <> [])).
  { destruct bins; auto. destruct (normalizeDistribution ranges); auto.
    right. split; discriminate. }
  destruct Hcases as [H|[Hb Hc]].
  { rewrite (aggregate_empty ranges bins m H).
    repeat split; auto; try congruence.
    - intro i. destruct i; simpl; lra.
    - right. intro i. destruct i; reflexivity. }
  rewrite aggregate_unfold by assumption. cbv zeta.
  set (step := stepForMeta m). set (minB := findMinBound bins).
  set (maxB := findMaxBound bins minB step).
  set (totals := fold_left _ _ _).
  assert (Hlen : List.length totals = List.length bins).
  { unfold totals. rewrite totals_length. apply length_map. }
  assert (Hnn : forall i, 0 <= nth i totals 0) by (intro i; apply totals_nonneg).
  assert (Hpos : (0 < List.length bins)%nat) by (destruct bins; [congruence | simpl; lia]).
  destruct (Qlt_bool 0 (sumBy (fun v => v) totals)) eqn:E.
  - apply Qlt_bool_iff in E.
    split.
    { split.
      - intro H. apply (f_equal (@List.length Q)) in H.
        rewrite length_map in H. simpl in H. lia.
      - intros [H|H]; congruence. }
    split; [intros _; rewrite length_map; exact Hlen|].
    split.
    + intro i. rewrite nth_quotient. apply Qle_shift_div_l; [exact E|].
      specialize (Hnn i). lra.
    + left. apply sum_of_quotients; [lra | reflexivity].
  - apply Qlt_bool_false_iff in E.
    split.
    { split.
      - intro H. apply (f_equal (@List.length Q)) in H. simpl in H. lia.
      - intros [H|H]; congruence. }
    split; [intros _; exact Hlen|].
    split; [exact Hnn|].
    right. intro i.
    destruct (Nat.lt_ge_cases i (List.length totals)) as [Hi|Hi].
    + apply (nonneg_sum_zero (fun v => v) totals (nth i totals 0)).
      * intros y Hy. destruct (In_nth totals y 0 Hy) as (k & _ & <-). apply Hnn.
      * exact E.
      * apply nth_In. exact Hi.
    + rewrite nth_overflow by lia. reflexivity.
Qed.

(** *** Conservation of mass on a grid without gaps *)

Ltac qminmax :=
  repeat match goal with
         | |- context [Qmax ?a ?b] =>
             let H := fresh in
             let x := fresh "mx" in
             pose proof (Q.max_spec a b) as H;
             set (x := Qmax a b) in *; clearbody x; destruct H as [[? ?]|[? ?]]
         | |- context [Qmin ?a ?b] =>
             let H := fresh in
             let x := fresh "mn" in
             pose proof (Q.min_spec a b) as H;
             set (x := Qmin a b) in *; clearbody x; destruct H as [[? ?]|[? ?]]
         | H0 : context [Qmax ?a ?b] |- _ =>
             let H := fresh in
             let x := fresh "mx" in
             pose proof (Q.max_spec a b) as H;
             set (x := Qmax a b) in *; clearbody x; destruct H as [[? ?]|[? ?]]
         | H0 : context [Qmin ?a ?b] |- _ =>
             let H := fresh in
             let x := fresh "mn" in
             pose proof (Q.min_spec a b) as H;
             set (x := Qmin a b) in *; clearbody x; destruct H as [[? ?]|[? ?]]
         end;
  lra.

Lemma overlap_additive (sl su a b c : Q) :
  a <= b -> b <= c ->
  overlapOf (sl, su) (a, b) + overlapOf (sl, su) (b, c) == overlapOf (sl, su) (a, c).
Proof. intros Hab Hbc. unfold overlapOf. simpl. qminmax. Qed.

Lemma overlap_empty_interval (sl su a b : Q) : a == b -> overlapOf (sl, su) (a, b) == 0.
Proof. intro H. unfold overlapOf. simpl. qminmax. Qed.

Lemma overlap_same_ends (sl su a a' b : Q) :
  a == a' -> overlapOf (sl, su) (a, b) == overlapOf (sl, su) (a', b).
Proof. intro H. unfold overlapOf. simpl. qminmax. Qed.

Lemma overlap_inside (sl su lo hi : Q) :
  lo <= sl -> sl <= su -> su <= hi -> overlapOf (sl, su) (lo, hi) == su - sl.
Proof. intros. unfold overlapOf. simpl. qminmax. Qed.

Lemma chain_ordered (from upto : Q) (l : list (Q * Q)) : isChain from l upto -> from <= upto.
Proof.
  revert from. induction l as [|i l IH]; simpl; intros from H.
  - lra.
  - destruct H as (H1 & H2 & H3). specialize (IH _ H3). lra.
Qed.

(** Over intervals lying end to end, the overlaps with a range add up to
    its overlap with the whole stretch. *)
Lemma chain_overlap (sl su from upto : Q) (l : list (Q * Q)) :
  isChain from l upto ->
  sumBy (fun i => overlapOf (sl, su) i) l == overlapOf (sl, su) (from, upto).
Proof.
  revert from. induction l as [|[a b] l IH]; simpl; intros from H.
  - rewrite sumBy_nil, overlap_empty_interval by assumption. reflexivity.
  - destruct H as (H1 & H2 & H3). simpl in *.
    rewrite sumBy_cons, (IH _ H3).
    pose proof (chain_ordered _ _ _ H3).
    rewrite (overlap_same_ends sl su from a upto) by lra.
    apply overlap_additive; assumption.
Qed.

Lemma spread_sum p w (src : Q * Q) minB maxB step bins totals :
  List.length totals = List.length bins ->
  sumBy (fun v => v) (spread p w src minB maxB step bins totals)
  == sumBy (fun v => v) totals
     + p * (sumBy (fun b : bounds => overlapOf src (expandRange b minB maxB step)) bins / w).
Proof.
  revert totals. induction bins as [|b bins IH]; intros [|t totals] Hlen;
    simpl in Hlen; try discriminate.
  - simpl. rewrite !sumBy_nil. unfold Qdiv. ring.
  - cbn [spread]. rewrite !sumBy_cons, IH by lia.
    pose proof (overlapOf_nonneg src (expandRange b minB maxB step)) as Hnn.
    destruct (Qlt_bool 0 _) eqn:E.
    + unfold Qdiv. ring.
    + apply Qlt_bool_false_iff in E.
      assert (H0 : overlapOf src (expandRange b minB maxB step) == 0) by lra.
      rewrite H0. unfold Qdiv. ring.
Qed.

Lemma sum_zeros {A : Type} (xs : list A) : sumBy (fun v => v) (map (fun _ => 0) xs) == 0.
Proof.
  induction xs as [|x xs IH]; simpl; [reflexivity|].
  rewrite sumBy_cons, IH. lra.
Qed.

(** X2.  On a grid whose expanded bins lie end to end without gaps, a
    venue whose probabilities are not negative and whose ranges of
    positive probability have positive width and lie within the grid
    loses no mass: before the final division the slots already sum to 1,
    so each output entry is exactly the sum of the shares the ranges
    contribute to that bin. *)
Theorem X2_mass_is_conserved
    (ranges : list Raw.range) (bins : list bounds) (m : meta) (from upto : Q) (b0 : bounds) :
  let step := stepForMeta m in
  let minBound := findMinBound bins in
  let maxBound := findMaxBound bins minBound step in
  let expand := fun b : bounds => expandRange b minBound maxBound step in
  let clean := normalizeDistribution ranges in
  isChain from (map expand bins) upto ->
  (forall (r : range) p, In r clean -> prob r = Some p -> 0 <= p) ->
  (forall (r : range) p, In r clean -> prob r = Some p -> 0 < p ->
                         from <= fst (expand r) /\ fst (expand r) < snd (expand r)
                         /\ snd (expand r) <= upto) ->
  0 < sumBy probOf clean ->
  forall i, (i < List.length bins)%nat ->
            nth i (aggregateRangesToStandard ranges bins m) 0
            == sumBy (fun r => contribution minBound maxBound step r (nth i bins b0)) clean.
Proof.
  intros step minBound maxBound expand clean Hchain Hnn Hin Htot i Hi.
  assert (Hb : bins <> []) by (intros ->; simpl in Hi; lia).
  assert (Hc : normalizeDistribution ranges <> []).
  { fold clean. intros E. rewrite E, sumBy_nil in Htot. lra. }
  rewrite aggregate_unfold by assumption. cbv zeta.
  fold step minBound maxBound clean.
  assert (Hsum : forall cl totals,
             (forall r, In r cl -> In r clean) ->
             List.length totals = List.length bins ->
             sumBy (fun v => v) (fold_left (addRange minBound maxBound step bins) cl totals)
             == sumBy (fun v => v) totals + sumBy probOf cl).
  { induction cl as [|r cl IH]; intros totals Hsub Hlen; simpl.
    - rewrite sumBy_nil. lra.
    - rewrite IH; [|intros; apply Hsub; simpl; auto | rewrite addRange_length; exact Hlen].
      rewrite sumBy_cons.
      assert (Hr : In r clean) by (apply Hsub; simpl; auto).
      enough (sumBy (fun v => v) (addRange minBound maxBound step bins totals r)
              == sumBy (fun v => v) totals + probOf r) as -> by lra.
      unfold addRange, probOf.
      destruct (prob r) as [p|] eqn:Ep; cbn [orElse]; [|lra].
      pose proof (Hnn r p Hr Ep) as Hp0.
      destruct (Qle_bool p 0) eqn:Ele.
      { apply Qle_bool_iff in Ele. lra. }
      assert (Hpos : 0 < p).
      { apply Qnot_le_lt. intro H. apply Qle_bool_iff in H. congruence. }
      destruct (Hin r p Hr Ep Hpos) as (H1 & H2 & H3).
      change (expandRange r minBound maxBound step) with (expand r).
      assert (Hw : Qlt_bool 0 (snd (expand r) - fst (expand r)) = true)
        by (apply Qlt_bool_iff; lra).
      rewrite Hw. cbn [negb].
      rewrite spread_sum by exact Hlen.
      set (src := expand r) in *.
      assert (Hov : sumBy (fun b : bounds => overlapOf src (expandRange b minBound maxBound step))
                          bins == snd src - fst src).
      { transitivity (sumBy (fun i => overlapOf src i) (map expand bins));
          [symmetry; apply (sumBy_map expand (fun i => overlapOf src i))|].
        destruct src as [sl su]. rewrite (chain_overlap sl su from upto) by exact Hchain.
        simpl in *. apply overlap_inside; lra. }
      rewrite Hov. field. lra. }
  set (totals := fold_left _ _ _) in *.
  assert (Htotals : sumBy (fun v => v) totals == 1).
  { unfold totals. rewrite Hsum; [|auto | apply length_map].
    rewrite sum_zeros.
    destruct (normalized_sum_cases ranges) as [H|H]; fold clean in H; lra. }
  assert (Ht : Qlt_bool 0 (sumBy (fun v => v) totals) = true) by (apply Qlt_bool_iff; lra).
  rewrite Ht, nth_quotient, Htotals.
  unfold totals. rewrite (totals_slots _ _ _ b0) by exact Hi. field.
Qed.

End NormalizerFacts.

(** ** Lists of optional numbers *)

Module GridFacts.
Import Papers PapersFacts.

Lemma finiteOnes_In (xs : list (option Q)) (q : Q) :
  In q (finiteOnes xs) <-> In (Some q) xs.
Proof.
  induction xs as [|[x|] xs IH]; simpl.
  - tauto.
  - rewrite IH. split; intros [H|H]; auto; left; congruence.
  - rewrite IH. split; [auto | intros [H|H]; [discriminate | exact H]].
Qed.

End GridFacts.

(** ** Brackets: keys, order, and the [Map] that collects them *)

Module BracketFacts.
Import Papers PapersFacts.

Lemma sameBound_refl (a : option Q) : sameBound a a = true.
Proof. destruct a; simpl; [apply Qeq_bool_iff; reflexivity | reflexivity]. Qed.

Lemma sameBound_sym (a b : option Q) : sameBound a b = sameBound b a.
Proof.
  destruct a as [x|], b as [y|]; simpl; try reflexivity.
  destruct (Qeq_bool x y) eqn:E, (Qeq_bool y x) eqn:E'; try reflexivity.
  - apply Qeq_bool_iff in E. symmetry in E. apply Qeq_bool_iff in E. congruence.
  - apply Qeq_bool_iff in E'. symmetry in E'. apply Qeq_bool_iff in E'. congruence.
Qed.

Lemma sameBound_trans (a b c : option Q) :
  sameBound a b = true -> sameBound b c = true -> sameBound a c = true.
Proof.
  destruct a as [x|], b as [y|], c as [z|]; simpl; try discriminate; auto.
  intros H1 H2. apply Qeq_bool_iff in H1, H2. apply Qeq_bool_iff.
  rewrite H1. exact H2.
Qed.

Lemma sameKey_refl (a : bounds) : sameKey a a = true.
Proof. unfold sameKey. rewrite !sameBound_refl. reflexivity. Qed.

Lemma sameKey_sym (a b : bounds) : sameKey a b = sameKey b a.
Proof.
  unfold sameKey. rewrite (sameBound_sym (lower a)), (sameBound_sym (upper a)). reflexivity.
Qed.

Lemma sameKey_trans (a b c : bounds) :
  sameKey a b = true -> sameKey b c = true -> sameKey a c = true.
Proof.
  unfold sameKey. rewrite !andb_true_iff. intros [H1 H2] [H3 H4].
  split; eapply sameBound_trans; eauto.
Qed.

Lemma distinctKeys_snoc (ks : list bounds) (k : bounds) :
  distinctKeys ks -> Forall (fun k' => sameKey k' k = false) ks -> distinctKeys (ks ++ [k]).
Proof.
  unfold distinctKeys. induction 1 as [|a l Ha Hl IH]; intro Hk; simpl.
  - repeat constructor.
  - inversion Hk; subst. constructor; [|apply IH; assumption].
    apply Forall_app. split; [exact Ha | constructor; [assumption | constructor]].
Qed.

Lemma distinctKeys_perm (l l' : list bounds) :
  Permutation l l' -> distinctKeys l -> distinctKeys l'.
Proof.
  unfold distinctKeys.
  induction 1 as [|x l l' Hp IH|x y l|l l' l'' _ IH1 _ IH2]; intro H.
  - constructor.
  - inversion H; subst. constructor; [|apply IH; assumption].
    eapply Permutation_Forall; eassumption.
  - inversion H as [|? ? Hy Hrest]; subst. inversion Hrest as [|? ? Hx Hl]; subst.
    inversion Hy; subst.
    constructor; [|constructor; assumption].
    constructor; [rewrite sameKey_sym; assumption | assumption].
  - auto.
Qed.

(** Keys of a map after [set]: unchanged when the key is present, the new
    key at the end when it is not. *)
Lemma mapSet_keys {V : Type} (k : bounds) (v : V) (m : list (bounds * V)) :
  map fst (mapSet k v m) = map fst m
  \/ (Forall (fun k' => sameKey k' k = false) (map fst m)
      /\ map fst (mapSet k v m) = map fst m ++ [k]).
Proof.
  induction m as [|[k0 w] m IH]; simpl.
  - right. split; [constructor | reflexivity].
  - destruct (sameKey k0 k) eqn:E; simpl.
    + left. reflexivity.
    + destruct IH as [IH|[IH1 IH2]].
      * left. rewrite IH. reflexivity.
      * right. split; [constructor; assumption | rewrite IH2; reflexivity].
Qed.

Lemma mapSet_distinct {V : Type} (k : bounds) (v : V) (m : list (bounds * V)) :
  distinctKeys (map fst m) -> distinctKeys (map fst (mapSet k v m)).
Proof.
  intro H. destruct (mapSet_keys k v m) as [E|[Hf E]]; rewrite E.
  - exact H.
  - apply distinctKeys_snoc; assumption.
Qed.

(** A value stored by [set] is found by [get] under any equal key
    (insert, then look up). *)
Lemma mapGet_mapSet_same {V : Type} (k k' : bounds) (v : V) (m : list (bounds * V)) :
  sameKey k k' = true -> mapGet k' (mapSet k v m) = Some v.
Proof.
  intro Hk. induction m as [|[k0 w] m IH]; simpl.
  - rewrite Hk. reflexivity.
  - destruct (sameKey k0 k) eqn:E; simpl.
    + rewrite (sameKey_trans k0 k k' E Hk). reflexivity.
    + destruct (sameKey k0 k') eqn:E'; [|exact IH].
      rewrite (sameKey_sym k k') in Hk.
      rewrite (sameKey_trans k0 k' k E' Hk) in E. discriminate.
Qed.

Lemma mapGet_mapSet_other {V : Type} (k k' : bounds) (v : V) (m : list (bounds * V)) :
  sameKey k k' = false -> mapGet k' (mapSet k v m) = mapGet k' m.
Proof.
  intro Hk. induction m as [|[k0 w] m IH]; simpl.
  - rewrite Hk. reflexivity.
  - destruct (sameKey k0 k) eqn:E; simpl.
    + destruct (sameKey k0 k') eqn:E'; [|reflexivity].
      rewrite (sameKey_sym k0 k) in E.
      rewrite (sameKey_trans k k0 k' E E') in Hk. discriminate.
    + destruct (sameKey k0 k'); [reflexivity | exact IH].
Qed.

Lemma fold_left_flat_map {A B C : Type} (f : C -> B -> C) (g : A -> list B)
      (xs : list A) (c : C) :
  fold_left (fun acc x => fold_left f (g x) acc) xs c = fold_left f (flat_map g xs) c.
Proof.
  revert c. induction xs as [|x xs IH]; intro c; simpl; [reflexivity|].
  rewrite fold_left_app. apply IH.
Qed.

(** *** The comparator [sortRanges] *)

Lemma sortRanges_before (a b : bounds) :
  isPositive (sortRanges a b) = false -> lowerLe (lower a) (lower b).
Proof.
  unfold sortRanges, lowerLe.
  destruct (lower a) as [x|], (lower b) as [y|]; simpl; auto.
  - destruct (Qeq_bool x y) eqn:E; simpl.
    + intros _. apply Qeq_bool_iff in E. lra.
    + intro H. apply Qlt_bool_false_iff in H. lra.
  - discriminate.
Qed.

Lemma sortRanges_after (a b : bounds) :
  isPositive (sortRanges a b) = true -> lowerLe (lower b) (lower a).
Proof.
  unfold sortRanges, lowerLe.
  destruct (lower a) as [x|], (lower b) as [y|]; simpl; auto.
  - destruct (Qeq_bool x y) eqn:E; simpl.
    + intros _. apply Qeq_bool_iff in E. lra.
    + intro H. apply Qlt_bool_iff in H. lra.
  - discriminate.
Qed.

Lemma sorted_by_lower {A : Type} (f : A -> bounds) (l : list A) :
  Sorted (fun a b => lowerLe (lower (f a)) (lower (f b)))
         (sortBy (fun a b => sortRanges (f a) (f b)) l).
Proof.
  apply sortBy_sorted; intros x y H.
  - apply sortRanges_before. exact H.
  - apply sortRanges_after. exact H.
Qed.

(** *** [getBinsFromSources] *)

Lemma mapSet_keyed {V : Type} (g : V -> bounds) (k : bounds) (v : V) (m : list (bounds * V)) :
  sameKey k (g v) = true ->
  Forall (fun kv => sameKey (fst kv) (g (snd kv)) = true) m ->
  Forall (fun kv => sameKey (fst kv) (g (snd kv)) = true) (mapSet k v m).
Proof.
  intros Hv. induction 1 as [|[k0 w] m Hk0 Hm IH]; simpl.
  - repeat constructor. simpl. exact Hv.
  - destruct (sameKey k0 k) eqn:E.
    + constructor; [|exact Hm]. simpl. apply (sameKey_trans k0 k (g v) E Hv).
    + constructor; [exact Hk0 | exact IH].
Qed.

Lemma mapSet_In {V : Type} (k : bounds) (v : V) (m : list (bounds * V)) (kv : bounds * V) :
  In kv (mapSet k v m) -> In kv m \/ snd kv = v.
Proof.
  induction m as [|[k0 w] m IH]; simpl.
  - intros [<-|[]]. right. reflexivity.
  - destruct (sameKey k0 k); simpl.
    + intros [<-|H]; [right; reflexivity | left; right; exact H].
    + intros [<-|H]; [left; left; reflexivity|].
      destruct (IH H) as [H'|H']; [left; right; exact H' | right; exact H'].
Qed.

Lemma mapGet_In {V : Type} (k : bounds) (v : V) (m : list (bounds * V)) :
  mapGet k m = Some v -> exists k0, In (k0, v) m /\ sameKey k0 k = true.
Proof.
  induction m as [|[k0 w] m IH]; simpl; [discriminate|].
  destruct (sameKey k0 k) eqn:E.
  - intro H. inversion H; subst. exists k0. auto.
  - intro H. destruct (IH H) as (k1 & Hin & Hk). exists k1. auto.
Qed.

Lemma values_distinct {V : Type} (g : V -> bounds) (m : list (bounds * V)) :
  distinctKeys (map fst m) ->
  Forall (fun kv => sameKey (fst kv) (g (snd kv)) = true) m ->
  distinctKeys (map (fun kv => g (snd kv)) m).
Proof.
  unfold distinctKeys. induction m as [|[k v] m IH]; simpl; intros Hd Hk.
  - constructor.
  - inversion Hd as [|? ? Hfirst Hrest]; subst. inversion Hk as [|? ? Hkv Hk']; subst.
    constructor; [|apply IH; assumption].
    rewrite Forall_map. rewrite Forall_map in Hfirst.
    rewrite Forall_forall in *. intros [k' v'] Hin. simpl in *.
    specialize (Hfirst _ Hin). specialize (Hk' _ Hin). simpl in *.
    destruct (sameKey (g v) (g v')) eqn:E; [|reflexivity].
    rewrite (sameKey_sym k' (g v')) in Hk'.
    rewrite (sameKey_trans k (g v') k' (sameKey_trans k (g v) (g v') Hkv E) Hk') in Hfirst.
    discriminate.
Qed.

(** X5.  [getBinsFromSources] lists every bracket quoted by any venue
    with a finite probability exactly once: no two bins of the result have
    the same key, every bin is the bracket of some cleaned range, every
    cleaned range finds its bracket among the bins, and the bins are in
    ascending order of lower bound, an open lower end first. *)
Theorem X5_bins_are_the_distinct_brackets (s : venueMap) :
  let quoted := flat_map normalizeDistribution (map snd s) in
  let out := getBinsFromSources s in
  distinctKeys out
  /\ (forall b, In b out ->
                exists r : range, In r quoted /\ b = {| lower := lower r; upper := upper r |})
  /\ (forall r : range, In r quoted -> exists b, In b out /\ sameKey r b = true)
  /\ Sorted (fun a b : bounds => lowerLe (lower a) (lower b)) out.
Proof.
  intros quoted out.
  set (f := fun (m : list (bounds * bounds)) (r : range) =>
              mapSet (bnd r) {| lower := lower r; upper := upper r |} m).
  assert (Hout : out = sortBy sortRanges (mapValues (fold_left f quoted []))).
  { unfold out, getBinsFromSources, quoted.
    rewrite <- (fold_left_flat_map f normalizeDistribution). reflexivity. }
  assert (Hinv : forall rs m,
            distinctKeys (map fst m) ->
            Forall (fun kv => sameKey (fst kv) (snd kv) = true) m ->
            let m' := fold_left f rs m in
            distinctKeys (map fst m')
            /\ Forall (fun kv => sameKey (fst kv) (snd kv) = true) m'
            /\ (forall v, In v (map snd m') ->
                          In v (map snd m)
                          \/ exists r : range, In r rs
                                               /\ v = {| lower := lower r; upper := upper r |})
            /\ (forall r : range, In r rs ->
                                  exists v, mapGet (bnd r) m' = Some v
                                            /\ sameKey r v = true)
            /\ (forall k v, mapGet k m = Some v -> sameKey k v = true ->
                            exists v', mapGet k m' = Some v' /\ sameKey k v' = true)).
  { induction rs as [|r rs IH]; intros m Hd Hk; cbn [fold_left].
    - repeat split; auto.
      + intros r [].
      + intros k v H1 H2. exists v. auto.
    - assert (Hself : sameKey (bnd r) {| lower := lower r; upper := upper r |} = true)
        by (unfold sameKey; simpl; rewrite !sameBound_refl; reflexivity).
      destruct (IH (f m r)) as (I1 & I2 & I3 & I4 & I5).
      { apply mapSet_distinct. exact Hd. }
      { apply (mapSet_keyed (fun v => v)); assumption. }
      split; [exact I1|]. split; [exact I2|]. split; [|split].
      + intros v Hv. destruct (I3 v Hv) as [H|(r' & Hr' & E)].
        * apply in_map_iff in H. destruct H as (kv & <- & Hin).
          destruct (mapSet_In _ _ _ _ Hin) as [H|H].
          -- left. apply in_map. exact H.
          -- right. exists r. split; [simpl; auto | exact H].
        * right. exists r'. split; [simpl; auto | exact E].
      + intros r' [<-|Hr'].
        * apply (I5 (bnd r) {| lower := lower r; upper := upper r |}); [|exact Hself].
          apply mapGet_mapSet_same. apply sameKey_refl.
        * apply I4. exact Hr'.
      + intros k v Hget Hkv.
        destruct (sameKey (bnd r) k) eqn:E.
        * apply (I5 k {| lower := lower r; upper := upper r |}).
          -- apply mapGet_mapSet_same. exact E.
          -- rewrite sameKey_sym in E.
             apply (sameKey_trans k (bnd r) _ E Hself).
        * apply (I5 k v); [|exact Hkv].
          unfold f. rewrite mapGet_mapSet_other by exact E. exact Hget. }
  destruct (Hinv quoted []) as (I1 & I2 & I3 & I4 & _); [constructor | constructor |].
  cbv zeta in *.
  pose proof (sortBy_perm sortRanges (mapValues (fold_left f quoted []))) as Hp.
  rewrite Hout. split; [|split; [|split]].
  - apply (distinctKeys_perm _ _ (Permutation_sym Hp)).
    apply (values_distinct (fun v => v)); assumption.
  - intros b Hb. apply (Permutation_in _ Hp) in Hb.
    destruct (I3 b Hb) as [[]|H]. exact H.
  - intros r Hr. destruct (I4 r Hr) as (v & Hget & Hv).
    exists v. split; [|exact Hv].
    apply (Permutation_in _ (Permutation_sym Hp)).
    destruct (mapGet_In _ _ _ Hget) as (k0 & Hin & _).
    unfold mapValues. apply in_map_iff. exists (k0, v). auto.
  - apply (sorted_by_lower (fun b => b)).
Qed.

(** *** [combineDistributions] *)

Lemma finishCombine_normalized (m : list (bounds * cell)) :
  combinedNormalized (finishCombine m).
Proof.
  unfold finishCombine.
  set (entries := map withCombinedRaw (mapValues m)).
  set (total := sumBy (fun e => orElse (snd e) 0) entries).
  set (pre := map (withCombined total) entries).
  pose proof (sortBy_perm (fun a b : entry => sortRanges a b) pre) as Hp.
  assert (Hraw : sumBy (fun e => orElse (combinedRaw e) 0) pre == total).
  { unfold pre. rewrite sumBy_map. reflexivity. }
  unfold combinedNormalized. rewrite !(sumBy_perm _ _ _ Hp), Hraw.
  split.
  - intro Hpos. unfold pre. rewrite sumBy_map.
    assert (Ht : Qlt_bool 0 total = true) by (apply Qlt_bool_iff; exact Hpos).
    rewrite (sumBy_ext _ (fun e => orElse (snd e) 0 / total)).
    + rewrite sumBy_div. fold total. field. lra.
    + intros e _. unfold withCombined. simpl. rewrite Ht.
      destruct (snd e); simpl; [reflexivity | unfold Qdiv; lra].
  - intros Hle e He. apply (Permutation_in _ Hp) in He.
    unfold pre in He. apply in_map_iff in He. destruct He as (x & <- & _).
    assert (Ht : Qlt_bool 0 total = false) by (apply Qlt_bool_false_iff; exact Hle).
    unfold withCombined. simpl. rewrite Ht. destruct (snd x); reflexivity.
Qed.

(** X6.  On both pages the combined distribution is normalized: the
    [combined] values sum to 1 whenever the per-bracket averages have a
    positive total, and are all 0 otherwise. *)
Theorem X6_combined_distribution_is_normalized
    (s : venueMap) (kalshi_ polymarket_ : list Priors.range) :
  combinedNormalized (combineDistributions s)
  /\ combinedNormalized (Priors.combineDistributions kalshi_ polymarket_).
Proof.
  split.
  - unfold combineDistributions. apply finishCombine_normalized.
  - unfold Priors.combineDistributions. apply finishCombine_normalized.
Qed.

Lemma mapSet_same_bounds (b : bounds) (c c' : cell) (m : list (bounds * cell)) :
  mapGet b m = Some c -> cbnd c' = cbnd c ->
  Forall (fun kv => sameKey (fst kv) (cbnd (snd kv)) = true) m ->
  Forall (fun kv => sameKey (fst kv) (cbnd (snd kv)) = true) (mapSet b c' m).
Proof.
  intros Hget Hc. induction 1 as [|[k0 w] m Hk0 Hm IH]; simpl in *; [discriminate|].
  destruct (sameKey k0 b) eqn:E.
  - inversion Hget; subst. constructor; [|exact Hm]. simpl. rewrite Hc. exact Hk0.
  - constructor; [exact Hk0 | apply IH; exact Hget].
Qed.

Lemma setVenue_bounds (v : venue) (p : option Q) (c : cell) : cbnd (setVenue v p c) = cbnd c.
Proof. destruct v; reflexivity. Qed.

Lemma ingestOne_invariant (v : venue) (m : list (bounds * cell)) (b : bounds) (p : option Q) :
  distinctKeys (map fst m) ->
  Forall (fun kv => sameKey (fst kv) (cbnd (snd kv)) = true) m ->
  distinctKeys (map fst (ingestOne v m b p))
  /\ Forall (fun kv => sameKey (fst kv) (cbnd (snd kv)) = true) (ingestOne v m b p).
Proof.
  intros Hd Hk. unfold ingestOne. split; [apply mapSet_distinct; exact Hd|].
  destruct (mapGet b m) as [c|] eqn:E.
  - apply (mapSet_same_bounds b c); [exact E | apply setVenue_bounds | exact Hk].
  - apply (mapSet_keyed cbnd); [|exact Hk].
    rewrite setVenue_bounds. simpl. apply sameKey_refl.
Qed.

Lemma papers_ingest_invariant (v : venue) (ranges : list Raw.range)
      (m : list (bounds * cell)) :
  distinctKeys (map fst m) ->
  Forall (fun kv => sameKey (fst kv) (cbnd (snd kv)) = true) m ->
  distinctKeys (map fst (ingest v ranges m))
  /\ Forall (fun kv => sameKey (fst kv) (cbnd (snd kv)) = true) (ingest v ranges m).
Proof.
  unfold ingest. generalize (normalizeDistribution ranges) as clean.
  intro clean. revert m. induction clean as [|r clean IH]; intros m Hd Hk; simpl.
  - auto.
  - destruct (ingestOne_invariant v m {| lower := lower r; upper := upper r |} (prob r) Hd Hk)
      as [H1 H2].
    apply IH; assumption.
Qed.

Lemma priors_ingest_invariant (v : venue) (ranges : list Priors.range)
      (m : list (bounds * cell)) :
  distinctKeys (map fst m) ->
  Forall (fun kv => sameKey (fst kv) (cbnd (snd kv)) = true) m ->
  distinctKeys (map fst (Priors.ingest v ranges m))
  /\ Forall (fun kv => sameKey (fst kv) (cbnd (snd kv)) = true) (Priors.ingest v ranges m).
Proof.
  unfold Priors.ingest. revert m.
  induction ranges as [|r ranges IH]; intros m Hd Hk; simpl.
  - auto.
  - destruct (ingestOne_invariant
                v m {| lower := lower (Priors.bnd r); upper := upper (Priors.bnd r) |}
                (Priors.prob r) Hd Hk) as [H1 H2].
    apply IH; assumption.
Qed.

Lemma finishCombine_brackets (m : list (bounds * cell)) :
  distinctKeys (map fst m) ->
  Forall (fun kv => sameKey (fst kv) (cbnd (snd kv)) = true) m ->
  let out := finishCombine m in
  distinctKeys (map (fun e : entry => cbnd (ecell e)) out)
  /\ Sorted (fun a b : entry => lowerLe (lower a) (lower b)) out.
Proof.
  intros Hd Hk out. split.
  - unfold out, finishCombine.
    set (total := sumBy _ _).
    eapply distinctKeys_perm.
    + apply Permutation_map. apply Permutation_sym. apply sortBy_perm.
    + unfold mapValues. rewrite !map_map. simpl.
      apply (values_distinct cbnd); assumption.
  - unfold out, finishCombine. apply (sorted_by_lower (fun e : entry => cbnd (ecell e))).
Qed.

(** X7.  On both pages the combined distribution has one entry per
    bracket, no two entries sharing a key, in ascending order of lower
    bound with an open lower end first. *)
Theorem X7_combined_brackets_distinct_and_ascending
    (s : venueMap) (kalshi_ polymarket_ : list Priors.range) :
  (distinctKeys (map (fun e : entry => cbnd (ecell e)) (combineDistributions s))
   /\ Sorted (fun a b : entry => lowerLe (lower a) (lower b)) (combineDistributions s))
  /\ (distinctKeys (map (fun e : entry => cbnd (ecell e))
                        (Priors.combineDistributions kalshi_ polymarket_))
      /\ Sorted (fun a b : entry => lowerLe (lower a) (lower b))
                (Priors.combineDistributions kalshi_ polymarket_)).
Proof.
  split.
  - unfold combineDistributions.
    destruct (papers_ingest_invariant Kalshi (venueRanges "kalshi" s) [])
      as [H1 H2]; [constructor | constructor |].
    destruct (papers_ingest_invariant Polymarket (venueRanges "polymarket" s) _ H1 H2)
      as [H3 H4].
    apply finishCombine_brackets; assumption.
  - unfold Priors.combineDistributions.
    destruct (priors_ingest_invariant Kalshi kalshi_ [])
      as [H1 H2]; [constructor | constructor |].
    destruct (priors_ingest_invariant Polymarket polymarket_ _ H1 H2) as [H3 H4].
    apply finishCombine_brackets; assumption.
Qed.

End BracketFacts.

(** ** Volume weights, bin widths and expected values *)

Module EstimateFacts.
Import Papers PapersFacts.

Lemma Qle_bool_false (x y : Q) : Qle_bool x y = false <-> y < x.
Proof.
  split; intro H.
  - apply Qnot_le_lt. intro Hle. apply Qle_bool_iff in Hle. congruence.
  - destruct (Qle_bool x y) eqn:E; [|reflexivity].
    apply Qle_bool_iff in E. exfalso. apply (Qlt_not_le _ _ H E).
Qed.

Lemma clamp_below_two (x : R) : (0 < x < 2)%R -> clamp x (1 / 2) 3 = Rmax x (1 / 2).
Proof.
  intros [H0 H2]. unfold clamp. apply Rmin_left.
  apply Rmax_lub; lra.
Qed.

(** X8.  [computeVolumeWeights] returns null exactly when a volume is
    missing or not positive.  When it returns weights, neither exceeds 2
    (so the 3.0 cap of the clamp never applies with two venues), the
    larger of the two is at least 1 and the smaller at most 1, and
    exchanging the two volumes exchanges the two weights. *)
Theorem X8_two_venue_weights (kalshiVol polymarketVol : option Q) :
  (computeVolumeWeights kalshiVol polymarketVol = None
   <-> ~ exists k p, kalshiVol = Some k /\ polymarketVol = Some p /\ 0 < k /\ 0 < p)
  /\ (forall w, computeVolumeWeights kalshiVol polymarketVol = Some w ->
                (Weights.kalshi w <= 2)%R /\ (Weights.polymarket w <= 2)%R
                /\ (1 <= Rmax (Weights.kalshi w) (Weights.polymarket w))%R
                /\ (Rmin (Weights.kalshi w) (Weights.polymarket w) <= 1)%R
                /\ computeVolumeWeights polymarketVol kalshiVol
                   = Some {| Weights.kalshi := Weights.polymarket w;
                             Weights.polymarket := Weights.kalshi w |}).
Proof.
  destruct kalshiVol as [k|], polymarketVol as [p|];
    try (split; [split; [intros _ (k' & p' & H1 & H2 & _); discriminate | reflexivity]
                | intros w H; discriminate]).
  unfold computeVolumeWeights.
  destruct (Qle_bool k 0) eqn:Ek.
  { apply Qle_bool_iff in Ek. simpl. split; [|intros w H; discriminate].
    split; [|reflexivity]. intros _ (k' & p' & H1 & H2 & Hk & Hp).
    inversion H1; subst. apply (Qlt_not_le _ _ Hk Ek). }
  destruct (Qle_bool p 0) eqn:Ep.
  { apply Qle_bool_iff in Ep. simpl. split; [|intros w H; discriminate].
    split; [|reflexivity]. intros _ (k' & p' & H1 & H2 & Hk & Hp).
    inversion H2; subst. apply (Qlt_not_le _ _ Hp Ep). }
  apply Qle_bool_false in Ek, Ep.
  pose proof (log1p_pos k Ek) as Lk. pose proof (log1p_pos p Ep) as Lp.
  simpl.
  replace ((log1p p + log1p k) / 2)%R with ((log1p k + log1p p) / 2)%R by lra.
  set (mean := ((log1p k + log1p p) / 2)%R).
  assert (Hm : (0 < mean)%R) by (unfold mean; lra).
  destruct (Rlt_dec 0 mean) as [_|Hn]; [|contradiction].
  split.
  - split; [discriminate|]. intro H. exfalso. apply H. exists k, p. auto.
  - intros w Hw. inversion Hw; subst w; clear Hw. simpl.
    set (a := (log1p k / mean)%R). set (b := (log1p p / mean)%R).
    assert (Ha : (0 < a)%R) by (apply Rdiv_lt_0_compat; assumption).
    assert (Hb : (0 < b)%R) by (apply Rdiv_lt_0_compat; assumption).
    assert (Hab : (a + b = 2)%R) by (unfold a, b, mean; field; lra).
    rewrite (clamp_below_two a), (clamp_below_two b) by lra.
    pose proof (Rmax_l a (1 / 2)) as Ma. pose proof (Rmax_l b (1 / 2)) as Mb.
    split; [apply Rmax_lub; lra|]. split; [apply Rmax_lub; lra|].
    split; [|split; [|reflexivity]].
    + destruct (Rle_dec 1 a) as [H1|H1].
      * apply Rle_trans with (Rmax a (1 / 2)); [lra | apply Rmax_l].
      * apply Rle_trans with (Rmax b (1 / 2)); [lra | apply Rmax_r].
    + destruct (Rle_dec a 1) as [H1|H1].
      * apply Rle_trans with (Rmax a (1 / 2)); [apply Rmin_l|].
        apply Rmax_lub; lra.
      * apply Rle_trans with (Rmax b (1 / 2)); [apply Rmin_r|].
        apply Rmax_lub; lra.
Qed.

Lemma middle_between (l : list Q) :
  l <> [] ->
  let sorted := sortBy (fun a b => Fin (a - b)) l in
  let mid := Nat.div (List.length sorted) 2 in
  let middle := if Nat.eqb (Nat.modulo (List.length sorted) 2) 0
                then (nth (mid - 1) sorted 0 + nth mid sorted 0) / 2
                else nth mid sorted 0 in
  ((forall w, In w l -> 0 < w) -> 0 < middle)
  /\ (forall lo hi, (forall w, In w l -> lo <= w <= hi) -> lo <= middle <= hi).
Proof.
  intros Hne sorted mid middle.
  assert (Hlen : List.length sorted = List.length l) by apply sortBy_length.
  assert (Hin : forall i, (i < List.length sorted)%nat -> In (nth i sorted 0) l).
  { intros i Hi. eapply Permutation_in; [apply sortBy_perm|]. apply nth_In. exact Hi. }
  assert (H0 : (0 < List.length sorted)%nat).
  { rewrite Hlen. destruct l; [congruence | simpl; lia]. }
  pose proof (Nat.div_mod_eq (List.length sorted) 2) as Hdm. fold mid in Hdm.
  pose proof (Nat.mod_upper_bound (List.length sorted) 2 ltac:(lia)) as Hmod.
  assert (H1 : (mid < List.length sorted)%nat) by lia.
  unfold middle.
  destruct (Nat.eqb_spec (Nat.modulo (List.length sorted) 2) 0) as [Ev|Od].
  - assert (H2 : (mid - 1 < List.length sorted)%nat) by lia.
    split.
    + intro Hpos. pose proof (Hpos _ (Hin _ H1)). pose proof (Hpos _ (Hin _ H2)).
      apply Qlt_shift_div_l; lra.
    + intros lo hi Hb. pose proof (Hb _ (Hin _ H1)). pose proof (Hb _ (Hin _ H2)).
      split; [apply Qle_shift_div_l | apply Qle_shift_div_r]; lra.
  - split.
    + intro Hpos. apply Hpos, Hin, H1.
    + intros lo hi Hb. apply Hb, Hin, H1.
Qed.

(** X9.  The width [estimateBinWidth] returns is always positive: it is
    50000 when no bin is closed with [lower < upper], and otherwise it
    lies between the smallest and the largest width of the bins that
    are. *)
Theorem X9_estimated_width_is_positive (bins_ : list bounds) :
  0 < estimateBinWidth bins_
  /\ ((forall b l u, In b bins_ -> lower b = Some l -> upper b = Some u -> ~ l < u) ->
      estimateBinWidth bins_ = 50000)
  /\ (forall lo hi,
         (exists b l u, In b bins_ /\ lower b = Some l /\ upper b = Some u /\ l < u) ->
         (forall b l u, In b bins_ -> lower b = Some l -> upper b = Some u -> l < u ->
                        lo <= u - l <= hi) ->
         lo <= estimateBinWidth bins_ <= hi).
Proof.
  assert (Hw : forall w, In w (binWidths bins_)
                         <-> exists b l u, In b bins_ /\ lower b = Some l
                                           /\ upper b = Some u /\ l < u /\ w = u - l).
  { intro w. rewrite binWidths_positive. unfold positiveClosedWidths.
    rewrite in_flat_map. split.
    - intros (b & Hb & Hin). destruct (lower b) as [l|] eqn:El; [|destruct Hin].
      destruct (upper b) as [u|] eqn:Eu; [|destruct Hin].
      destruct (Qlt_bool l u) eqn:E; [|destruct Hin].
      destruct Hin as [<-|[]]. apply Qlt_bool_iff in E.
      exists b, l, u. repeat split; auto.
    - intros (b & l & u & Hb & El & Eu & Hlu & ->). exists b. split; [exact Hb|].
      rewrite El, Eu. apply Qlt_bool_iff in Hlu. rewrite Hlu. simpl. auto. }
  assert (Hpos : forall w, In w (binWidths bins_) -> 0 < w).
  { intros w Hin. apply Hw in Hin. destruct Hin as (b & l & u & _ & _ & _ & Hlu & ->). lra. }
  unfold estimateBinWidth.
  destruct (binWidths bins_) as [|w0 ws] eqn:E.
  - split; [reflexivity|]. split; [reflexivity|].
    intros lo hi (b & l & u & Hb & El & Eu & Hlu) _. exfalso.
    assert (Hin : In (u - l) []) by (apply Hw; exists b, l, u; auto).
    destruct Hin.
  - destruct (middle_between (w0 :: ws) ltac:(discriminate)) as [H1 H2].
    split; [apply H1; exact Hpos|]. split.
    + intro Hnone. exfalso.
      assert (Hin : In w0 (w0 :: ws)) by (simpl; auto).
      apply Hw in Hin. destruct Hin as (b & l & u & Hb & El & Eu & Hlu & _).
      apply (Hnone b l u Hb El Eu Hlu).
    + intros lo hi _ Hb. apply H2. intros w Hin.
      apply Hw in Hin. destruct Hin as (b & l & u & Hin & El & Eu & Hlu & ->).
      apply (Hb b l u Hin El Eu Hlu).
Qed.

Lemma expected_fold (w : Q) (clean : list range) (acc : Q) :
  fold_left (fun total (r : range) =>
               match prob r with
               | None => total
               | Some p => total + p * midpointForBin r w
               end) clean acc
  == acc + sumBy (fun r : range => probOf r * midpointForBin r w) clean.
Proof.
  revert acc. induction clean as [|r clean IH]; intro acc; simpl.
  - rewrite sumBy_nil. lra.
  - rewrite IH, sumBy_cons. unfold probOf.
    destruct (prob r); simpl; lra.
Qed.

(** X10.  For a venue whose cleaned probabilities are not negative and
    not all zero, [expectedFromRanges] returns a number, and it lies
    between any two bounds that enclose the midpoints of the venue's
    brackets: the expected value is a weighted average of the midpoints. *)
Theorem X10_expected_value_is_an_average
    (ranges : list Raw.range) (bins_ : list bounds) (lo hi : Q) :
  let clean := normalizeDistribution ranges in
  let width := estimateBinWidth bins_ in
  (forall (r : range) p, In r clean -> prob r = Some p -> 0 <= p) ->
  0 < sumBy probOf clean ->
  (forall r : range, In r clean -> lo <= midpointForBin r width <= hi) ->
  exists e, expectedFromRanges ranges bins_ = Some e /\ lo <= e <= hi.
Proof.
  intros clean width Hnn Hpos Hmid.
  unfold expectedFromRanges. fold clean. fold width.
  destruct clean as [|r0 rest] eqn:E.
  { rewrite sumBy_nil in Hpos. lra. }
  rewrite <- E in *. clear E r0 rest.
  eexists. split; [reflexivity|].
  rewrite expected_fold.
  assert (Hone : sumBy probOf clean == 1).
  { destruct (normalized_sum_cases ranges) as [H|H]; fold clean in H; [exact H | lra]. }
  pose proof (weighted_mean_bounds probOf (fun r : range => midpointForBin r width)
                                   clean lo hi) as Hw.
  destruct Hw as [H1 H2].
  - intros r Hr. unfold probOf. destruct (prob r) as [p|] eqn:Ep; simpl; [|lra].
    apply (Hnn r p Hr Ep).
  - exact Hmid.
  - rewrite Hone in H1, H2. lra.
Qed.

End EstimateFacts.

(** ** Snapshots in time *)

Module TimelineFacts.
Import Papers PapersFacts.

Lemma last_In {A : Type} (l : list A) (d : A) : l <> [] -> In (last l d) l.
Proof.
  intro Hne. destruct (exists_last Hne) as (l' & a & ->).
  rewrite last_last. apply in_or_app. right. simpl. auto.
Qed.

Lemma last_is_greatest {A : Type} (l : list (A * Z)) (d x : A * Z) :
  StronglySorted (fun a b => (snd a <= snd b)%Z) l -> In x l ->
  (snd x <= snd (last l d))%Z.
Proof.
  induction 1 as [|a l Hs IH Hall]; intro Hin; [destruct Hin|].
  destruct l as [|b l].
  - destruct Hin as [->|[]]. simpl. lia.
  - change (last (a :: b :: l) d) with (last (b :: l) d).
    destruct Hin as [->|Hin]; [|apply IH; exact Hin].
    rewrite Forall_forall in Hall. apply Hall. apply last_In. discriminate.
Qed.

Lemma stamped_nil (getTime : string -> option Z) (snapshots : list snapshot) :
  stamped getTime snapshots = [] <-> forall s, In s snapshots -> timestamp getTime s = None.
Proof.
  split.
  - intros E s Hs. destruct (timestamp getTime s) as [t|] eqn:Et; [|reflexivity].
    assert (H : In (s, t) (stamped getTime snapshots)) by (apply stamped_In; auto).
    rewrite E in H. destruct H.
  - intro H. destruct (stamped getTime snapshots) as [|[s t] l] eqn:E; [reflexivity|].
    assert (Hin : In (s, t) (stamped getTime snapshots)) by (rewrite E; simpl; auto).
    apply stamped_In in Hin. destruct Hin as [Hs Ht]. rewrite (H s Hs) in Ht. discriminate.
Qed.

Lemma sortBy_nil_iff {A : Type} (cmp : A -> A -> number) (l : list A) :
  sortBy cmp l = [] <-> l = [].
Proof.
  split; intro H.
  - apply (f_equal (@List.length A)) in H. rewrite sortBy_length in H.
    destruct l; [reflexivity | discriminate].
  - rewrite H. reflexivity.
Qed.

Lemma bands_aligned (rows : list (Z * Q * option (Q * Q))) :
  map fst (filterMap (bandOf fst) rows) = map fst (filterMap (bandOf snd) rows).
Proof.
  induction rows as [|[[ts v] [band|]] rows IH]; simpl; [reflexivity | | exact IH].
  rewrite IH. reflexivity.
Qed.

Lemma band_is_a_point (pick : Q * Q -> Q) (rows : list (Z * Q * option (Q * Q))) (x : Z) :
  In x (map fst (filterMap (bandOf pick) rows)) -> In x (map fst (map fst rows)).
Proof.
  induction rows as [|[[ts v] [band|]] rows IH]; simpl; auto.
  intros [H|H]; auto.
Qed.

(** X11.  In the series of [buildExpectationSeries] every point lies in
    the lookback window: its timestamp is at most the latest parseable
    timestamp and not before that minus the lookback days.  The two band
    lines carry the same timestamps, each of them the timestamp of a
    point, and without a parseable snapshot the series is empty. *)
Theorem X11_series_stays_in_the_window
    (Date_getTime : string -> option Z) (snapshots : list snapshot)
    (m : meta) (provider : string) (lookbackDays : Q) :
  let sr := buildExpectationSeries Date_getTime snapshots m provider lookbackDays in
  map fst (bandLow sr) = map fst (bandHigh sr)
  /\ (forall x, In x (map fst (bandLow sr)) -> In x (map fst (points sr)))
  /\ (forall x y, In (x, y) (points sr) ->
                  exists latest snap,
                    In snap snapshots /\ timestamp Date_getTime snap = Some latest
                    /\ (forall s t, In s snapshots -> timestamp Date_getTime s = Some t ->
                                    (t <= latest)%Z)
                    /\ inject_Z latest - lookbackDays * 24 * 60 * 60 * 1000 <= inject_Z x
                    /\ (x <= latest)%Z)
  /\ ((forall s, In s snapshots -> timestamp Date_getTime s = None) ->
      points sr = [] /\ bandLow sr = [] /\ bandHigh sr = []).
Proof.
  cbv zeta. unfold buildExpectationSeries.
  set (cmp := fun a b : snapshot * Z => Fin (inject_Z (snd a - snd b))).
  pose proof (sort_ascending_ts (stamped Date_getTime snapshots)) as Hs.
  pose proof (sortBy_perm cmp (stamped Date_getTime snapshots)) as Hp.
  fold cmp in Hs.
  destruct (sortBy cmp (stamped Date_getTime snapshots)) as [|first rest] eqn:E.
  { simpl. repeat split; auto; intros; contradiction. }
  rewrite <- E in *. cbn [points bandLow bandHigh].
  set (sorted := sortBy cmp (stamped Date_getTime snapshots)) in *.
  set (latest := snd (last sorted first)).
  set (cutoff := inject_Z latest - lookbackDays * 24 * 60 * 60 * 1000).
  set (rows := filterMap (seriesRow m provider cutoff) sorted).
  assert (Hne : sorted <> []) by (rewrite E; discriminate).
  split; [apply bands_aligned|].
  split; [intros x Hx; apply (band_is_a_point fst); exact Hx|].
  split.
  - intros x y Hxy. apply in_map_iff in Hxy. destruct Hxy as (row & Hrow & Hin).
    apply filterMap_In in Hin. destruct Hin as ([snap ts] & Hin & Hf).
    pose proof (seriesRow_ts _ _ _ _ _ Hf) as Hts. rewrite Hrow in Hts. simpl in Hts. subst x.
    pose proof (last_In sorted first Hne) as Hlast.
    destruct (last sorted first) as [lsnap lts] eqn:El.
    exists latest, lsnap. unfold latest. cbn [snd].
    apply (Permutation_in _ Hp) in Hlast. apply stamped_In in Hlast.
    destruct Hlast as [Hl1 Hl2].
    split; [exact Hl1|]. split; [exact Hl2|]. split; [|split].
    + intros s t Hsin Ht.
      assert (Hst : In (s, t) sorted).
      { apply (Permutation_in _ (Permutation_sym Hp)). apply stamped_In. auto. }
      pose proof (last_is_greatest sorted first (s, t) Hs Hst) as H.
      rewrite El in H. exact H.
    + unfold seriesRow in Hf.
      destruct (Qlt_bool (inject_Z ts) cutoff) eqn:Ec; [discriminate|].
      apply Qlt_bool_false_iff in Ec. unfold cutoff, latest in Ec. cbn [snd] in Ec. unfold latest.
      exact Ec.
    + pose proof (last_is_greatest sorted first (snap, ts) Hs Hin) as H.
      rewrite El in H. exact H.
  - intro Hnone. exfalso. apply Hne. apply sortBy_nil_iff. apply stamped_nil. exact Hnone.
Qed.

Lemma papers_latest_is_greatest (getTime : string -> option Z) (snapshots : list snapshot)
      (latest : snapshot) :
  pickLatestSnapshot getTime snapshots = Some latest ->
  In latest snapshots
  /\ exists ts, timestamp getTime latest = Some ts
                /\ forall s t, In s snapshots -> timestamp getTime s = Some t -> (t <= ts)%Z.
Proof.
  unfold pickLatestSnapshot.
  set (cmp := fun a b : snapshot * Z => Fin (inject_Z (snd b - snd a))).
  pose proof (sort_descending_ts (stamped getTime snapshots)) as Hs.
  pose proof (sortBy_perm cmp (stamped getTime snapshots)) as Hp.
  fold cmp in Hs.
  destruct (sortBy cmp (stamped getTime snapshots)) as [|[l ts] rest]; simpl; [discriminate|].
  intro H. inversion H; subst l.
  assert (Hl : In (latest, ts) (stamped getTime snapshots)).
  { apply (Permutation_in _ Hp). simpl. auto. }
  apply stamped_In in Hl. destruct Hl as [Hl1 Hl2].
  split; [exact Hl1|]. exists ts. split; [exact Hl2|].
  intros s t Hin Ht.
  assert (Hi : In (s, t) ((latest, ts) :: rest)).
  { apply (Permutation_in _ (Permutation_sym Hp)). apply stamped_In. auto. }
  inversion Hs as [|? ? _ Hall]; subst.
  destruct Hi as [Hi|Hi]; [inversion Hi; lia|].
  rewrite Forall_forall in Hall. apply (Hall _ Hi).
Qed.

Lemma priors_latest_is_greatest (getTime : string -> option Z) (snapshots : list snapshot)
      (latest : snapshot) :
  Priors.pickLatestSnapshot getTime snapshots = Some latest ->
  In latest snapshots
  /\ exists ts, timestamp getTime latest = Some ts
                /\ forall s t, In s snapshots -> timestamp getTime s = Some t -> (t <= ts)%Z.
Proof.
  unfold Priors.pickLatestSnapshot.
  set (cmp := fun a b : snapshot * Z => Fin (inject_Z (snd a - snd b))).
  pose proof (sort_ascending_ts (stamped getTime snapshots)) as Hs.
  pose proof (sortBy_perm cmp (stamped getTime snapshots)) as Hp.
  fold cmp in Hs.
  destruct (sortBy cmp (stamped getTime snapshots)) as [|first rest] eqn:E; [discriminate|].
  rewrite <- E in *.
  set (sorted := sortBy cmp (stamped getTime snapshots)) in *.
  assert (Hne : sorted <> []) by (rewrite E; discriminate).
  intro H. inversion H as [Hl]. clear H.
  pose proof (last_In sorted first Hne) as Hlast.
  destruct (last sorted first) as [lsnap lts] eqn:El. simpl in Hl. subst lsnap.
  apply (Permutation_in _ Hp) in Hlast. apply stamped_In in Hlast.
  destruct Hlast as [Hl1 Hl2].
  split; [exact Hl1|]. exists lts. split; [exact Hl2|].
  intros s t Hin Ht.
  assert (Hst : In (s, t) sorted).
  { apply (Permutation_in _ (Permutation_sym Hp)). apply stamped_In. auto. }
  pose proof (last_is_greatest sorted first (s, t) Hs Hst) as H.
  rewrite El in H. exact H.
Qed.

Lemma priors_latest_none (getTime : string -> option Z) (snapshots : list snapshot) :
  Priors.pickLatestSnapshot getTime snapshots = None
  <-> forall s, In s snapshots -> timestamp getTime s = None.
Proof.
  rewrite <- stamped_nil. unfold Priors.pickLatestSnapshot.
  set (cmp := fun a b : snapshot * Z => Fin (inject_Z (snd a - snd b))).
  rewrite <- (sortBy_nil_iff cmp).
  destruct (sortBy cmp (stamped getTime snapshots)); split; intro H;
    try reflexivity; discriminate.
Qed.

Lemma papers_latest_none (getTime : string -> option Z) (snapshots : list snapshot) :
  pickLatestSnapshot getTime snapshots = None
  <-> forall s, In s snapshots -> timestamp getTime s = None.
Proof.
  rewrite <- stamped_nil. unfold pickLatestSnapshot.
  set (cmp := fun a b : snapshot * Z => Fin (inject_Z (snd b - snd a))).
  rewrite <- (sortBy_nil_iff cmp).
  destruct (sortBy cmp (stamped getTime snapshots)); split; intro H;
    try reflexivity; discriminate.
Qed.

(** X12.  The [pickLatestSnapshot] of js/priors.js returns null exactly
    when no snapshot has a parseable [as_of], and otherwise a snapshot of
    the list with the greatest parseable timestamp.  It returns null
    exactly when the one of js/papers.js does, and the snapshots the two
    pages pick always carry the same timestamp. *)
Theorem X12_both_pages_pick_the_same_time
    (Date_getTime : string -> option Z) (snapshots : list snapshot) :
  (Priors.pickLatestSnapshot Date_getTime snapshots = None
   <-> forall s, In s snapshots -> timestamp Date_getTime s = None)
  /\ (forall latest,
         Priors.pickLatestSnapshot Date_getTime snapshots = Some latest ->
         In latest snapshots
         /\ exists ts, timestamp Date_getTime latest = Some ts
                       /\ forall s t, In s snapshots -> timestamp Date_getTime s = Some t ->
                                      (t <= ts)%Z)
  /\ (pickLatestSnapshot Date_getTime snapshots = None
      <-> Priors.pickLatestSnapshot Date_getTime snapshots = None)
  /\ (forall a b,
         pickLatestSnapshot Date_getTime snapshots = Some a ->
         Priors.pickLatestSnapshot Date_getTime snapshots = Some b ->
         timestamp Date_getTime a = timestamp Date_getTime b).
Proof.
  split; [apply priors_latest_none|].
  split; [apply priors_latest_is_greatest|].
  split; [rewrite papers_latest_none, priors_latest_none; tauto|].
  intros a b Ha Hb.
  destruct (papers_latest_is_greatest _ _ _ Ha) as (Ha1 & ta & Ha2 & Ha3).
  destruct (priors_latest_is_greatest _ _ _ Hb) as (Hb1 & tb & Hb2 & Hb3).
  pose proof (Ha3 b tb Hb1 Hb2). pose proof (Hb3 a ta Ha1 Ha2).
  rewrite Ha2, Hb2. f_equal. lia.
Qed.

Lemma priors_normalize_nil_iff (ranges : list Raw.range) :
  Priors.normalizeDistribution ranges = []
  <-> forall r, In r ranges -> toNumber (Raw.prob r) = None.
Proof.
  split; [|apply PriorsFacts.normalizeDistribution_no_finite].
  intros E r Hr. destruct (toNumber (Raw.prob r)) as [q|] eqn:Eq; [|reflexivity].
  exfalso.
  assert (Hin : In (Priors.cleanRange r)
                   (filter Priors.hasProb (map Priors.cleanRange ranges))).
  { apply filter_In. split; [apply in_map; exact Hr|].
    unfold Priors.hasProb, Priors.cleanRange, Priors.normalizeProb. simpl.
    rewrite Eq. reflexivity. }
  unfold Priors.normalizeDistribution in E.
  destruct (filter Priors.hasProb (map Priors.cleanRange ranges)) as [|c cs];
    [destruct Hin|].
  destruct (Qlt_bool 0 _); discriminate.
Qed.

(** X13.  [renderEvent] of js/priors.js reports "no snapshots" exactly
    when no snapshot has a parseable [as_of]; it reports "no bracket
    markets" exactly when the latest snapshot has no Kalshi or Polymarket
    bracket with a finite probability; and in every other case it shows
    the combined distribution of the latest snapshot. *)
Theorem X13_render_event_outcomes
    (Date_getTime : string -> option Z) (snapshots : list snapshot) :
  (Priors.renderEvent Date_getTime snapshots = Priors.NoSnapshots
   <-> forall s, In s snapshots -> timestamp Date_getTime s = None)
  /\ (forall current,
         Priors.pickLatestSnapshot Date_getTime snapshots = Some current ->
         let quotes := venueRanges "kalshi" (sources current)
                       ++ venueRanges "polymarket" (sources current) in
         (Priors.renderEvent Date_getTime snapshots = Priors.NoBracketMarkets
          <-> forall r, In r quotes -> toNumber (Raw.prob r) = None)
         /\ ((exists r, In r quotes /\ toNumber (Raw.prob r) <> None) ->
             Priors.renderEvent Date_getTime snapshots
             = Priors.Showing (Priors.cs_combined (Priors.buildCombinedSnapshot current)))).
Proof.
  split.
  - rewrite <- priors_latest_none. unfold Priors.renderEvent.
    destruct (Priors.pickLatestSnapshot Date_getTime snapshots) as [c|].
    + split; [|discriminate].
      destruct (Priors.cs_kalshi (Priors.buildCombinedSnapshot c)),
               (Priors.cs_polymarket (Priors.buildCombinedSnapshot c)); discriminate.
    + tauto.
  - intros current Hc quotes. unfold Priors.renderEvent. rewrite Hc.
    unfold Priors.buildCombinedSnapshot. cbn [Priors.cs_kalshi Priors.cs_polymarket Priors.cs_combined].
    set (k := Priors.normalizeDistribution (venueRanges "kalshi" (sources current))).
    set (p := Priors.normalizeDistribution (venueRanges "polymarket" (sources current))).
    assert (Hk : k = [] <-> forall r, In r (venueRanges "kalshi" (sources current)) ->
                                      toNumber (Raw.prob r) = None)
      by apply priors_normalize_nil_iff.
    assert (Hp : p = [] <-> forall r, In r (venueRanges "polymarket" (sources current)) ->
                                      toNumber (Raw.prob r) = None)
      by apply priors_normalize_nil_iff.
    assert (Hq : (k = [] /\ p = []) <-> forall r, In r quotes -> toNumber (Raw.prob r) = None).
    { unfold quotes. rewrite Hk, Hp. split.
      - intros [H1 H2] r Hr. apply in_app_or in Hr. destruct Hr; auto.
      - intro H. split; intros r Hr; apply H; apply in_or_app; auto. }
    split.
    + rewrite <- Hq. destruct k, p; split; intro H; try discriminate; auto;
        destruct H; discriminate.
    + intros (r & Hr & Hfin).
      destruct k as [|k0 k'] eqn:Ek; [destruct p as [|p0 p'] eqn:Ep|]; try reflexivity.
      exfalso. apply Hfin. apply Hq; auto.
Qed.

End TimelineFacts.

(** ** The history lines of the combined-distribution page *)

Module ClosestFacts.
Import Papers.

Lemma closest_fold (getTime : string -> option Z) (targetTs : Q)
      (l pre : list snapshot) (acc : option snapshot * number) :
  ((acc = (None, PosInfinity)
    /\ forall s, In s pre -> timestamp getTime s = None)
   \/ exists b d,
        acc = (Some b, Fin d)
        /\ exists before after,
             pre = before ++ b :: after
             /\ distanceTo getTime targetTs b = Some d
             /\ (forall s e, In s before -> distanceTo getTime targetTs s = Some e -> d < e)
             /\ (forall s e, In s after -> distanceTo getTime targetTs s = Some e -> d <= e)) ->
  let out := fold_left (Priors.closestStep getTime targetTs) l acc in
  (out = (None, PosInfinity)
   /\ forall s, In s (pre ++ l) -> timestamp getTime s = None)
  \/ exists b d,
       out = (Some b, Fin d)
       /\ exists before after,
            pre ++ l = before ++ b :: after
            /\ distanceTo getTime targetTs b = Some d
            /\ (forall s e, In s before -> distanceTo getTime targetTs s = Some e -> d < e)
            /\ (forall s e, In s after -> distanceTo getTime targetTs s = Some e -> d <= e).
Proof.
  revert pre acc. induction l as [|x l IH]; intros pre acc Inv; cbv zeta.
  - simpl. rewrite app_nil_r. exact Inv.
  - simpl. replace (pre ++ x :: l) with ((pre ++ [x]) ++ l)
      by (rewrite <- app_assoc; reflexivity).
    apply IH. unfold Priors.closestStep.
    destruct (timestamp getTime x) as [ts|] eqn:Ex.
    + set (diff := Qabs (inject_Z ts - targetTs)).
      assert (Dx : distanceTo getTime targetTs x = Some diff).
      { unfold distanceTo. rewrite Ex. reflexivity. }
      destruct Inv as [[-> Hnone] | (b & d & -> & before & after & Hpre & Db & Hb & Ha)].
      * right. exists x, diff. simpl. split; [reflexivity|].
        exists pre, []. repeat split; auto.
        -- intros s e Hs He. unfold distanceTo in He. rewrite (Hnone s Hs) in He. discriminate.
        -- intros s e [].
      * cbn [snd Priors.lessThan]. right.
        destruct (Qlt_bool diff d) eqn:El.
        -- apply Qlt_bool_iff in El. exists x, diff. split; [reflexivity|].
           exists pre, []. repeat split; auto; [|intros s e []].
           intros s e Hs He. rewrite Hpre in Hs. apply in_app_or in Hs.
           destruct Hs as [Hs|[Hs|Hs]].
           ++ pose proof (Hb s e Hs He). lra.
           ++ subst s. rewrite Db in He. inversion He; subst e. exact El.
           ++ pose proof (Ha s e Hs He). lra.
        -- apply Qlt_bool_false_iff in El. exists b, d. split; [reflexivity|].
           exists before, (after ++ [x]). rewrite Hpre, <- app_assoc. simpl.
           repeat split; auto.
           intros s e Hs He. apply in_app_or in Hs. destruct Hs as [Hs|[Hs|[]]].
           ++ apply (Ha s e Hs He).
           ++ subst s. rewrite Dx in He. inversion He; subst e. exact El.
    + destruct Inv as [[-> Hnone] | (b & d & -> & before & after & Hpre & Db & Hb & Ha)].
      * left. split; [reflexivity|]. intros s Hs. apply in_app_or in Hs.
        destruct Hs as [Hs|[Hs|[]]]; [apply Hnone; exact Hs | subst s; exact Ex].
      * right. exists b, d. split; [reflexivity|].
        exists before, (after ++ [x]). rewrite Hpre, <- app_assoc. simpl.
        repeat split; auto.
        intros s e Hs He. apply in_app_or in Hs. destruct Hs as [Hs|[Hs|[]]].
        -- apply (Ha s e Hs He).
        -- subst s. unfold distanceTo in He. rewrite Ex in He. discriminate.
Qed.

Lemma closest_cases (getTime : string -> option Z) (snapshots : list snapshot) (targetTs : Q) :
  (Priors.pickClosestSnapshot getTime snapshots targetTs = None
   /\ forall s, In s snapshots -> timestamp getTime s = None)
  \/ exists best,
       Priors.pickClosestSnapshot getTime snapshots targetTs = Some best
       /\ isClosest getTime targetTs snapshots best.
Proof.
  unfold Priors.pickClosestSnapshot.
  destruct (closest_fold getTime targetTs snapshots [] (None, PosInfinity))
    as [[E H] | (b & d & E & before & after & Hs & Db & Hb & Ha)].
  - left. split; [reflexivity | intros s []].
  - left. rewrite E. split; [reflexivity | exact H].
  - right. exists b. rewrite E. split; [reflexivity|].
    exists before, after, d. auto.
Qed.

(** X14.  [pickClosestSnapshot] returns null exactly when no snapshot has
    a parseable [as_of].  Otherwise it returns the first snapshot of the
    list whose timestamp is nearest to the target: every dated snapshot
    before it is strictly farther away, every one after it at least as
    far. *)
Theorem X14_closest_snapshot_is_first_nearest
    (Date_getTime : string -> option Z) (snapshots : list snapshot) (targetTs : Q) :
  (Priors.pickClosestSnapshot Date_getTime snapshots targetTs = None
   <-> forall s, In s snapshots -> timestamp Date_getTime s = None)
  /\ (forall best,
         Priors.pickClosestSnapshot Date_getTime snapshots targetTs = Some best ->
         isClosest Date_getTime targetTs snapshots best).
Proof.
  destruct (closest_cases Date_getTime snapshots targetTs) as [[E H] | (b & E & H)];
    rewrite E; split.
  - tauto.
  - discriminate.
  - split; [discriminate|]. intro Hnone. exfalso.
    destruct H as (before & after & d & Hs & Db & _).
    unfold distanceTo in Db. rewrite (Hnone b) in Db; [discriminate|].
    rewrite Hs. apply in_or_app. right. simpl. auto.
  - intros best Hb. inversion Hb; subst. exact H.
Qed.

(** The history built from a dated current snapshot has a line for every
    preset. *)
Lemma history_from_the_latest
    (Date_getTime : string -> option Z) (snapshots : list snapshot) (current : snapshot) :
  Priors.pickLatestSnapshot Date_getTime snapshots = Some current ->
  exists now s4 s2 s1,
    timestamp Date_getTime current = Some now
    /\ isClosest Date_getTime (inject_Z now - 28 * 24 * 60 * 60 * 1000) snapshots s4
    /\ isClosest Date_getTime (inject_Z now - 14 * 24 * 60 * 60 * 1000) snapshots s2
    /\ isClosest Date_getTime (inject_Z now - 7 * 24 * 60 * 60 * 1000) snapshots s1
    /\ map (fun row => (Priors.Preset.key (fst row), snd row))
           (Priors.history Date_getTime snapshots current)
       = [ ("4w"%string, Priors.cs_combined (Priors.buildCombinedSnapshot s4));
           ("2w"%string, Priors.cs_combined (Priors.buildCombinedSnapshot s2));
           ("1w"%string, Priors.cs_combined (Priors.buildCombinedSnapshot s1));
           ("current"%string, Priors.cs_combined (Priors.buildCombinedSnapshot current)) ].
Proof.
  intro Hc.
  destruct (TimelineFacts.priors_latest_is_greatest _ _ _ Hc) as (Hin & now & Hnow & _).
  assert (Hsome : forall target, exists s,
             Priors.pickClosestSnapshot Date_getTime snapshots target = Some s
             /\ isClosest Date_getTime target snapshots s).
  { intro target.
    destruct (closest_cases Date_getTime snapshots target) as [[_ H] | H]; [|exact H].
    rewrite (H current Hin) in Hnow. discriminate. }
  destruct (Hsome (inject_Z now - inject_Z 28 * 24 * 60 * 60 * 1000)) as (s4 & E4 & C4).
  destruct (Hsome (inject_Z now - inject_Z 14 * 24 * 60 * 60 * 1000)) as (s2 & E2 & C2).
  destruct (Hsome (inject_Z now - inject_Z 7 * 24 * 60 * 60 * 1000)) as (s1 & E1 & C1).
  exists now, s4, s2, s1.
  repeat split; try assumption.
  unfold Priors.history. rewrite Hnow.
  unfold Priors.HISTORY_PRESETS. cbn [filterMap].
  unfold Priors.historyRow at 1. cbn [Priors.Preset.key Priors.Preset.days String.eqb Ascii.eqb Bool.eqb].
  rewrite E4.
  unfold Priors.historyRow at 1. cbn [Priors.Preset.key Priors.Preset.days String.eqb Ascii.eqb Bool.eqb].
  rewrite E2.
  unfold Priors.historyRow at 1. cbn [Priors.Preset.key Priors.Preset.days String.eqb Ascii.eqb Bool.eqb].
  rewrite E1.
  unfold Priors.historyRow at 1. cbn [Priors.Preset.key Priors.Preset.days String.eqb Ascii.eqb Bool.eqb].
  reflexivity.
Qed.

(** X15.  [renderEvent] draws the history charts exactly when it takes
    neither error exit.  The history it then hands to [renderCharts] has
    a line for every preset, in the order 4w, 2w, 1w, current: the first
    three show the combined distribution of the snapshot nearest to 28,
    14 and 7 days before the current one, the last the current ranges. *)
Theorem X15_history_has_every_preset
    (Date_getTime : string -> option Z) (snapshots : list snapshot) :
  (Priors.renderedCharts Date_getTime snapshots = None
   <-> Priors.renderEvent Date_getTime snapshots = Priors.NoSnapshots
       \/ Priors.renderEvent Date_getTime snapshots = Priors.NoBracketMarkets)
  /\ (forall ranges h,
         Priors.renderedCharts Date_getTime snapshots = Some (ranges, h) ->
         Priors.renderEvent Date_getTime snapshots = Priors.Showing ranges
         /\ exists current now s4 s2 s1,
              Priors.pickLatestSnapshot Date_getTime snapshots = Some current
              /\ ranges = Priors.cs_combined (Priors.buildCombinedSnapshot current)
              /\ timestamp Date_getTime current = Some now
              /\ isClosest Date_getTime (inject_Z now - 28 * 24 * 60 * 60 * 1000)
                           snapshots s4
              /\ isClosest Date_getTime (inject_Z now - 14 * 24 * 60 * 60 * 1000)
                           snapshots s2
              /\ isClosest Date_getTime (inject_Z now - 7 * 24 * 60 * 60 * 1000)
                           snapshots s1
              /\ map (fun row => (Priors.Preset.key (fst row), snd row)) h
                 = [ ("4w"%string, Priors.cs_combined (Priors.buildCombinedSnapshot s4));
                     ("2w"%string, Priors.cs_combined (Priors.buildCombinedSnapshot s2));
                     ("1w"%string, Priors.cs_combined (Priors.buildCombinedSnapshot s1));
                     ("current"%string, ranges) ]).
Proof.
  unfold Priors.renderedCharts, Priors.renderEvent.
  destruct (Priors.pickLatestSnapshot Date_getTime snapshots) as [current|] eqn:Ec.
  - cbv zeta.
    assert (Hfull : forall ranges h,
               Some (Priors.cs_combined (Priors.buildCombinedSnapshot current),
                     Priors.history Date_getTime snapshots current) = Some (ranges, h) ->
               Priors.Showing (Priors.cs_combined (Priors.buildCombinedSnapshot current))
               = Priors.Showing ranges
               /\ exists current0 now s4 s2 s1,
                    Some current = Some current0
                    /\ ranges = Priors.cs_combined (Priors.buildCombinedSnapshot current0)
                    /\ timestamp Date_getTime current0 = Some now
                    /\ isClosest Date_getTime (inject_Z now - 28 * 24 * 60 * 60 * 1000)
                                 snapshots s4
                    /\ isClosest Date_getTime (inject_Z now - 14 * 24 * 60 * 60 * 1000)
                                 snapshots s2
                    /\ isClosest Date_getTime (inject_Z now - 7 * 24 * 60 * 60 * 1000)
                                 snapshots s1
                    /\ map (fun row => (Priors.Preset.key (fst row), snd row)) h
                       = [ ("4w"%string,
                            Priors.cs_combined (Priors.buildCombinedSnapshot s4));
                           ("2w"%string,
                            Priors.cs_combined (Priors.buildCombinedSnapshot s2));
                           ("1w"%string,
                            Priors.cs_combined (Priors.buildCombinedSnapshot s1));
                           ("current"%string, ranges) ]).
    { intros ranges h E. inversion E; subst ranges h. split; [reflexivity|].
      destruct (history_from_the_latest Date_getTime snapshots current Ec)
        as (now & s4 & s2 & s1 & Hnow & C4 & C2 & C1 & Hmap).
      exists current, now, s4, s2, s1. repeat split; assumption. }
    destruct (Priors.cs_kalshi (Priors.buildCombinedSnapshot current)) as [|k0 ks];
      [destruct (Priors.cs_polymarket (Priors.buildCombinedSnapshot current)) as [|p0 ps]|].
    + split; [split; [auto | reflexivity] | intros ranges h E; discriminate E].
    + split; [|exact Hfull].
      split; [discriminate | intros [H|H]; discriminate H].
    + split; [|exact Hfull].
      split; [discriminate | intros [H|H]; discriminate H].
  - split; [split; [auto | reflexivity] | intros ranges h E; discriminate E].
Qed.

End ClosestFacts.

(** ** The summary statistics of the combined-distribution page *)

Module StatsFacts.
Import Papers PapersFacts.

Lemma upper_middle_is_median (s : list Q) :
  StronglySorted Qle s -> s <> [] -> isMedian (nth (Nat.div (List.length s) 2) s 0) s.
Proof.
  intros Hs Hne.
  assert (Hn : (0 < List.length s)%nat) by (destruct s; [congruence | simpl; lia]).
  pose proof (Nat.div_mod_eq (List.length s) 2) as Hdm.
  pose proof (Nat.mod_upper_bound (List.length s) 2 ltac:(lia)) as Hmod.
  set (mid := Nat.div (List.length s) 2) in *.
  split.
  - pose proof (count_up_to s mid (nth mid s 0) Hs ltac:(lia) ltac:(lra)). lia.
  - pose proof (count_from s mid (nth mid s 0) Hs ltac:(lia) ltac:(lra)). lia.
Qed.

Lemma positiveWidth_spec (r : bounds) (w : Q) :
  Priors.positiveWidth r = Some w
  <-> exists l u, lower r = Some l /\ upper r = Some u /\ l < u /\ w = u - l.
Proof.
  unfold Priors.positiveWidth.
  destruct (lower r) as [l|], (upper r) as [u|]; cbv zeta.
  - destruct (Qlt_bool 0 (u - l)) eqn:E.
    + apply Qlt_bool_iff in E. split.
      * intro H. inversion H. exists l, u. repeat split; auto. lra.
      * intros (l' & u' & Hl & Hu & _ & ->). inversion Hl; inversion Hu. reflexivity.
    + apply Qlt_bool_false_iff in E. split; [discriminate|].
      intros (l' & u' & Hl & Hu & Hlt & _). inversion Hl; inversion Hu; subst. lra.
  - split; [discriminate | intros (l' & u' & _ & Hu & _); discriminate].
  - split; [discriminate | intros (l' & u' & Hl & _); discriminate].
  - split; [discriminate | intros (l' & u' & Hl & _); discriminate].
Qed.

(** X16.  [computeDefaultWidth] is always positive.  It looks only at the
    brackets closed on both sides with [lower < upper]: without any it is
    1, otherwise it is the width of one of them, a median of their
    widths, and the one at position [n / 2] (counted from 0) of their
    ascending order: the upper of the two middle ones when their number
    [n] is even. *)
Theorem X16_default_width_is_upper_median (ranges : list entry) :
  let widths := finiteOnes (map (fun r : entry => Priors.positiveWidth r) ranges) in
  let w := Priors.computeDefaultWidth ranges in
  0 < w
  /\ (forall x, In x widths
                <-> exists r : entry, In r ranges
                      /\ exists l u, lower r = Some l /\ upper r = Some u
                                     /\ l < u /\ x = u - l)
  /\ (widths = [] -> w = 1)
  /\ (widths <> [] ->
      In w widths /\ isMedian w widths
      /\ atRank (Nat.div (List.length widths) 2) w widths).
Proof.
  intros widths w.
  assert (Hw : forall x, In x widths
                <-> exists r : entry, In r ranges
                      /\ exists l u, lower r = Some l /\ upper r = Some u
                                     /\ l < u /\ x = u - l).
  { intro x. unfold widths. rewrite GridFacts.finiteOnes_In, in_map_iff. split.
    - intros (r & Hr & Hin). exists r. split; [exact Hin|].
      apply positiveWidth_spec. exact Hr.
    - intros (r & Hin & Hr). exists r. split; [|exact Hin].
      apply positiveWidth_spec. exact Hr. }
  pose proof (sortBy_perm (fun a b => Fin (a - b)) widths) as Hp.
  pose proof (sortBy_ascending_Q widths) as Hs.
  pose proof (sortBy_length (fun a b => Fin (a - b)) widths) as Hl.
  assert (Hcases : (widths = [] /\ w = 1)
                   \/ (widths <> [] /\ In w widths /\ isMedian w widths
                       /\ atRank (Nat.div (List.length widths) 2) w widths)).
  { unfold w, Priors.computeDefaultWidth. fold widths.
    destruct (sortBy (fun a b => Fin (a - b)) widths) as [|s0 s] eqn:E.
    - left. split; [|reflexivity].
      destruct widths; [reflexivity | simpl in Hl; discriminate].
    - right. rewrite <- E in *.
      assert (Hne : sortBy (fun a b => Fin (a - b)) widths <> [])
        by (rewrite E; discriminate).
      assert (Hne' : widths <> []) by (intro H0; rewrite H0 in Hne; apply Hne; reflexivity).
      assert (Hmid : (Nat.div (List.length (sortBy (fun a b => Fin (a - b)) widths)) 2
                      < List.length (sortBy (fun a b => Fin (a - b)) widths))%nat).
      { apply Nat.Div0.div_lt_upper_bound.
        destruct (sortBy (fun a b => Fin (a - b)) widths); [congruence | simpl; lia]. }
      split; [exact Hne'|]. split; [|split].
      + apply (Permutation_in _ Hp). apply nth_In. exact Hmid.
      + apply (isMedian_perm _ _ _ Hp).
        apply upper_middle_is_median; assumption.
      + rewrite <- Hl. apply (atRank_perm _ _ _ _ Hp).
        apply sorted_nth_atRank; assumption. }
  split; [|split; [exact Hw|split]].
  - destruct Hcases as [[_ ->] | (_ & Hin & _)]; [reflexivity|].
    apply Hw in Hin. destruct Hin as (r & _ & l & u & _ & _ & Hlt & ->). lra.
  - intro He. destruct Hcases as [[_ H] | (Hne & _)]; [exact H | contradiction].
  - intro Hne. destruct Hcases as [[He _] | (_ & H)]; [contradiction | exact H].
Qed.

Lemma sort_head_first_largest {A : Type} (weight : A -> Q) (l : list A) :
  l <> [] ->
  exists m before after,
    hd_error (sortBy (fun a b : A => Fin (weight b - weight a)) l) = Some m
    /\ l = before ++ m :: after
    /\ (forall r, In r before -> weight r < weight m)
    /\ (forall r, In r after -> weight r <= weight m).
Proof.
  induction l as [|x l IH]; intro Hne; [congruence|].
  destruct l as [|y l].
  - exists x, [], []. simpl. repeat split; auto; intros r [].
  - destruct IH as (m & before & after & Hhd & Hl & Hb & Ha); [discriminate|].
    change (sortBy (fun a b : A => Fin (weight b - weight a)) (x :: y :: l))
      with (insertBy (fun a b : A => Fin (weight b - weight a)) x
                     (sortBy (fun a b : A => Fin (weight b - weight a)) (y :: l))).
    destruct (sortBy (fun a b : A => Fin (weight b - weight a)) (y :: l)) as [|h rest];
      [discriminate|].
    simpl in Hhd. inversion Hhd; subst h. cbn [insertBy isPositive].
    destruct (Qlt_bool 0 (weight m - weight x)) eqn:E.
    + apply Qlt_bool_iff in E. exists m, (x :: before), after. rewrite Hl.
      repeat split; auto. intros r [<-|Hr]; [lra | apply Hb; exact Hr].
    + apply Qlt_bool_false_iff in E. exists x, [], (y :: l).
      repeat split; auto; [intros r []|].
      intros r Hr. rewrite Hl in Hr. apply in_app_or in Hr.
      destruct Hr as [Hr|[<-|Hr]].
      * pose proof (Hb r Hr). lra.
      * lra.
      * pose proof (Ha r Hr). lra.
Qed.

Lemma computeStats_some (ranges : list entry) (st : Priors.stats) :
  Priors.computeStats ranges = Some st ->
  ranges <> []
  /\ 0 < sumBy combined ranges
  /\ Priors.median st = Priors.medianLoop 0 ranges
  /\ Priors.mode st
     = hd_error (sortBy (fun a b : entry => Fin (combined b - combined a)) ranges).
Proof.
  unfold Priors.computeStats. cbv zeta.
  destruct ranges as [|r0 rs] eqn:Er; [discriminate|]. rewrite <- Er.
  destruct (Qle_bool (sumBy combined ranges) 0) eqn:Et; [discriminate|].
  destruct (filterMap _ ranges); [discriminate|].
  intro H. inversion H. cbn [Priors.median Priors.mode].
  repeat split; auto.
  - rewrite Er. discriminate.
  - apply Qlt_bool_iff. unfold Qlt_bool. rewrite Et. reflexivity.
Qed.

(** X17.  The mode that [computeStats] reports is the first bracket, in
    the order of the table, with the largest combined probability: the
    brackets before it have strictly less, the ones after it at most as
    much. *)
Theorem X17_mode_is_first_largest (ranges : list entry) (st : Priors.stats) :
  Priors.computeStats ranges = Some st ->
  exists m before after,
    Priors.mode st = Some m
    /\ ranges = before ++ m :: after
    /\ (forall r, In r before -> combined r < combined m)
    /\ (forall r, In r after -> combined r <= combined m).
Proof.
  intro H. apply computeStats_some in H. destruct H as (Hne & _ & _ & Hmode).
  destruct (sort_head_first_largest combined ranges Hne)
    as (m & before & after & Hhd & Hrest).
  exists m, before, after. rewrite Hmode. split; [exact Hhd | exact Hrest].
Qed.

(** X19.  [computeStats] returns null exactly when the combined
    probabilities do not have a positive total or no bracket has a finite
    bound (an empty list being both). *)
Theorem X19_stats_are_null_without_mass_or_bounds (ranges : list entry) :
  Priors.computeStats ranges = None
  <-> sumBy combined ranges <= 0
      \/ forall r : entry, In r ranges -> lower r = None /\ upper r = None.
Proof.
  assert (Hmid : forall (r : entry) w,
             Priors.withMidpoint w r = None <-> lower r = None /\ upper r = None).
  { intros r w. unfold Priors.withMidpoint, Priors.midpointForRange.
    destruct (lower r), (upper r); split; try discriminate; try tauto;
      intros [? ?]; discriminate. }
  unfold Priors.computeStats. cbv zeta.
  destruct ranges as [|r0 rs] eqn:Er.
  { split; [|reflexivity]. intros _. right. intros r []. }
  rewrite <- Er.
  destruct (Qle_bool (sumBy combined ranges) 0) eqn:Et.
  { apply Qle_bool_iff in Et. split; [auto | reflexivity]. }
  assert (Hpos : 0 < sumBy combined ranges).
  { apply Qlt_bool_iff. unfold Qlt_bool. rewrite Et. reflexivity. }
  destruct (filterMap (Priors.withMidpoint (Priors.computeDefaultWidth ranges)) ranges)
    as [|p ps] eqn:Ef.
  - split; [|reflexivity]. intros _. right. intros r Hr.
    apply (Hmid r (Priors.computeDefaultWidth ranges)).
    destruct (Priors.withMidpoint (Priors.computeDefaultWidth ranges) r) as [y|] eqn:Ey;
      [|reflexivity].
    assert (Hin : In y (filterMap (Priors.withMidpoint (Priors.computeDefaultWidth ranges))
                                  ranges))
      by (apply filterMap_In; exists r; auto).
    rewrite Ef in Hin. destruct Hin.
  - split; [discriminate|]. intros [Hle | Hopen]; [lra|]. exfalso.
    assert (Hin : In p (filterMap (Priors.withMidpoint (Priors.computeDefaultWidth ranges))
                                  ranges))
      by (rewrite Ef; simpl; auto).
    apply filterMap_In in Hin. destruct Hin as (r & Hr & Hy).
    apply Hopen in Hr. apply (Hmid r (Priors.computeDefaultWidth ranges)) in Hr.
    rewrite Hr in Hy. discriminate.
Qed.

End StatsFacts.

(** ** The top range of the metrics panel *)

Module TopFacts.
Import Papers.

Lemma bestLoop_first_largest (l pre : list Q) (acc : nat * number) :
  ((acc = (0%nat, NegInfinity) /\ pre = [])
   \/ exists before p after,
        acc = (List.length before, Fin p)
        /\ pre = before ++ p :: after
        /\ (forall q, In q before -> q < p)
        /\ (forall q, In q after -> q <= p)) ->
  (bestLoop (List.length pre) l acc = (0%nat, NegInfinity) /\ pre ++ l = [])
  \/ exists before p after,
       bestLoop (List.length pre) l acc = (List.length before, Fin p)
       /\ pre ++ l = before ++ p :: after
       /\ (forall q, In q before -> q < p)
       /\ (forall q, In q after -> q <= p).
Proof.
  revert pre acc. induction l as [|x l IH]; intros pre acc Inv.
  - simpl. rewrite app_nil_r. exact Inv.
  - cbn [bestLoop].
    replace (S (List.length pre)) with (List.length (pre ++ [x]))
      by (rewrite length_app; simpl; lia).
    replace (pre ++ x :: l) with ((pre ++ [x]) ++ l)
      by (rewrite <- app_assoc; reflexivity).
    apply IH. right.
    destruct Inv as [[-> ->] | (before & p & after & -> & Hpre & Hb & Ha)].
    + exists [], x, []. simpl. repeat split; auto; intros q [].
    + cbn [snd greaterThan]. destruct (Qlt_bool p x) eqn:E.
      * apply Qlt_bool_iff in E. exists pre, x, [].
        repeat split; auto; [|intros q []].
        intros q Hq. rewrite Hpre in Hq. apply in_app_or in Hq.
        destruct Hq as [Hq|[<-|Hq]].
        -- pose proof (Hb q Hq). lra.
        -- exact E.
        -- pose proof (Ha q Hq). lra.
      * apply Qlt_bool_false_iff in E. exists before, p, (after ++ [x]).
        rewrite Hpre, <- app_assoc. simpl. repeat split; auto.
        intros q Hq. apply in_app_or in Hq. destruct Hq as [Hq|[<-|[]]].
        -- apply (Ha q Hq).
        -- exact E.
Qed.

(** X20.  The top range of the metrics panel is the first standard bin,
    in grid order, with the largest aggregated share: the shares before
    it are strictly smaller, the ones after it at most as large.  It is
    shown whenever the grid has a bin at that position. *)
Theorem X20_top_range_is_first_largest
    (posteriorAgg : list Q) (standardBins : list bounds) :
  posteriorAgg <> [] ->
  exists before p after,
    posteriorAgg = before ++ p :: after
    /\ (forall q, In q before -> q < p)
    /\ (forall q, In q after -> q <= p)
    /\ topRange posteriorAgg standardBins
       = match nth_error standardBins (List.length before) with
         | Some bin => Some (bin, p)
         | None => None
         end.
Proof.
  intro Hne.
  destruct (bestLoop_first_largest posteriorAgg [] (0%nat, NegInfinity))
    as [[_ H] | (before & p & after & E & Hl & Hb & Ha)].
  - left. auto.
  - simpl in H. contradiction.
  - simpl in E, Hl. exists before, p, after. repeat split; auto.
    unfold topRange. destruct posteriorAgg as [|a agg] eqn:Eagg; [congruence|].
    rewrite <- Eagg in *. rewrite E.
    destruct (nth_error standardBins (List.length before)); reflexivity.
Qed.

End TopFacts.

(** ** The uncertainty chart *)

Module UncertaintyFacts.
Import Papers PapersFacts.

Lemma uncertaintyRow_ts (cutoff : Q) (item : snapshot * Z) (x : Z) (y : Q) :
  uncertaintyRow cutoff item = Some (x, y) ->
  x = snd item
  /\ exists p e p10_ p90_,
       posterior (fst item) = Some p /\ expected p = Some e
       /\ toNumber (ExpectedJson.p10 e) = Some p10_
       /\ toNumber (ExpectedJson.p90 e) = Some p90_
       /\ y = p90_ - p10_.
Proof.
  destruct item as [snap ts]. unfold uncertaintyRow.
  destruct (Qlt_bool (inject_Z ts) cutoff); [discriminate|].
  destruct (posterior snap) as [[bs [e|] vw]|] eqn:Ep; cbv beta iota; cbn [fst snd].
  - destruct (toNumber (ExpectedJson.p10 e)) as [a|] eqn:Ea; [|discriminate].
    destruct (toNumber (ExpectedJson.p90 e)) as [b|] eqn:Eb; [|discriminate].
    intro H. inversion H. split; [reflexivity|].
    exists (mkPosterior bs (Some e) vw), e, a, b. repeat split; auto.
  - discriminate.
  - discriminate.
Qed.

Lemma band_row_gives_width (m : meta) (cutoff : Q) (item : snapshot * Z)
      (x : Z) (v lo hi : Q) :
  seriesRow m "posterior" cutoff item = Some (x, v, Some (lo, hi)) ->
  uncertaintyRow cutoff item = Some (x, hi - lo).
Proof.
  destruct item as [snap ts]. unfold seriesRow, uncertaintyRow.
  destruct (Qlt_bool (inject_Z ts) cutoff); [discriminate|].
  unfold readExpectation, getPosterior.
  change (String.eqb "posterior" "posterior") with true. cbv beta iota zeta.
  destruct (posterior snap) as [[bs [e|] vw]|]; cbn [bins expected].
  - destruct bs as [|b0 bs]; [discriminate|].
    destruct (toNumber (ExpectedJson.mean e)) as [mu|]; [|discriminate].
    destruct (toNumber (ExpectedJson.p10 e)) as [a|]; [|discriminate].
    destruct (toNumber (ExpectedJson.p90 e)) as [b|]; [|discriminate].
    intro H. inversion H. reflexivity.
  - destruct bs; discriminate.
  - discriminate.
Qed.

(** X21.  [buildUncertaintySeries] is empty unless the band is the 80%
    one (0.1, 0.9).  Its points are in ascending timestamp order, and
    each is the width [p90 - p10] stored in the posterior of a snapshot
    with that timestamp.  At every point where the posterior expectation
    series has a band, the uncertainty series has the width of that
    band. *)
Theorem X21_uncertainty_is_the_band_width
    (Date_getTime : string -> option Z) (snapshots : list snapshot)
    (m : meta) (lookbackDays : Q) (band : option (Q * Q)) :
  let u := buildUncertaintySeries Date_getTime snapshots lookbackDays band in
  let sr := buildExpectationSeries Date_getTime snapshots m "posterior" lookbackDays in
  ((forall lo hi, band = Some (lo, hi) -> ~ (lo == 0.1 /\ hi == 0.9)) -> u = [])
  /\ StronglySorted Z.le (map fst u)
  /\ (forall x y, In (x, y) u ->
        exists snap p e p10_ p90_,
          In snap snapshots /\ timestamp Date_getTime snap = Some x
          /\ posterior snap = Some p /\ expected p = Some e
          /\ toNumber (ExpectedJson.p10 e) = Some p10_
          /\ toNumber (ExpectedJson.p90 e) = Some p90_
          /\ y = p90_ - p10_)
  /\ (band = Some (0.1, 0.9) ->
      forall x lo, In (x, lo) (bandLow sr) ->
                   exists hi, In (x, hi) (bandHigh sr) /\ In (x, hi - lo) u).
Proof.
  cbv zeta. unfold buildUncertaintySeries, buildExpectationSeries.
  set (cmp := fun a b : snapshot * Z => Fin (inject_Z (snd a - snd b))).
  pose proof (sort_ascending_ts (stamped Date_getTime snapshots)) as Hs.
  pose proof (sortBy_perm cmp (stamped Date_getTime snapshots)) as Hp.
  fold cmp in Hs.
  set (sorted := sortBy cmp (stamped Date_getTime snapshots)) in *.
  split; [|split; [|split]].
  - intro Hband. destruct band as [[lo hi]|]; [|reflexivity].
    destruct (Qeq_bool lo 0.1) eqn:El; [|reflexivity].
    destruct (Qeq_bool hi 0.9) eqn:Eh; [|reflexivity].
    exfalso. apply (Hband lo hi eq_refl). split; apply Qeq_bool_iff; assumption.
  - destruct band as [[lo hi]|]; [|constructor].
    destruct (negb (Qeq_bool lo 0.1) || negb (Qeq_bool hi 0.9)); [constructor|].
    destruct sorted as [|first rest] eqn:E; [constructor|]. rewrite <- E in *.
    cbv zeta.
    set (cutoff := inject_Z (snd (last sorted first)) - lookbackDays * 24 * 60 * 60 * 1000).
    apply StronglySorted_map.
    apply (filterMap_sorted _ (fun a b : snapshot * Z => (snd a <= snd b)%Z)); [|exact Hs].
    intros a a' [x y] [x' y'] Hle Ha Ha'.
    apply uncertaintyRow_ts in Ha. apply uncertaintyRow_ts in Ha'.
    destruct Ha as [-> _], Ha' as [-> _]. exact Hle.
  - intros x y Hin. destruct band as [[lo hi]|]; [|destruct Hin].
    destruct (negb (Qeq_bool lo 0.1) || negb (Qeq_bool hi 0.9)); [destruct Hin|].
    destruct sorted as [|first rest] eqn:E; [destruct Hin|]. rewrite <- E in *.
    cbv zeta in Hin. apply filterMap_In in Hin. destruct Hin as ([snap ts] & Hin & Hrow).
    apply uncertaintyRow_ts in Hrow. cbn [fst snd] in Hrow.
    destruct Hrow as (-> & p & e & a & b & H1 & H2 & H3 & H4 & H5).
    apply (Permutation_in _ Hp) in Hin. apply stamped_In in Hin. destruct Hin as [Hi1 Hi2].
    exists snap, p, e, a, b. repeat split; assumption.
  - intros -> x lo Hin.
    change (negb (Qeq_bool 0.1 0.1) || negb (Qeq_bool 0.9 0.9)) with false.
    cbv iota.
    destruct sorted as [|first rest] eqn:E; [destruct Hin|]. rewrite <- E in *.
    cbn [bandLow bandHigh] in *. cbv zeta in *.
    set (cutoff := inject_Z (snd (last sorted first)) - lookbackDays * 24 * 60 * 60 * 1000) in *.
    apply filterMap_In in Hin. destruct Hin as ([[ts v] [[lo' hi]|]] & Hin & Hb);
      [|discriminate].
    simpl in Hb. inversion Hb; subst ts lo'. clear Hb.
    exists hi. split.
    + apply filterMap_In. exists (x, v, Some (lo, hi)). split; [exact Hin | reflexivity].
    + apply filterMap_In in Hin. destruct Hin as (item & Hitem & Hrow).
      apply filterMap_In. exists item. split; [exact Hitem|].
      apply (band_row_gives_width m _ _ _ v). exact Hrow.
Qed.

End UncertaintyFacts.

(** ** The source pills of the paper feed *)

Module FeedFacts.

Lemma has_In (id : string) (s : list string) : Feed.has id s = true <-> In id s.
Proof.
  unfold Feed.has. rewrite existsb_exists. split.
  - intros (x & Hx & E). apply String.eqb_eq in E. subst x. exact Hx.
  - intro H. exists id. split; [exact H | apply String.eqb_refl].
Qed.

Lemma has_not_In (id : string) (s : list string) : Feed.has id s = false <-> ~ In id s.
Proof.
  rewrite <- has_In. destruct (Feed.has id s); split; congruence.
Qed.

Lemma delete_In (id x : string) (s : list string) :
  In x (Feed.delete id s) <-> In x s /\ x <> id.
Proof.
  unfold Feed.delete. rewrite filter_In.
  destruct (String.eqb_spec id x) as [->|Hne]; simpl; split; intros [H1 H2];
    try discriminate; try congruence; split; auto.
Qed.

Lemma click_cases (id : string) (s : list string) :
  NoDup s ->
  (s = [id] /\ Feed.click id s = s)
  \/ (In id s /\ s <> [id] /\ Feed.click id s = Feed.delete id s)
  \/ (~ In id s /\ Feed.click id s = s ++ [id]).
Proof.
  intro Hnd. unfold Feed.click, Feed.add, Feed.size.
  destruct (Feed.has id s) eqn:Eh.
  - apply has_In in Eh. destruct (Nat.eqb_spec (List.length s) 1) as [El|El]; simpl.
    + left. destruct s as [|a [|b s]]; try discriminate.
      destruct Eh as [->|[]]. auto.
    + right. left. repeat split; auto. intros ->. apply El. reflexivity.
  - apply has_not_In in Eh. simpl. right. right. auto.
Qed.

Lemma click_keeps_a_set (id : string) (s : list string) :
  NoDup s -> s <> [] -> NoDup (Feed.click id s) /\ Feed.click id s <> [].
Proof.
  intros Hnd Hne.
  destruct (click_cases id s Hnd) as [[_ ->] | [(Hin & Hs & ->) | (Hout & ->)]].
  - auto.
  - split; [apply NoDup_filter; exact Hnd|].
    assert (Hother : exists x, In x s /\ x <> id).
    { destruct s as [|a [|b s]]; [congruence | |].
      - destruct Hin as [->|[]]. congruence.
      - inversion Hnd as [|? ? Hab _]; subst.
        destruct (String.eqb_spec a id) as [->|Ha].
        + exists b. split; [simpl; auto|]. intros ->. apply Hab. simpl. auto.
        + exists a. split; [simpl; auto | exact Ha]. }
    destruct Hother as (x & Hx & Hxid). intro E.
    assert (H : In x (Feed.delete id s)) by (apply delete_In; auto).
    rewrite E in H. destruct H.
  - split.
    + apply NoDup_app; [exact Hnd | repeat constructor; intros [] |].
      intros x Hx [<-|[]]. contradiction.
    + destruct s; discriminate.
Qed.

(** X22.  Clicking the source pills never leaves the paper feed without a
    source: from a non-empty set of active sources, any sequence of
    clicks leads to a non-empty set without duplicates.  A click toggles
    the clicked source and no other one, except that the click on the
    only active source is ignored. *)
Theorem X22_one_source_always_stays_active (activeSources : list string) :
  NoDup activeSources -> activeSources <> [] ->
  (forall ids, NoDup (Feed.clicks ids activeSources)
               /\ Feed.clicks ids activeSources <> [])
  /\ (forall id other, other <> id ->
        (In other (Feed.click id activeSources) <-> In other activeSources))
  /\ (forall id, In id (Feed.click id activeSources)
                 <-> ~ In id activeSources \/ activeSources = [id]).
Proof.
  intros Hnd Hne. split; [|split].
  - intro ids. revert activeSources Hnd Hne. unfold Feed.clicks.
    induction ids as [|id ids IH]; intros s Hnd Hne; simpl; [auto|].
    destruct (click_keeps_a_set id s Hnd Hne) as [H1 H2]. apply IH; assumption.
  - intros id other Hoth.
    destruct (click_cases id activeSources Hnd) as [[_ ->] | [(Hin & Hs & ->) | (Hout & ->)]].
    + tauto.
    + rewrite delete_In. tauto.
    + rewrite in_app_iff. simpl. split; [intros [H|[H|[]]]; [exact H | congruence] | auto].
  - intro id.
    destruct (click_cases id activeSources Hnd) as [[E ->] | [(Hin & Hs & ->) | (Hout & ->)]].
    + split; [auto|]. intros _. rewrite E. simpl. auto.
    + rewrite delete_In. split; [intros [_ H]; congruence | intros [H|H]; contradiction].
    + rewrite in_app_iff. simpl. split; auto.
Qed.

End FeedFacts.

(** ** The table of the posterior page and the event list *)

Module TableFacts.
Import Papers PapersFacts.

Lemma indexed_In {A : Type} (l : list A) (idx : nat) (x : A) :
  In (idx, x) (indexed l) -> (idx < List.length l)%nat.
Proof.
  unfold indexed. intro H. apply in_combine_l in H. apply in_seq in H. lia.
Qed.

Lemma indexed_values {A : Type} (l : list A) : map snd (indexed l) = l.
Proof.
  unfold indexed. generalize 0%nat. induction l as [|x l IH]; intro n; simpl.
  - reflexivity.
  - rewrite IH. reflexivity.
Qed.

Lemma column_cells (ranges : list Raw.range) (bins_ : list bounds) (m : meta) :
  bins_ <> [] ->
  blankOrFilled
    (map (fun item : nat * bounds =>
            nth_error (aggregateRangesToStandard ranges bins_ m) (fst item))
         (indexed bins_))
    ranges.
Proof.
  intro Hb. destruct (normalizeDistribution ranges) as [|c0 cs] eqn:Ec.
  - left. split; [exact Ec|]. intros c Hc. apply in_map_iff in Hc.
    destruct Hc as (item & <- & _).
    rewrite (aggregate_empty ranges bins_ m) by (right; exact Ec).
    destruct (fst item); reflexivity.
  - right. unfold blankOrFilled. rewrite Ec. split; [discriminate|].
    intros c Hc. apply in_map_iff in Hc. destruct Hc as ([idx b] & <- & Hin).
    apply indexed_In in Hin. cbn [fst].
    rewrite aggregate_unfold by (auto; rewrite Ec; discriminate). cbv zeta.
    set (totals := fold_left _ _ _).
    assert (Hlen : List.length totals = List.length bins_).
    { unfold totals. rewrite totals_length. apply length_map. }
    assert (Hnn : 0 <= nth idx totals 0) by apply NormalizerFacts.totals_nonneg.
    destruct (Qlt_bool 0 (sumBy (fun v => v) totals)) eqn:E.
    + apply Qlt_bool_iff in E.
      exists (nth idx (map (fun value => value / sumBy (fun v => v) totals) totals) 0).
      split.
      * apply nth_error_nth'. rewrite length_map. lia.
      * rewrite nth_quotient. apply Qle_shift_div_l; [exact E | lra].
    + exists (nth idx totals 0). split; [|exact Hnn].
      apply nth_error_nth'. lia.
Qed.

(** X23.  [renderTable] shows "No data available." exactly when the grid
    is empty.  Otherwise it has one row per standard bin, in grid order,
    and each of the three columns is either blank in every row (when the
    ranges behind it hold no finite probability) or holds a non-negative
    share in every row. *)
Theorem X23_table_columns_are_blank_or_filled (snap : snapshot) (m : meta) :
  let baseBins := getBinsFromSources (sources snap) in
  let standardBins := buildStandardBins baseBins m in
  (renderTable snap m = None <-> standardBins = [])
  /\ (forall rows blend,
         renderTable snap m = Some (rows, blend) ->
         map TableRow.bin rows = standardBins
         /\ blankOrFilled (map TableRow.kalshi rows)
                          (venueRanges "kalshi" (sources snap))
         /\ blankOrFilled (map TableRow.polymarket rows)
                          (venueRanges "polymarket" (sources snap))
         /\ blankOrFilled (map TableRow.posterior rows)
                          (map withProb (getPosteriorBins snap baseBins))).
Proof.
  cbv zeta. unfold renderTable.
  destruct (buildStandardBins (getBinsFromSources (sources snap)) m) as [|g0 gs] eqn:Eg.
  - split; [tauto | discriminate].
  - rewrite <- Eg in *.
    assert (Hne : buildStandardBins (getBinsFromSources (sources snap)) m <> [])
      by (rewrite Eg; discriminate).
    split; [split; [discriminate | contradiction]|].
    intros rows blend H. inversion H as [[Hrows Hblend]]. clear H Hblend.
    rewrite !map_map.
    split; [|split; [|split]].
    + rewrite <- (indexed_values (buildStandardBins _ m)) at 2.
      apply map_ext. intros [idx b]. reflexivity.
    + erewrite map_ext; [apply (column_cells _ _ m Hne)|].
      intros [idx b]. reflexivity.
    + erewrite map_ext; [apply (column_cells _ _ m Hne)|].
      intros [idx b]. reflexivity.
    + erewrite map_ext; [apply (column_cells _ _ m Hne)|].
      intros [idx b]. reflexivity.
Qed.

Lemma eventGet_eventSet (k k' : string) (v : Event.t) (m : list (string * Event.t)) :
  eventGet k (eventSet k' v m) = if String.eqb k' k then Some v else eventGet k m.
Proof.
  induction m as [|[k0 v0] m IH]; simpl.
  - reflexivity.
  - destruct (String.eqb_spec k0 k') as [->|Hne]; simpl.
    + destruct (String.eqb k' k); reflexivity.
    + rewrite IH. destruct (String.eqb_spec k0 k) as [->|Hne'].
      * destruct (String.eqb_spec k' k) as [->|_]; [congruence | reflexivity].
      * reflexivity.
Qed.

Lemma event_lookup_is_last (dataEvents : list Event.t) (k : string) :
  match eventGet k (fold_left (fun m event => eventSet (Event.id event) event m)
                              dataEvents [])
  with
  | None => forall x, In x dataEvents -> Event.id x <> k
  | Some e =>
      exists before after,
        dataEvents = before ++ e :: after
        /\ Event.id e = k
        /\ forall x, In x after -> Event.id x <> k
  end.
Proof.
  induction dataEvents as [|e l IH] using rev_ind.
  - simpl. intros x [].
  - rewrite fold_left_app. cbn [fold_left]. rewrite eventGet_eventSet.
    destruct (String.eqb_spec (Event.id e) k) as [E|E].
    + exists l, []. split; [reflexivity|]. split; [exact E|]. intros x [].
    + destruct (eventGet k _) as [found|].
      * destruct IH as (before & after & -> & Hid & Hafter).
        exists before, (after ++ [e]). rewrite <- app_assoc. repeat split; auto.
        intros x Hx. apply in_app_or in Hx. destruct Hx as [Hx|[<-|[]]]; auto.
      * intros x Hx. apply in_app_or in Hx. destruct Hx as [Hx|[<-|[]]]; auto.
Qed.

(** X24.  [getEventList] always returns four events with the ids nfp,
    unemployment, cpi and fed, in that order, whatever the data holds.
    For each id it is the last event of the data with that id, or, when
    the data has none, a placeholder without snapshots. *)
Theorem X24_event_list_is_the_four_defaults (dataEvents : list Event.t) :
  let out := getEventList dataEvents in
  map Event.id out = ["nfp"; "unemployment"; "cpi"; "fed"]%string
  /\ Forall2 (fun (e : Event.t) (d : DefaultEvent.t) =>
                ((forall x, In x dataEvents -> Event.id x <> DefaultEvent.id d)
                 /\ e = placeholder d /\ Event.snapshots e = [])
                \/ exists before after,
                     dataEvents = before ++ e :: after
                     /\ Event.id e = DefaultEvent.id d
                     /\ forall x, In x after -> Event.id x <> DefaultEvent.id d)
             out DEFAULT_EVENTS.
Proof.
  cbv zeta.
  assert (H : forall d,
             let e := match eventGet (DefaultEvent.id d)
                              (fold_left (fun m event => eventSet (Event.id event) event m)
                                         dataEvents [])
                      with Some found => found | None => placeholder d end in
             Event.id e = DefaultEvent.id d
             /\ (((forall x, In x dataEvents -> Event.id x <> DefaultEvent.id d)
                  /\ e = placeholder d /\ Event.snapshots e = [])
                 \/ exists before after,
                      dataEvents = before ++ e :: after
                      /\ Event.id e = DefaultEvent.id d
                      /\ forall x, In x after -> Event.id x <> DefaultEvent.id d)).
  { intro d. cbv zeta.
    pose proof (event_lookup_is_last dataEvents (DefaultEvent.id d)) as Hl.
    destruct (eventGet (DefaultEvent.id d) _) as [found|].
    - destruct Hl as (before & after & Hd & Hid & Hafter).
      split; [exact Hid|]. right. exists before, after. auto.
    - split; [reflexivity|]. left. auto. }
  unfold getEventList, DEFAULT_EVENTS. cbn [map].
  split.
  - repeat (f_equal; [apply (H (DefaultEvent.mk _ _ _ _))|]).
    f_equal. apply (H (DefaultEvent.mk _ _ _ _)).
  - repeat (constructor; [apply (H (DefaultEvent.mk _ _ _ _))|]). constructor.
Qed.

End TableFacts.

(** ** What a combined entry holds for each venue *)

Module QuoteFacts.
Import Papers PapersFacts BracketFacts.

Lemma mapGet_sameKey {V : Type} (b k : bounds) (m : list (bounds * V)) :
  sameKey b k = true -> mapGet b m = mapGet k m.
Proof.
  intro Hk. induction m as [|[k0 w] m IH]; simpl; [reflexivity|].
  destruct (sameKey k0 b) eqn:E1, (sameKey k0 k) eqn:E2; auto.
  - rewrite (sameKey_trans k0 b k E1 Hk) in E2. discriminate.
  - rewrite (sameKey_sym b k) in Hk.
    rewrite (sameKey_trans k0 k b E2 Hk) in E1. discriminate.
Qed.

Lemma mapGet_member {V : Type} (k : bounds) (v : V) (m : list (bounds * V)) :
  distinctKeys (map fst m) -> In (k, v) m -> mapGet k m = Some v.
Proof.
  unfold distinctKeys. induction m as [|[k0 w] m IH]; simpl; intros Hd Hin; [destruct Hin|].
  inversion Hd as [|? ? Hfirst Hrest]; subst.
  destruct Hin as [E|Hin].
  - inversion E; subst. rewrite sameKey_refl. reflexivity.
  - rewrite Forall_forall in Hfirst.
    rewrite (Hfirst k) by (apply (in_map fst _ _ Hin)).
    apply IH; assumption.
Qed.

Lemma ingestOne_lookup (v : venue) (m : list (bounds * cell)) (b : bounds) (p : option Q)
      (k : bounds) :
  mapGet k (ingestOne v m b p)
  = if sameKey b k
    then Some (setVenue v p match mapGet k m with
                            | Some c => c
                            | None => {| cbnd := b; kalshi := None; polymarket := None |}
                            end)
    else mapGet k m.
Proof.
  unfold ingestOne. destruct (sameKey b k) eqn:E.
  - rewrite (mapGet_mapSet_same b k) by exact E.
    rewrite (mapGet_sameKey b k m E). reflexivity.
  - apply mapGet_mapSet_other. exact E.
Qed.

Lemma ingest_quotes (v w : venue) (clean : list range) (m : list (bounds * cell))
      (k : bounds) :
  match mapGet k (fold_left
                    (fun m (r : range) =>
                       ingestOne v m {| lower := lower r; upper := upper r |} (prob r))
                    clean m)
  with
  | Some c => quoteOf w c
  | None => None
  end
  = if match v, w with Kalshi, Kalshi | Polymarket, Polymarket => true | _, _ => false end
    then fold_left (fun acc (r : range) => if sameKey r k then prob r else acc) clean
                   match mapGet k m with Some c => quoteOf w c | None => None end
    else match mapGet k m with Some c => quoteOf w c | None => None end.
Proof.
  revert m. induction clean as [|r clean IH]; intro m; cbn [fold_left].
  - destruct v, w; reflexivity.
  - rewrite IH. rewrite ingestOne_lookup.
    change (sameKey {| lower := lower r; upper := upper r |} k) with (sameKey r k).
    destruct (sameKey r k); [|reflexivity].
    destruct (mapGet k m) as [c|]; destruct v, w; reflexivity.
Qed.

(** X25.  Every entry of [combineDistributions] holds, for each venue,
    the probability of the venue's last cleaned range with the entry's
    bracket, and null when the venue has none.  At least one venue has
    one, and [combinedRaw] is the mean of the values present. *)
Theorem X25_entry_holds_each_venues_last_quote (s : venueMap) (e : entry) :
  In e (combineDistributions s) ->
  kalshi e = quoteFor e (normalizeDistribution (venueRanges "kalshi" s))
  /\ polymarket e = quoteFor e (normalizeDistribution (venueRanges "polymarket" s))
  /\ exists raw,
       combinedRaw e = Some raw
       /\ raw == match kalshi e, polymarket e with
                 | Some k, Some p => (k + p) / 2
                 | Some k, None => k
                 | None, Some p => p
                 | None, None => 0
                 end
       /\ (kalshi e <> None \/ polymarket e <> None).
Proof.
  unfold combineDistributions. cbv zeta.
  set (K := venueRanges "kalshi" s). set (P := venueRanges "polymarket" s).
  set (mk := ingest Kalshi K []). set (m := ingest Polymarket P mk).
  intro Hin.
  assert (Hinv0 : distinctKeys (map fst (@nil (bounds * cell)))
                  /\ Forall (fun kv : bounds * cell => sameKey (fst kv) (cbnd (snd kv)) = true) [])
    by (split; constructor).
  destruct (papers_ingest_invariant Kalshi K [] (proj1 Hinv0) (proj2 Hinv0)) as [Hd1 Hk1].
  destruct (papers_ingest_invariant Polymarket P mk Hd1 Hk1) as [Hd Hk].
  fold mk in Hd1, Hk1. fold m in Hd, Hk.
  unfold finishCombine in Hin. cbv zeta in Hin.
  apply (Permutation_in _ (sortBy_perm _ _)) in Hin.
  apply in_map_iff in Hin. destruct Hin as ([c raw] & He & Hin).
  apply in_map_iff in Hin. destruct Hin as (c' & Hc & Hin).
  unfold withCombinedRaw in Hc. inversion Hc; subst c' raw. clear Hc.
  unfold mapValues in Hin. apply in_map_iff in Hin. destruct Hin as ([k0 c0] & Hc0 & Hin).
  simpl in Hc0. subst c0.
  assert (Hkey : sameKey k0 (cbnd c) = true).
  { rewrite Forall_forall in Hk. apply (Hk (k0, c) Hin). }
  assert (Hget : mapGet (cbnd c) m = Some c).
  { rewrite <- (mapGet_sameKey k0 (cbnd c) m Hkey). apply mapGet_member; assumption. }
  assert (HK : kalshi c = quoteFor c (normalizeDistribution K)).
  { pose proof (ingest_quotes Polymarket Kalshi (normalizeDistribution P) mk (cbnd c)) as QA.
    pose proof (ingest_quotes Kalshi Kalshi (normalizeDistribution K) [] (cbnd c)) as QB.
    fold (ingest Polymarket P mk) in QA. fold m in QA. rewrite Hget in QA.
    fold (ingest Kalshi K []) in QB. fold mk in QB.
    cbn [quoteOf] in QA, QB. cbv iota in QA, QB. rewrite QA. exact QB. }
  assert (HP : polymarket c = quoteFor c (normalizeDistribution P)).
  { pose proof (ingest_quotes Polymarket Polymarket (normalizeDistribution P) mk (cbnd c)) as QA.
    pose proof (ingest_quotes Kalshi Polymarket (normalizeDistribution K) [] (cbnd c)) as QB.
    fold (ingest Polymarket P mk) in QA. fold m in QA. rewrite Hget in QA.
    fold (ingest Kalshi K []) in QB. fold mk in QB.
    cbn [quoteOf] in QA, QB. cbv iota in QA, QB. cbn [mapGet] in QB.
    rewrite QA, QB. reflexivity. }
  subst e. cbn [withCombined ecell combinedRaw fst snd].
  split; [exact HK|]. split; [exact HP|].
  assert (Hsome : kalshi c <> None \/ polymarket c <> None).
  { assert (Hsrc : forall (l : list range) acc,
               (forall r, In r l -> prob r <> None) ->
               acc <> None \/ (exists r, In r l /\ sameKey r (cbnd c) = true) ->
               fold_left (fun acc (r : range) => if sameKey r (cbnd c) then prob r else acc)
                         l acc <> None).
    { induction l as [|r l IHl]; intros acc Hp [Hacc|(r0 & Hr0 & Hs0)]; simpl.
      - exact Hacc.
      - destruct Hr0.
      - apply IHl; [intros; apply Hp; simpl; auto|]. left.
        destruct (sameKey r (cbnd c)); [apply Hp; simpl; auto | exact Hacc].
      - apply IHl; [intros; apply Hp; simpl; auto|].
        destruct Hr0 as [->|Hr0].
        + left. rewrite Hs0. apply Hp. simpl. auto.
        + right. exists r0. auto. }
    assert (Hprob : forall ranges r, In r (normalizeDistribution ranges) -> prob r <> None).
    { intros ranges r Hr. destruct (normalized_has_prob ranges r Hr) as (p & ->). discriminate. }
    assert (Hfrom : forall (v : venue) (l : list range) (m0 : list (bounds * cell))
                           (c' : cell),
               In (k0, c')
                  (fold_left (fun m (r : range) =>
                                ingestOne v m {| lower := lower r; upper := upper r |} (prob r))
                             l m0) ->
               In k0 (map fst m0) \/ exists r, In r l /\ sameKey r k0 = true).
    { intros v l. induction l as [|r l IHl]; intros m0 c' QZ; cbn [fold_left] in QZ.
      - left. apply (in_map fst _ _ QZ).
      - destruct (IHl _ _ QZ) as [QA|(r1 & Hr1 & Hs1)].
        + unfold ingestOne in QA.
          destruct (mapSet_keys {| lower := lower r; upper := upper r |}
                                (setVenue v (prob r)
                                   match mapGet {| lower := lower r; upper := upper r |} m0 with
                                   | Some c1 => c1
                                   | None => {| cbnd := {| lower := lower r; upper := upper r |};
                                                kalshi := None; polymarket := None |}
                                   end) m0) as [E|[_ E]]; rewrite E in QA.
          * left. exact QA.
          * apply in_app_or in QA. destruct QA as [QA|[E'|[]]]; [left; exact QA|].
            right. exists r. split; [simpl; auto|]. rewrite <- E'.
            unfold sameKey. cbn [lower upper]. rewrite !sameBound_refl. reflexivity.
        + right. exists r1. split; [simpl; auto | exact Hs1]. }
    assert (Hsame : forall r : range, sameKey r k0 = true -> sameKey r (cbnd c) = true)
      by (intros r Hr; apply (sameKey_trans r k0 (cbnd c) Hr Hkey)).
    destruct (Hfrom Polymarket (normalizeDistribution P) mk c Hin) as [QA|(r & Hr & Hs)].
    - apply in_map_iff in QA. destruct QA as ([k1 c1] & Hk1' & Hin1). simpl in Hk1'. subst k1.
      destruct (Hfrom Kalshi (normalizeDistribution K) [] c1 Hin1) as [[]|(r & Hr & Hs)].
      left. rewrite HK. apply Hsrc; [apply Hprob|]. right. exists r. auto.
    - right. rewrite HP. apply Hsrc; [apply Hprob|]. right. exists r. auto. }
  unfold presentSources.
  destruct (kalshi c) as [k|], (polymarket c) as [p|]; cbn [List.length sumBy fold_left].
  - eexists. split; [reflexivity|]. split; [|exact Hsome].
    change (inject_Z (Z.of_nat 2)) with 2. field.
  - eexists. split; [reflexivity|]. split; [|exact Hsome].
    change (inject_Z (Z.of_nat 1)) with 1. field.
  - eexists. split; [reflexivity|]. split; [|exact Hsome].
    change (inject_Z (Z.of_nat 1)) with 1. field.
  - exfalso. destruct Hsome as [H|H]; apply H; reflexivity.
Qed.

End QuoteFacts.

(** ** The further properties at work on the sample data *)

Module MoreWitnesses.
Import Papers PapersFacts.

Lemma X2_mass_is_conserved_witness :
  nth 1 (aggregateRangesToStandard Sample.quotes Sample.grid Sample.jobs) 0
  == sumBy (fun r => contribution (findMinBound Sample.grid)
                                  (findMaxBound Sample.grid (findMinBound Sample.grid)
                                                (stepForMeta Sample.jobs))
                                  (stepForMeta Sample.jobs) r
                                  (nth 1 Sample.grid (mkBounds None None)))
           (normalizeDistribution Sample.quotes).
Proof.
  apply (NormalizerFacts.X2_mass_is_conserved
           Sample.quotes Sample.grid Sample.jobs (-25000) 75000 (mkBounds None None)).
  - vm_compute. repeat split; discriminate.
  - intros r p Hin E. vm_compute in Hin. destruct Hin as [<-|[<-|[]]];
      vm_compute in E; inversion E; vm_compute; discriminate.
  - intros r p Hin E _. vm_compute in Hin. destruct Hin as [<-|[<-|[]]];
      vm_compute; repeat split; try reflexivity; discriminate.
  - vm_compute. reflexivity.
  - vm_compute. lia.
Defined.

Lemma X10_expected_value_is_an_average_witness :
  exists e,
    expectedFromRanges Sample.quotes [Sample.closed 0 50000; Sample.above 50000] = Some e
    /\ 25000 <= e <= 75000.
Proof.
  apply (EstimateFacts.X10_expected_value_is_an_average
           Sample.quotes [Sample.closed 0 50000; Sample.above 50000] 25000 75000).
  - intros r p Hin E. vm_compute in Hin. destruct Hin as [<-|[<-|[]]];
      vm_compute in E; inversion E; vm_compute; discriminate.
  - vm_compute. reflexivity.
  - intros r Hin. vm_compute in Hin. destruct Hin as [<-|[<-|[]]];
      vm_compute; split; discriminate.
Defined.

Lemma X17_mode_is_first_largest_witness :
  exists st m before after,
    Priors.computeStats (Priors.cs_combined (Priors.buildCombinedSnapshot Sample.loneVenue))
    = Some st
    /\ Priors.mode st = Some m
    /\ Priors.cs_combined (Priors.buildCombinedSnapshot Sample.loneVenue)
       = before ++ m :: after
    /\ (forall r, In r before -> combined r < combined m)
    /\ (forall r, In r after -> combined r <= combined m).
Proof.
  destruct (Priors.computeStats
              (Priors.cs_combined (Priors.buildCombinedSnapshot Sample.loneVenue)))
    as [st|] eqn:E.
  - destruct (StatsFacts.X17_mode_is_first_largest _ st E) as (m & before & after & H).
    exists st, m, before, after. split; [reflexivity | exact H].
  - exfalso. vm_compute in E. discriminate E.
Defined.

Lemma X20_top_range_is_first_largest_witness :
  exists before p after,
    aggregateRangesToStandard Sample.quotes Sample.grid Sample.jobs = before ++ p :: after
    /\ (forall q, In q before -> q < p)
    /\ (forall q, In q after -> q <= p)
    /\ topRange (aggregateRangesToStandard Sample.quotes Sample.grid Sample.jobs) Sample.grid
       = match nth_error Sample.grid (List.length before) with
         | Some bin => Some (bin, p)
         | None => None
         end.
Proof.
  apply (TopFacts.X20_top_range_is_first_largest
           (aggregateRangesToStandard Sample.quotes Sample.grid Sample.jobs) Sample.grid).
  vm_compute. discriminate.
Defined.

Lemma X22_one_source_always_stays_active_witness :
  (forall ids, NoDup (Feed.clicks ids ["arxiv"; "nber"]%string)
               /\ Feed.clicks ids ["arxiv"; "nber"]%string <> [])
  /\ (forall id other, other <> id ->
        (In other (Feed.click id ["arxiv"; "nber"]%string)
         <-> In other ["arxiv"; "nber"]%string))
  /\ (forall id, In id (Feed.click id ["arxiv"; "nber"]%string)
                 <-> ~ In id ["arxiv"; "nber"]%string
                     \/ ["arxiv"; "nber"]%string = [id]).
Proof.
  apply (FeedFacts.X22_one_source_always_stays_active ["arxiv"; "nber"]%string).
  - constructor; [simpl; intros [H|[]]; discriminate H|].
    constructor; [simpl; intros [] | constructor].
  - discriminate.
Defined.

Lemma X25_entry_holds_each_venues_last_quote_witness :
  exists e,
    In e (combineDistributions (sources Sample.loneVenue))
    /\ kalshi e
       = quoteFor e (normalizeDistribution (venueRanges "kalshi" (sources Sample.loneVenue)))
    /\ polymarket e
       = quoteFor e (normalizeDistribution
                       (venueRanges "polymarket" (sources Sample.loneVenue)))
    /\ exists raw,
         combinedRaw e = Some raw
         /\ raw == match kalshi e, polymarket e with
                   | Some k, Some p => (k + p) / 2
                   | Some k, None => k
                   | None, Some p => p
                   | None, None => 0
                   end
         /\ (kalshi e <> None \/ polymarket e <> None).
Proof.
  exists (nth 0 (combineDistributions (sources Sample.loneVenue))
              (mkEntry (mkCell (mkBounds None None) None None) None 0)).
  split; [vm_compute; auto|].
  apply (QuoteFacts.X25_entry_holds_each_venues_last_quote (sources Sample.loneVenue)).
  vm_compute. auto.
Defined.

End MoreWitnesses.
